(** * Job lifecycle of the video compressor API server

    A shallow embedding of [src/api_server.py] (job registry, process
    registry, job runner, cancellation, janitor) and of the compression
    statistics of [src/video_compressor.py].

    Conventions of the embedding.
    - A Python dict is a [gmap string value].  The registry [active_jobs]
      maps job ids to *references* of record dicts that live in a heap, because
      [get_job_status] hands out the dict object itself, not a copy.
    - Python floats (file sizes in MB, [time.time()] stamps) are exact
      rationals [Q] in the state and in the runner.  The rounding of
      binary64 is modelled apart, for the statistics of lines 197-200
      ([b64], [statistics_b64]), where the order of two numbers depends on
      it.
    - Everything the operating system decides (clock, ffmpeg, signals, file
      deletion) is read from an oracle record [env] handed to each step.
    - Each thread is a program counter; one step is one access to shared
      state, so interleavings of requests and runners are lists of labels. *)

From Stdlib Require Import QArith Lqa Ascii Qround Qabs Qpower.
From stdpp Require Import gmap strings list fin_maps pretty sorting.

#[local] Set Warnings "-register-all".
#[local] Open Scope string_scope.

(** ** Python values *)

Inductive value : Type :=
| VStr (s : string)
| VInt (z : Z)
| VFloat (q : Q)
| VDict (d : list (string * value)).

(** Numeric reading of a value; [None] is Python's [TypeError]. *)
Definition num_val (v : value) : option Q :=
  match v with
  | VInt z => Some (inject_Z z)
  | VFloat q => Some q
  | VStr _ | VDict _ => None
  end.

(** [v == s] for a string literal [s]. *)
Definition str_eqb (v : option value) (s : string) : bool :=
  match v with
  | Some (VStr s') => bool_decide (s' = s)
  | _ => false
  end.

(** [v in [s1, s2, ...]] for string literals. *)
Definition str_in (v : option value) (l : list string) : bool :=
  existsb (str_eqb v) l.

Definition Qltb (a b : Q) : bool := negb (Qle_bool b a).

(** ** Shared state *)

(** A [subprocess.Popen] object, known by its pid. *)
Record process := Process { pid : nat }.

Record state := State {
  heap : gmap nat (gmap string value);   (* the record dicts *)
  next_loc : nat;                        (* next fresh reference *)
  active_jobs : gmap string nat;         (* job id -> record dict *)
  active_processes : gmap string process;(* job id -> Popen object *)
  files : gmap string N                  (* path -> size in bytes *)
}.

Definition empty_state : state := State ∅ 0 ∅ ∅ ∅.

Definition set_heap (h : gmap nat (gmap string value)) (n : nat) (s : state) :=
  State h n (active_jobs s) (active_processes s) (files s).
Definition set_jobs (j : gmap string nat) (s : state) :=
  State (heap s) (next_loc s) j (active_processes s) (files s).
Definition set_processes (p : gmap string process) (s : state) :=
  State (heap s) (next_loc s) (active_jobs s) p (files s).
Definition set_files (f : gmap string N) (s : state) :=
  State (heap s) (next_loc s) (active_jobs s) (active_processes s) f.

(** The dict behind a reference; [None] is the fresh [{}] that
    [active_jobs.get(job_id, {})] builds for an unknown id. *)
Definition deref (s : state) (ref : option nat) : gmap string value :=
  match ref with
  | Some l => default ∅ (heap s !! l)
  | None => ∅
  end.

(** ** Job registry *)

(** [get_job_status]: [active_jobs.get(job_id, {})]. *)
Definition get_job_status (s : state) (job_id : string) : option nat :=
  active_jobs s !! job_id.

(** The record currently stored for [job_id], read through the registry. *)
Definition job_record (s : state) (job_id : string) : gmap string value :=
  deref s (get_job_status s job_id).

Definition job_status (s : state) (job_id : string) : option value :=
  job_record s job_id !! "status".

(** The dict literal [{'status': status, 'updated_at': time.time(), **kwargs}];
    later entries win, hence [kwargs] on the left of stdpp's left-biased
    union.  (Python rejects a call whose [kwargs] has a key ["status"] before
    the body runs; no caller passes one.) *)
Definition status_fields (now : Q) (status : string)
    (kwargs : gmap string value) : gmap string value :=
  kwargs ∪ <["status" := VStr status]> (<["updated_at" := VFloat now]> ∅).

(** [update_job_status]: create the record when the id is unknown, then
    merge the fields into it. *)
Definition update_job_status (now : Q) (job_id : string) (status : string)
    (kwargs : gmap string value) (s : state) : state :=
  let s1 :=
    match active_jobs s !! job_id with
    | Some _ => s
    | None =>
        set_jobs (<[job_id := next_loc s]> (active_jobs s))
          (set_heap (<[next_loc s := ∅]> (heap s)) (S (next_loc s)) s)
    end in
  match active_jobs s1 !! job_id with
  | Some l =>
      set_heap (<[l := status_fields now status kwargs ∪ deref s1 (Some l)]> (heap s1))
        (next_loc s1) s1
  | None => s1
  end.

Definition terminal_statuses : list string := ["completed"; "failed"; "cancelled"].

(** The test of line 83; [None] is the [TypeError] of subtracting a
    non-number.  [and] short-circuits, so the age is computed for terminal
    records only. *)
Definition expired (current_time : Q) (job : gmap string value) : option bool :=
  if str_in (job !! "status") terminal_statuses then
    u ← num_val (default (VInt 0) (job !! "updated_at"));
    Some (Qltb 3600 (current_time - u))
  else Some false.

(** One iteration of the loop of [clean_old_jobs]. *)
Definition clean_one (current_time : Q) (s : state) (job_id : string)
    : option state :=
  l ← active_jobs s !! job_id;
  expired current_time (deref s (Some l)) ≫= λ b : bool,
  Some (if b then set_jobs (delete job_id (active_jobs s)) s else s).

Definition clean_loop (current_time : Q) (keys : list string) (s : state)
    : option state :=
  foldl (λ (acc : option state) job_id,
           acc ≫= λ s', clean_one current_time s' job_id)
        (Some s) keys.

(** [clean_old_jobs]: the loop over a snapshot of the keys. *)
Definition clean_old_jobs (current_time : Q) (s : state) : option state :=
  clean_loop current_time (map_to_list (active_jobs s)).*1 s.

(** ** Process registry *)

Definition register_process (job_id : string) (p : process) (s : state) : state :=
  set_processes (<[job_id := p]> (active_processes s)) s.

Definition unregister_process (job_id : string) (s : state) : state :=
  set_processes (delete job_id (active_processes s)) s.

(** [cancel_process]: signal the process group of the registered handle.
    [kill_raises] tells whether [taskkill]/[os.killpg] raised. *)
Definition cancel_process (kill_raises : bool) (job_id : string) (s : state)
    : bool :=
  match active_processes s !! job_id with
  | Some _ => negb kill_raises
  | None => false
  end.

(** ** The environment *)

Inductive outcome (A : Type) : Type :=
| Returns (a : A)
| Raises (msg : string).
Arguments Returns {A} a.
Arguments Raises {A} msg.

(** What the operating system answers during one step.  A step reads only
    the fields of the calls it makes. *)
Record env := Env {
  now : Q;                                    (* time.time() *)
  ffmpeg_probe : outcome (option string * option string);
                                              (* resolution and codec parsed
                                                 from [ffmpeg -i] *)
  popen : outcome process;                    (* subprocess.Popen(cmd, ...) *)
  communicate : outcome (Z * string);         (* returncode, stderr *)
  kill_raises : bool;                         (* taskkill / os.killpg *)
  remove_raises : bool                        (* os.remove *)
}.

(** ** Probing and statistics ([video_compressor.py]) *)

Record video_info := VideoInfo {
  resolution : option string;
  codec : option string;
  size_mb : Q
}.

(** [os.path.getsize(path) / (1024 * 1024)] *)
Definition size_mb_of_bytes (n : N) : Q := inject_Z (Z.of_N n) / 1048576.

Definition opt_entry (k : string) (o : option string) : list (string * value) :=
  match o with Some v => [(k, VStr v)] | None => [] end.

(** The dict [video_info] as built by [get_video_info]. *)
Definition info_dict (i : video_info) : value :=
  VDict (opt_entry "resolution" (resolution i) ++ opt_entry "codec" (codec i)
         ++ [("size_mb", VFloat (size_mb i))]).

(** [repr] of a path, as [str] of an [OSError] prints the file name:
    between single quotes, or between double quotes when the path has a
    single quote and no double quote; the quote in use and the backslash are
    escaped and control characters are written as escapes.  Bytes above 127
    stand for printable characters. *)
Definition single_quote : ascii := "039"%char.
Definition double_quote : ascii := "034"%char.
Definition backslash : ascii := "092"%char.

Fixpoint str_mem (c : ascii) (s : string) : bool :=
  match s with
  | EmptyString => false
  | String c' rest => Ascii.eqb c c' || str_mem c rest
  end.

Definition hex_digit (n : N) : ascii :=
  default "0"%char (String.get (N.to_nat n) "0123456789abcdef").

Definition repr_char (quote c : ascii) : string :=
  let n := N_of_ascii c in
  if Ascii.eqb c quote || Ascii.eqb c backslash
  then String backslash (String c "")
  else if (n =? 9)%N then String backslash "t"
  else if (n =? 10)%N then String backslash "n"
  else if (n =? 13)%N then String backslash "r"
  else if (n <? 32)%N || (n =? 127)%N
       then String backslash
              (String "x" (String (hex_digit (n / 16))
                             (String (hex_digit (n mod 16)) "")))
  else String c "".

Fixpoint repr_body (quote : ascii) (s : string) : string :=
  match s with
  | EmptyString => ""
  | String c rest => repr_char quote c ++ repr_body quote rest
  end.

Definition py_repr (s : string) : string :=
  let quote :=
    if str_mem single_quote s && negb (str_mem double_quote s)
    then double_quote else single_quote in
  String quote (repr_body quote s ++ String quote "").

(** [get_video_info]: [subprocess.run] may raise, the stream line may lack
    either field, and [os.path.getsize] raises for a missing file. *)
Definition get_video_info (e : env) (s : state) (video_path : string)
    : outcome video_info :=
  match ffmpeg_probe e with
  | Raises m => Raises m
  | Returns (r, c) =>
      match files s !! video_path with
      | Some n => Returns (VideoInfo r c (size_mb_of_bytes n))
      | None =>
          Raises ("[Errno 2] No such file or directory: " ++ py_repr video_path)
      end
  end.

(** Python's [/] on floats: [None] is [ZeroDivisionError]. *)
Definition truediv (a b : Q) : option Q :=
  if Qeq_bool b 0 then None else Some (a / b)%Q.

(** [original_size / compressed_size if compressed_size > 0 else 0]
    (api_server.py line 199, video_compressor.py line 133). *)
Definition compression_ratio (original_size compressed_size : Q) : option value :=
  if Qltb 0 compressed_size
  then VFloat <$> truediv original_size compressed_size
  else Some (VInt 0).

(** [((original_size - compressed_size) / original_size) * 100
     if original_size > 0 else 0] (api_server.py line 200). *)
Definition compression_percent (original_size compressed_size : Q) : option value :=
  if Qltb 0 original_size
  then (λ q, VFloat (q * 100)%Q)
         <$> truediv (original_size - compressed_size)%Q original_size
  else Some (VInt 0).

(** [os.path.basename] on POSIX paths: what follows the last slash. *)
Fixpoint basename_aux (acc : string) (p : string) : string :=
  match p with
  | EmptyString => acc
  | String c rest =>
      if Ascii.eqb c "/"%char then basename_aux rest rest
      else basename_aux acc rest
  end.
Definition basename (p : string) : string := basename_aux p p.

(** ** The statistics in binary64

    The statistics above are exact quotients.  CPython computes lines 52,
    199 and 200 on binary64 doubles: each operation yields the double
    nearest to its exact result, a tie going to the even mantissa.  The
    definitions below round an exact rational in that way, and repeat the
    statistics with every operation rounded. *)

Definition pow2 (k : Z) : Q := (2 ^ k)%Q.

(** For [0 < q], the [e] with [2 ^ e <= q < 2 ^ (e + 1)]. *)
Definition ilog2 (q : Q) : Z :=
  let d := (Z.log2 (Qnum q) - Z.log2 (Zpos (Qden q)))%Z in
  if Qle_bool (pow2 d) q then d else (d - 1)%Z.

(** The integer nearest to [q], a tie going to the even one. *)
Definition round_half_even (q : Q) : Z :=
  let f := Qfloor q in
  match (q - inject_Z f ?= 1 # 2)%Q with
  | Lt => f
  | Eq => if Z.even f then f else (f + 1)%Z
  | Gt => (f + 1)%Z
  end.

(** The exponent of the last mantissa bit of the double nearest to [q]:
    53 bits of mantissa, and never below the exponent -1074 of the
    subnormal numbers. *)
Definition ulp_exponent (q : Q) : Z :=
  Z.max (ilog2 (Qabs q) - 52) (-1074).

(** Round to nearest, ties to even, the exponent not bounded above. *)
Definition round53 (q : Q) : Q :=
  if Qeq_bool q 0 then 0%Q
  else (inject_Z (round_half_even (q / pow2 (ulp_exponent q)))
        * pow2 (ulp_exponent q))%Q.

(** The double that an exact result is rounded to.  [None]: the rounded
    magnitude reaches [2 ^ 1024], where binary64 has no finite number (the
    operation yields an infinity, and [int / int] raises [OverflowError]);
    the sizes of files stay far below. *)
Definition b64 (q : Q) : option Q :=
  let r := round53 q in
  if Qle_bool (pow2 1024) (Qabs r) then None else Some r.

(** [os.path.getsize(path) / (1024 * 1024)]: the quotient of two ints,
    rounded once (video_compressor.py line 52). *)
Definition size_mb_b64 (n : N) : option Q :=
  b64 (inject_Z (Z.of_N n) / 1048576).

(** Python's [/] on two floats; [None] also stands for
    [ZeroDivisionError]. *)
Definition truediv_b64 (a b : Q) : option Q :=
  if Qeq_bool b 0 then None else b64 (a / b).

(** Line 199 of api_server.py on doubles. *)
Definition compression_ratio_b64 (original_size compressed_size : Q)
    : option value :=
  if Qltb 0 compressed_size
  then VFloat <$> truediv_b64 original_size compressed_size
  else Some (VInt 0).

(** Line 200 of api_server.py on doubles: the difference, the quotient and
    the product are rounded in turn. *)
Definition compression_percent_b64 (original_size compressed_size : Q)
    : option value :=
  if Qltb 0 original_size
  then d ← b64 (original_size - compressed_size);
       q ← truediv_b64 d original_size;
       VFloat <$> b64 (q * 100)
  else Some (VInt 0).

(** The ratio and the percent that lines 199-200 compute in binary64 from
    the sizes that [get_video_info] reports for an input of [n] bytes and an
    output of [m] bytes, as numbers. *)
Definition statistics_b64 (n m : N) : option (Q * Q) :=
  o ← size_mb_b64 n;
  c ← size_mb_b64 m;
  x ← compression_ratio_b64 o c ≫= num_val;
  p ← compression_percent_b64 o c ≫= num_val;
  Some (x, p).

(** ** The job runner, [process_video_async] *)

Record job_args := JobArgs {
  input_path : string;
  output_path : string
}.

(** Program points of the runner, named by the line about to run, with the
    local variables that are live there. *)
Inductive runner_pc : Type :=
| R_start                                                  (* 119 *)
| R_probe_input                                            (* 122 *)
| R_update_info (original_info : video_info)               (* 125 *)
| R_popen (original_size : Q)                              (* 161 *)
| R_register (original_size : Q) (p : process)             (* 173 *)
| R_communicate (original_size : Q) (p : process)          (* 176 *)
| R_unregister (original_size : Q) (returncode : Z) (stderr : string)
                                                           (* 179 *)
| R_get_status (original_size : Q) (returncode : Z) (stderr : string)
                                                           (* 182 *)
| R_check_cancelled (original_size : Q) (returncode : Z) (stderr : string)
    (job_status : option nat)                              (* 183 *)
| R_exists_output                                          (* 185 *)
| R_remove_output                                          (* 187 *)
| R_update_failed (stderr : string)                        (* 193 *)
| R_probe_output (original_size : Q)                       (* 197 *)
| R_update_completed (original_size compressed_size : Q)
    (compression_ratio compression_percent : value)        (* 202 *)
| R_except (msg : string)                                  (* 216 *)
| R_except_unregister                                      (* 219 *)
| R_done.

Definition completed_fields (a : job_args) (original_size compressed_size : Q)
    (ratio percent : value) : gmap string value :=
  <["progress" := VInt 100]>
  (<["message" := VStr "Compression complete"]>
  (<["original_size" := VFloat original_size]>
  (<["compressed_size" := VFloat compressed_size]>
  (<["compression_ratio" := ratio]>
  (<["compression_percent" := percent]>
  (<["output_filename" := VStr (basename (output_path a))]> ∅)))))).

(** One step of the runner of job [job_id].  The command line (lines
    133-158) is local to the thread and is not modelled; what [Popen] does
    with it is the oracle's answer. *)
Definition runner_step (e : env) (job_id : string) (a : job_args)
    (pc : runner_pc) (s : state) : runner_pc * state :=
  match pc with
  | R_start =>
      (R_probe_input,
       update_job_status (now e) job_id "processing" {["progress" := VInt 0]} s)
  | R_probe_input =>
      match get_video_info e s (input_path a) with
      | Returns i => (R_update_info i, s)
      | Raises m => (R_except m, s)
      end
  | R_update_info i =>
      (R_popen (size_mb i),
       update_job_status (now e) job_id "processing"
         (<["progress" := VInt 10]> {["original_info" := info_dict i]}) s)
  | R_popen o =>
      match popen e with
      | Returns p => (R_register o p, s)
      | Raises m => (R_except m, s)
      end
  | R_register o p => (R_communicate o p, register_process job_id p s)
  | R_communicate o p =>
      match communicate e with
      | Returns (rc, err) => (R_unregister o rc err, s)
      | Raises m => (R_except m, s)
      end
  | R_unregister o rc err => (R_get_status o rc err, unregister_process job_id s)
  | R_get_status o rc err =>
      (R_check_cancelled o rc err (get_job_status s job_id), s)
  | R_check_cancelled o rc err ref =>
      if str_eqb (deref s ref !! "status") "cancelled" then (R_exists_output, s)
      else if bool_decide (rc ≠ 0%Z) then (R_update_failed err, s)
      else (R_probe_output o, s)
  | R_exists_output =>
      match files s !! output_path a with
      | Some _ => (R_remove_output, s)
      | None => (R_done, s)
      end
  | R_remove_output =>
      (* a bare [except: pass] swallows whatever [os.remove] raises,
         including the error for a file that is already gone *)
      if remove_raises e then (R_done, s)
      else (R_done, set_files (delete (output_path a) (files s)) s)
  | R_update_failed err =>
      (R_done,
       update_job_status (now e) job_id "failed"
         {["message" := VStr ("FFmpeg error: " ++ err)]} s)
  | R_probe_output o =>
      match get_video_info e s (output_path a) with
      | Raises m => (R_except m, s)
      | Returns i =>
          let c := size_mb i in
          match compression_ratio o c, compression_percent o c with
          | Some r, Some p => (R_update_completed o c r p, s)
          | _, _ => (R_except "float division by zero", s)
          end
      end
  | R_update_completed o c r p =>
      (R_done,
       update_job_status (now e) job_id "completed" (completed_fields a o c r p) s)
  | R_except m =>
      (R_except_unregister,
       update_job_status (now e) job_id "failed" {["message" := VStr m]} s)
  | R_except_unregister => (R_done, unregister_process job_id s)
  | R_done => (R_done, s)
  end.

(** The runner on its own: consecutive steps with no other thread in
    between, one oracle answer per step. *)
Fixpoint runner_steps (es : list env) (job_id : string) (a : job_args)
    (pc : runner_pc) (s : state) : runner_pc * state :=
  match es with
  | [] => (pc, s)
  | e :: es' =>
      let '(pc', s') := runner_step e job_id a pc s in
      runner_steps es' job_id a pc' s'
  end.

(** ** The cancellation request, [cancel_job] *)

Inductive response : Type :=
| Ok                                   (* 200, 'Job cancelled successfully' *)
| NotFound                             (* 404, 'Job not found' *)
| InvalidState (status : option value) (* 400, 'Cannot cancel job with status: ...' *).

Inductive cancel_pc : Type :=
| K_get                                (* 329 *)
| K_check_found (job : option nat)     (* 331 *)
| K_check_status (job : option nat)    (* 337 *)
| K_invalid (job : option nat)         (* 340 *)
| K_cancel_process                     (* 344 *)
| K_update (cancelled : bool)          (* 347 *)
| K_return (r : response).

Definition cancellable_statuses : list string := ["queued"; "processing"].

(** One step of a cancel request for [job_id].  [not job] is the emptiness
    test of the dict behind the reference. *)
Definition cancel_step (e : env) (job_id : string) (pc : cancel_pc) (s : state)
    : cancel_pc * state :=
  match pc with
  | K_get => (K_check_found (get_job_status s job_id), s)
  | K_check_found job =>
      if bool_decide (deref s job = ∅) then (K_return NotFound, s)
      else (K_check_status job, s)
  | K_check_status job =>
      if str_in (deref s job !! "status") cancellable_statuses
      then (K_cancel_process, s)
      else (K_invalid job, s)
  | K_invalid job => (K_return (InvalidState (deref s job !! "status")), s)
  | K_cancel_process => (K_update (cancel_process (kill_raises e) job_id s), s)
  | K_update _ =>
      (K_return Ok,
       update_job_status (now e) job_id "cancelled"
         {["message" := VStr "Job cancelled by user"]} s)
  | K_return r => (K_return r, s)
  end.

Fixpoint cancel_steps (n : nat) (e : env) (job_id : string) (pc : cancel_pc)
    (s : state) : cancel_pc * state :=
  match n with
  | O => (pc, s)
  | S n' =>
      let '(pc', s') := cancel_step e job_id pc s in
      cancel_steps n' e job_id pc' s'
  end.

(** [cancel_job] run from its entry with no other thread in between; five
    steps reach a [K_return] on every path. *)
Definition cancel_job (e : env) (job_id : string) (s : state)
    : cancel_pc * state :=
  cancel_steps 5 e job_id K_get s.

(** ** The server: threads over the shared state *)

Record sys := Sys {
  shared : state;
  runners : gmap string (job_args * runner_pc);  (* one runner per job id *)
  requests : gmap nat (string * cancel_pc)       (* cancel requests in flight *)
}.

Definition init : sys := Sys empty_state ∅ ∅.

Inductive label : Type :=
| LSubmit (t : Q) (job_id filename : string) (a : job_args)
    (compression_options : list (string * value))
| LRunner (job_id : string) (e : env)
| LCancelArrives (rid : nat) (job_id : string)
| LCancel (rid : nat) (e : env)
| LJanitor (t : Q)
| LFile (path : string) (size : option N).

Definition submit_fields (filename : string) (a : job_args)
    (compression_options : list (string * value)) : gmap string value :=
  <["filename" := VStr filename]>
  (<["input_path" := VStr (input_path a)]>
  (<["output_path" := VStr (output_path a)]>
  (<["compression_options" := VDict compression_options]> ∅))).

(** One scheduling step.
    - [LSubmit]: lines 287-301 of [compress_video_api]: the record is created
      as [queued] and the runner thread starts; the id is a fresh uuid.
    - [LRunner], [LCancel]: the named thread takes its next step; a finished
      thread has none.
    - [LJanitor]: [clean_old_jobs], which holds the lock throughout.
    - [LFile]: a process outside the server (the encoder, the upload) writes
      or removes a file. *)
Definition step (l : label) (y : sys) : option sys :=
  match l with
  | LSubmit t job_id filename a opts =>
      match runners y !! job_id with
      | Some _ => None
      | None =>
          Some (Sys (update_job_status t job_id "queued"
                       (submit_fields filename a opts) (shared y))
                    (<[job_id := (a, R_start)]> (runners y))
                    (requests y))
      end
  | LRunner job_id e =>
      match runners y !! job_id with
      | Some (a, pc) =>
          match pc with
          | R_done => None
          | _ =>
              let '(pc', s') := runner_step e job_id a pc (shared y) in
              Some (Sys s' (<[job_id := (a, pc')]> (runners y)) (requests y))
          end
      | None => None
      end
  | LCancelArrives rid job_id =>
      match requests y !! rid with
      | Some _ => None
      | None =>
          Some (Sys (shared y) (runners y) (<[rid := (job_id, K_get)]> (requests y)))
      end
  | LCancel rid e =>
      match requests y !! rid with
      | Some (job_id, pc) =>
          match pc with
          | K_return _ => None
          | _ =>
              let '(pc', s') := cancel_step e job_id pc (shared y) in
              Some (Sys s' (runners y) (<[rid := (job_id, pc')]> (requests y)))
          end
      | None => None
      end
  | LJanitor t =>
      s' ← clean_old_jobs t (shared y);
      Some (Sys s' (runners y) (requests y))
  | LFile path size =>
      Some (Sys (set_files (partial_alter (λ _, size) path (files (shared y)))
                   (shared y))
                (runners y) (requests y))
  end.

(** A schedule is a list of labels, run from left to right. *)
Definition run (ls : list label) (y : sys) : option sys :=
  foldl (λ (acc : option sys) l, acc ≫= step l) (Some y) ls.

Definition reachable (y : sys) : Prop := ∃ ls, run ls init = Some y.

(** What a poller sees of a job, and the answer a request has returned. *)
Definition status_of (y : sys) (job_id : string) : option value :=
  job_status (shared y) job_id.

Definition answer_of (y : sys) (rid : nat) : option response :=
  match requests y !! rid with
  | Some (_, K_return r) => Some r
  | _ => None
  end.

(** * Vocabulary of the properties, sample states and schedules *)

Definition one_job (status : string) : state :=
  update_job_status 10 "job-1" status ∅ empty_state.

Definition quiet (t : Q) : env :=
  Env t (Returns (None, None)) (Returns (Process 4242)) (Returns (0%Z, ""))
      false false.

(** What is left of the output artifact once the runner has tried to delete
    it; [remove_raises] is the oracle's answer to [os.remove]. *)
Definition after_cleanup (remove_raises : bool) (a : job_args) (s : state)
    : state :=
  match files s !! output_path a with
  | Some _ =>
      if remove_raises then s
      else set_files (delete (output_path a) (files s)) s
  | None => s
  end.

Definition cancelled_with_output : state :=
  set_files {["out/job-1_compressed_a.mp4" := 1234%N]} (one_job "cancelled").

Definition encoded (original compressed : N) : state :=
  set_files (<["up/job-1_a.mp4" := original]>
               {["out/job-1_compressed_a.mp4" := compressed]})
            (one_job "processing").

Definition job1 : job_args :=
  JobArgs "up/job-1_a.mp4" "out/job-1_compressed_a.mp4".

(** The recorded number under a key of a job record. *)
Definition recorded (s : state) (job_id key : string) : option Q :=
  job_record s job_id !! key ≫= num_val.

(** The run of a job whose input file is empty and whose output has one
    byte, from the probe of the output on. *)
Definition empty_input_run : runner_pc * state :=
  runner_steps [quiet 30; quiet 31] "job-1" job1
    (R_probe_output (size_mb_of_bytes 0)) (encoded 0 1).

(** The spec's words for the records a sweep removes. *)
Definition is_terminal (job : gmap string value) : Prop :=
  job !! "status" = Some (VStr "completed") ∨
  job !! "status" = Some (VStr "failed") ∨
  job !! "status" = Some (VStr "cancelled").

Definition past_retention (t : Q) (job : gmap string value) : Prop :=
  ∃ u, num_val (default (VInt 0) (job !! "updated_at")) = Some u ∧
       (3600 < t - u)%Q.

(** The time stamp of a record is a number (or absent, read as 0). *)
Definition stamp_ok (job : gmap string value) : Prop :=
  is_Some (num_val (default (VInt 0) (job !! "updated_at"))).

Definition stamps_numeric (s : state) : Prop :=
  ∀ job_id l, active_jobs s !! job_id = Some l → stamp_ok (deref s (Some l)).

(** Every record dict of the heap has a numeric time stamp; this is what
    [update_job_status] maintains. *)
Definition heap_stamped (s : state) : Prop :=
  ∀ l d, heap s !! l = Some d → stamp_ok d.

(** What one sweep leaves under an id. *)
Definition sweep_one (t : Q) (s : state) (job_id : string) : option nat :=
  l ← active_jobs s !! job_id;
  if bool_decide (expired t (deref s (Some l)) = Some true) then None
  else Some l.

(** Two states that differ in the registry only. *)
Definition same_but_jobs (s s' : state) : Prop :=
  heap s' = heap s ∧ next_loc s' = next_loc s ∧
  active_processes s' = active_processes s ∧ files s' = files s.

(** A registry with an old completed job, a recent failed job and an old
    job that is still processing. *)
Definition three_jobs : state :=
  update_job_status 50 "job-3" "processing" ∅
    (update_job_status 4000 "job-2" "failed" ∅
       (update_job_status 10 "job-1" "completed" ∅ empty_state)).

(** Program points between the registration of the handle (line 173) and
    the unregistration that follows the return of the encoder invocation
    (line 179, or line 219 when the invocation raised). *)
Definition in_invocation (pc : runner_pc) : bool :=
  match pc with
  | R_communicate _ _ | R_unregister _ _ _ | R_except _ | R_except_unregister =>
      true
  | _ => false
  end.

(** Program points after the unregistration of line 179, and the end of the
    runner on every path. *)
Definition past_invocation (pc : runner_pc) : bool :=
  match pc with
  | R_get_status _ _ _ | R_check_cancelled _ _ _ _ | R_exists_output
  | R_remove_output | R_update_failed _ | R_probe_output _
  | R_update_completed _ _ _ _ | R_done => true
  | _ => false
  end.

(** A handle is registered only for a job whose runner is inside the
    invocation. *)
Definition handles_tracked (y : sys) : Prop :=
  ∀ job_id p, active_processes (shared y) !! job_id = Some p →
    ∃ a pc, runners y !! job_id = Some (a, pc) ∧ in_invocation pc = true.

(** A job is submitted and a cancel request for it runs to its answer
    before the runner thread takes its first step. *)
Definition cancel_while_queued : list label :=
  [ LFile "up/job-1_a.mp4" (Some 104857600%N);
    LSubmit 100 "job-1" "a.mp4" job1 [];
    LCancelArrives 0 "job-1";
    LCancel 0 (quiet 101); LCancel 0 (quiet 101); LCancel 0 (quiet 101);
    LCancel 0 (quiet 101); LCancel 0 (quiet 101) ].

(** The runner then runs to its end; the encoder exits with code 0 and
    leaves a 10 MB output. *)
Definition runner_to_end : list label :=
  [ LRunner "job-1" (quiet 102);      (* 119 *)
    LRunner "job-1" (quiet 103);      (* 122 *)
    LRunner "job-1" (quiet 104);      (* 125 *)
    LRunner "job-1" (quiet 105);      (* 161 *)
    LRunner "job-1" (quiet 106);      (* 173 *)
    LFile "out/job-1_compressed_a.mp4" (Some 10485760%N);
    LRunner "job-1" (quiet 200);      (* 176 *)
    LRunner "job-1" (quiet 201);      (* 179 *)
    LRunner "job-1" (quiet 202);      (* 182 *)
    LRunner "job-1" (quiet 203);      (* 183 *)
    LRunner "job-1" (quiet 204);      (* 197 *)
    LRunner "job-1" (quiet 205) ].    (* 202 *)

(** A job runs up to the status check that follows the encoder's return
    (line 183), which reads [processing]. *)
Definition runner_past_check : list label :=
  [ LFile "up/job-1_a.mp4" (Some 104857600%N);
    LSubmit 100 "job-1" "a.mp4" job1 [];
    LRunner "job-1" (quiet 102); LRunner "job-1" (quiet 103);
    LRunner "job-1" (quiet 104); LRunner "job-1" (quiet 105);
    LRunner "job-1" (quiet 106);
    LFile "out/job-1_compressed_a.mp4" (Some 10485760%N);
    LRunner "job-1" (quiet 200); LRunner "job-1" (quiet 201);
    LRunner "job-1" (quiet 202); LRunner "job-1" (quiet 203) ].

(** A cancel request runs to its answer, then the runner finishes. *)
Definition cancel_then_finish : list label :=
  [ LCancelArrives 0 "job-1";
    LCancel 0 (quiet 204); LCancel 0 (quiet 204); LCancel 0 (quiet 204);
    LCancel 0 (quiet 204); LCancel 0 (quiet 204);
    LRunner "job-1" (quiet 205); LRunner "job-1" (quiet 206) ].

Definition cancelled_then_run : list label :=
  (cancel_while_queued ++ runner_to_end)%list.

Definition after (ls : list label) (y : sys) : sys := default y (run ls y).

(** * The rest of the server, the command line tool and the GUI *)

(** ** File names: the upload filter and the directory filters *)

(** Python text is modelled as strings of ASCII characters; the filters
    below are stated for such names. *)
Definition is_ascii (c : ascii) : bool :=
  match c with Ascii _ _ _ _ _ _ _ b7 => negb b7 end.

Fixpoint ascii_only (s : string) : bool :=
  match s with
  | EmptyString => true
  | String c r => is_ascii c && ascii_only r
  end.

(** [c in s] for a one-character [c]. *)
Fixpoint contains (c : ascii) (s : string) : bool :=
  match s with
  | EmptyString => false
  | String c' r => Ascii.eqb c' c || contains c r
  end.

(** The split at the last [sep], when there is one. *)
Fixpoint rsplit1_aux (sep : ascii) (s : string) : option (string * string) :=
  match s with
  | EmptyString => None
  | String c r =>
      match rsplit1_aux sep r with
      | Some (b, a) => Some (String c b, a)
      | None => if Ascii.eqb c sep then Some (EmptyString, r) else None
      end
  end.

(** [s.rsplit(sep, 1)] *)
Definition rsplit1 (sep : ascii) (s : string) : list string :=
  match rsplit1_aux sep s with
  | Some (b, a) => [b; a]
  | None => [s]
  end.

(** [str.lower] on ASCII text. *)
Definition lower_char (c : ascii) : ascii :=
  let n := N_of_ascii c in
  if ((65 <=? n) && (n <=? 90))%N then ascii_of_N (n + 32) else c.

Fixpoint lower (s : string) : string :=
  match s with
  | EmptyString => EmptyString
  | String c r => String (lower_char c) (lower r)
  end.

(** [s.endswith(suf)] *)
Fixpoint ends_with (s suf : string) : bool :=
  bool_decide (s = suf)
  || match s with
     | EmptyString => false
     | String _ r => ends_with r suf
     end.

(** [app.config['ALLOWED_EXTENSIONS']] *)
Definition allowed_extensions : list string :=
  ["mp4"; "mov"; "avi"; "mkv"; "wmv"; "flv"].

(** [allowed_file] (api_server.py lines 56-58).  The index [1] is read
    only when the name has a dot, and then the split has two parts. *)
Definition allowed_file (filename : string) : bool :=
  contains "." filename
  && match rsplit1 "." filename !! 1%nat with
     | Some ext => bool_decide (lower ext ∈ allowed_extensions)
     | None => false
     end.

(** The tuple of suffixes of video_compressor.py line 240 and
    batch_compress.py line 190. *)
Definition video_extensions : list string :=
  [".mp4"; ".mov"; ".avi"; ".mkv"; ".wmv"; ".flv"].

(** [file.lower().endswith(video_extensions)] *)
Definition is_video_name (file : string) : bool :=
  existsb (ends_with (lower file)) video_extensions.

(** ** The ffmpeg command line *)

(** The dict [compression_options] that [compress_video_api] builds (lines
    273-284), with the types it stores; a key may be absent, and
    [process_video_async] reads every key with [.get]. *)
Record compression_options := CompressionOptions {
  opt_target_size_mb : option Z;
  opt_codec : option string;
  opt_crf : option Z;
  opt_preset : option string;
  opt_audio_bitrate : option string;
  opt_max_width : option Z
}.

(** [["-vf", f"scale='min({max_width},iw)':-2"]] under [if max_width:];
    an absent width and the integer 0 are both false. *)
Definition scale_args (max_width : option Z) : list string :=
  match max_width with
  | Some w =>
      if bool_decide (w ≠ 0%Z)
      then ["-vf"; "scale='min(" ++ pretty w ++ ",iw)':-2"]
      else []
  | None => []
  end.

(** The command of [process_video_async] (api_server.py lines 133-158). *)
Definition server_command (input_path output_path : string)
    (o : compression_options) : list string :=
  (["ffmpeg"; "-i"; input_path]
   ++ scale_args (opt_max_width o)
   ++ ["-c:v"; default "libx265" (opt_codec o);
       "-crf"; pretty (default 28%Z (opt_crf o));
       "-preset"; default "medium" (opt_preset o)]
   ++ ["-c:a"; "aac"; "-b:a"; default "128k" (opt_audio_bitrate o)]
   ++ (if bool_decide (opt_codec o = Some "libx265")
       then ["-x265-params"; "log-level=error"] else [])
   ++ ["-y"; output_path])%list.

(** The command of [compress_video] (video_compressor.py lines 94-118). *)
Definition cli_command (input_path output_path : string) (codec : string)
    (crf : Z) (preset audio_bitrate : string) (max_width : option Z)
    : list string :=
  (["ffmpeg"; "-i"; input_path]
   ++ scale_args max_width
   ++ ["-c:v"; codec; "-crf"; pretty crf; "-preset"; preset]
   ++ ["-c:a"; "aac"; "-b:a"; audio_bitrate]
   ++ (if bool_decide (codec = "libx265")
       then ["-x265-params"; "log-level=error"] else [])
   ++ ["-y"; output_path])%list.

(** ** The file list of the batch GUI ([batch_compress.py]) *)

(** [os.path.join(a, b)] on POSIX paths. *)
Definition path_join (a b : string) : string :=
  match b with
  | String "/" _ => b
  | _ =>
      if bool_decide (a = "") || ends_with a "/" then a ++ b
      else a ++ String "/" b
  end.

(** The two lists the GUI keeps side by side: the paths and what the list
    box shows for them. *)
Record gui := Gui {
  input_files : list string;
  files_listbox : list string
}.

(** The body of the loops of [add_files] and [add_folder]: append the path
    and its label unless the path is already listed. *)
Definition add_entry (path label : string) (g : gui) : gui :=
  if bool_decide (path ∈ input_files g) then g
  else Gui (input_files g ++ [path]) (files_listbox g ++ [label]).

(** [add_files]; [files] is what the file dialog returned (lines 180-184).
    An empty selection runs no iteration. *)
Definition add_files (files : list string) (g : gui) : gui :=
  foldl (λ g file, add_entry file (basename file) g) g files.

(** The inner loop of [add_folder] over the files of one directory (lines
    192-197). *)
Definition add_folder_files (root : string) (files : list string) (g : gui)
    : gui :=
  foldl (λ g file,
           if is_video_name file then add_entry (path_join root file) file g
           else g)
        g files.

(** [add_folder]; [walk] is what [os.walk(folder)] yields, directory by
    directory (lines 189-197). *)
Definition add_folder (walk : list (string * list string)) (g : gui) : gui :=
  foldl (λ g entry, add_folder_files entry.1 entry.2 g) g walk.

(** One iteration of [remove_files]: [del self.input_files[index]] raises
    [IndexError] ([None]) out of range; the list box ignores such an index. *)
Definition remove_at (index : nat) (g : gui) : option gui :=
  if decide (index < length (input_files g))%nat then
    Some (Gui (delete index (input_files g)) (delete index (files_listbox g)))
  else None.

(** [sorted(selected, reverse=True)] *)
Definition sorted_reverse (selected : list nat) : list nat :=
  @merge_sort nat (λ a b, (b ≤ a)%nat) (λ a b, decide (b ≤ a)%nat) selected.

(** [remove_files]; [selected] is the selection of the list box (lines
    200-205). *)
Definition remove_files (selected : list nat) (g : gui) : option gui :=
  foldl (λ (acc : option gui) index, acc ≫= remove_at index) (Some g)
        (sorted_reverse selected).

(** [clear_files] *)
Definition clear_files (g : gui) : gui := Gui [] [].

(** The entries of a list at the positions that are not selected, walking
    the list from position [i]. *)
Fixpoint unselected {A} (selected : list nat) (i : nat) (l : list A) : list A :=
  match l with
  | [] => []
  | x :: r =>
      if bool_decide (i ∈ selected) then unselected selected (S i) r
      else x :: unselected selected (S i) r
  end.

(** No path is listed twice and the list box has one row per path. *)
Definition gui_ok (g : gui) : Prop :=
  NoDup (input_files g) ∧ length (files_listbox g) = length (input_files g).

(** ** Downloads *)

(** [s.rstrip('/')] *)
Fixpoint rstrip_slash (s : string) : string :=
  match s with
  | EmptyString => EmptyString
  | String c r =>
      match rstrip_slash r with
      | EmptyString => if Ascii.eqb c "/" then EmptyString else String c EmptyString
      | r' => String c r'
      end
  end.

(** [os.path.dirname] on POSIX paths: the head up to the last slash,
    without its trailing slashes unless it consists of slashes only. *)
Definition dirname (p : string) : string :=
  match rsplit1_aux "/" p with
  | Some (b, _) =>
      let head := b ++ "/" in
      match rstrip_slash head with
      | EmptyString => head
      | stripped => stripped
      end
  | None => EmptyString
  end.

Inductive download_response : Type :=
| DL_not_completed   (* 404, 'Job not found or not completed' *)
| DL_no_output       (* 404, 'Output file not found' *)
| DL_send (directory filename : string) (download_name : value)
                     (* send_from_directory(...) *).

(** [download_file] (api_server.py lines 355-381), read in one go.  The
    result is [None] when the record holds something other than a string
    under ['output_path']; every writer of the key stores a string, and what
    [os.path] does with other values is not modelled. *)
Definition download_file (s : state) (job_id : string)
    : option download_response :=
  let job := deref s (get_job_status s job_id) in
  if bool_decide (job = ∅) || negb (str_eqb (job !! "status") "completed")
  then Some DL_not_completed
  else
    match job !! "output_path" with
    | None => Some DL_no_output
    | Some (VStr p) =>
        if bool_decide (p = "") then Some DL_no_output
        else
          match files s !! p with
          | None => Some DL_no_output
          | Some _ =>
              Some (DL_send (dirname p) (basename p)
                      (default (VStr (basename p)) (job !! "output_filename")))
          end
    | Some _ => None
    end.

(** [list_jobs] (lines 384-394): a sweep, then a copy of the registry that
    maps every id to its record. *)
Definition list_jobs (t : Q) (s : state)
    : option (gmap string (gmap string value) * state) :=
  s' ← clean_old_jobs t s;
  Some ((λ l, deref s' (Some l)) <$> active_jobs s', s').

(** ** Invariants of the server *)

(** References handed out by the registry are allocated, live in the heap,
    and no two ids share one. *)
Definition registry_wf (s : state) : Prop :=
  (∀ job_id l, active_jobs s !! job_id = Some l →
     (l < next_loc s)%nat ∧ is_Some (heap s !! l)) ∧
  (∀ id1 id2 l, active_jobs s !! id1 = Some l →
     active_jobs s !! id2 = Some l → id1 = id2).

Definition statuses : list string :=
  ["queued"; "processing"; "completed"; "failed"; "cancelled"].

(** Every record dict carries one of the five statuses. *)
Definition heap_statuses (s : state) : Prop :=
  ∀ l d, heap s !! l = Some d →
    ∃ st, d !! "status" = Some (VStr st) ∧ st ∈ statuses.

(** The job is gone from the registry or its record reads a terminal
    status. *)
Definition settled (s : state) (job_id : string) : Prop :=
  active_jobs s !! job_id = None ∨ is_terminal (job_record s job_id).

(** What the program point of a runner says about its job's record. *)
Definition runner_inv (s : state) (job_id : string) (pc : runner_pc) : Prop :=
  match pc with
  | R_check_cancelled _ _ _ ref =>
      active_jobs s !! job_id = ref ∨ settled s job_id
  | R_exists_output | R_remove_output | R_except_unregister | R_done =>
      settled s job_id
  | _ => True
  end.

Definition runners_inv (y : sys) : Prop :=
  ∀ job_id a pc, runners y !! job_id = Some (a, pc) →
    runner_inv (shared y) job_id pc.

(** An upper bound on the steps a runner still takes from a program
    point. *)
Definition steps_left (pc : runner_pc) : nat :=
  match pc with
  | R_start => 12
  | R_probe_input => 11
  | R_update_info _ => 10
  | R_popen _ => 9
  | R_register _ _ => 8
  | R_communicate _ _ => 7
  | R_unregister _ _ _ => 6
  | R_get_status _ _ _ => 5
  | R_check_cancelled _ _ _ _ => 4
  | R_probe_output _ => 3
  | R_exists_output | R_except _ => 2
  | R_remove_output | R_update_failed _ | R_update_completed _ _ _ _
  | R_except_unregister => 1
  | R_done => 0
  end.

(** What the registry and the threads know of each other: a registered job
    has a runner; its record holds the output path it was submitted with, if
    any; it reads [completed] only once its runner has finished; and a cancel
    request that has seen a record is for a job with a runner. *)
Definition request_has_seen (kpc : cancel_pc) : bool :=
  match kpc with
  | K_check_found (Some _) | K_check_status (Some _) | K_cancel_process
  | K_update _ => true
  | _ => false
  end.

Definition job_fields_inv (s : state) (job_id : string) (a : job_args)
    (pc : runner_pc) : Prop :=
  (job_record s job_id !! "output_path" = None ∨
   job_record s job_id !! "output_path" = Some (VStr (output_path a))) ∧
  (job_status s job_id = Some (VStr "completed") → pc = R_done).

Definition served_inv (y : sys) : Prop :=
  (∀ job_id l, active_jobs (shared y) !! job_id = Some l →
     is_Some (runners y !! job_id)) ∧
  (∀ job_id a pc, runners y !! job_id = Some (a, pc) →
     job_fields_inv (shared y) job_id a pc) ∧
  (∀ rid job_id kpc, requests y !! rid = Some (job_id, kpc) →
     request_has_seen kpc = true → is_Some (runners y !! job_id)).

(** The program points at which the runner's next step writes a status:
    lines 119, 125, 193, 202 and 216. *)
Definition writes_status (pc : runner_pc) : bool :=
  match pc with
  | R_start | R_update_info _ | R_update_failed _ | R_update_completed _ _ _ _
  | R_except _ => true
  | _ => false
  end.

(** ** The batch summary line and its reader *)

(** The summary that [batch_process] prints (video_compressor.py lines
    188-189), as the line a reader of the output receives: [print] puts the
    leading newline on a line of its own and ends this one with a newline. *)
Definition batch_summary_line (results : list bool) : string :=
  "Batch processing complete. "
  ++ pretty (length (filter (λ r, r = true) results)) ++ "/"
  ++ pretty (length results) ++ " files processed successfully."
  ++ String "010" "".

(** White space of [str.split()] and of [int()] among ASCII characters. *)
Definition is_space (c : ascii) : bool :=
  let n := N_of_ascii c in
  (((9 <=? n) && (n <=? 13)) || ((28 <=? n) && (n <=? 32)))%N.

(** [s.split()]: the maximal runs of characters that are not white space.
    [cur] is the run being read. *)
Fixpoint split_go (cur : string) (s : string) : list string :=
  match s with
  | EmptyString => if bool_decide (cur = "") then [] else [cur]
  | String c r =>
      if is_space c then
        if bool_decide (cur = "") then split_go "" r else cur :: split_go "" r
      else split_go (cur ++ String c "") r
  end.
Definition split_ws (s : string) : list string := split_go "" s.

(** [pat in s] for strings. *)
Fixpoint starts_with (pat s : string) : bool :=
  match pat, s with
  | EmptyString, _ => true
  | String a p, String b r => Ascii.eqb a b && starts_with p r
  | String _ _, EmptyString => false
  end.
Fixpoint is_substring (pat s : string) : bool :=
  starts_with pat s
  || match s with
     | EmptyString => false
     | String _ r => is_substring pat r
     end.

(** [part.split("/")[0]]: what comes before the first slash. *)
Fixpoint before_slash (s : string) : string :=
  match s with
  | EmptyString => EmptyString
  | String c r => if Ascii.eqb c "/" then EmptyString else String c (before_slash r)
  end.

Definition digit_val (c : ascii) : option N :=
  let n := N_of_ascii c in
  if ((48 <=? n) && (n <=? 57))%N then Some (n - 48)%N else None.

(** The digits of a decimal literal; a single underscore may stand between
    two digits.  [after_digit] tells whether the character before was a
    digit. *)
Fixpoint parse_digits (acc : N) (after_digit : bool) (s : string) : option N :=
  match s with
  | EmptyString => if after_digit then Some acc else None
  | String c r =>
      match digit_val c with
      | Some d => parse_digits (acc * 10 + d) true r
      | None =>
          if Ascii.eqb c "_" && after_digit then parse_digits acc false r
          else None
      end
  end.

Fixpoint lstrip_space (s : string) : string :=
  match s with
  | EmptyString => EmptyString
  | String c r => if is_space c then lstrip_space r else s
  end.

Fixpoint rstrip_space (s : string) : string :=
  match s with
  | EmptyString => EmptyString
  | String c r =>
      match rstrip_space r with
      | EmptyString => if is_space c then EmptyString else String c EmptyString
      | r' => String c r'
      end
  end.

(** [int(s)] on ASCII text; [None] is [ValueError]. *)
Definition py_int (s : string) : option Z :=
  match rstrip_space (lstrip_space s) with
  | String "-" r => (λ n, Z.opp (Z.of_N n)) <$> parse_digits 0 false r
  | String "+" r => Z.of_N <$> parse_digits 0 false r
  | t => Z.of_N <$> parse_digits 0 false t
  end.

(** The loop over the parts of the line (batch_compress.py lines 326-328):
    every part with a slash sets the count, and [int] may raise. *)
Definition count_from_parts (parts : list string) : option Z :=
  foldl (λ (acc : option Z) part,
           acc ≫= λ count,
             if contains "/" part then py_int (before_slash part)
             else Some count)
        (Some 0%Z) parts.

(** What [process_videos] does with the status label for one line of output
    (lines 321-330): nothing ([Some None]), a new text, or the
    [ValueError] of [int] ([None]) that ends the reading.  [total_files] is
    the length of the GUI's list. *)
Definition status_for_line (line : string) (total_files : nat)
    : option (option string) :=
  if is_substring "Batch processing complete" line then
    (if is_substring "files processed successfully" line
     then count_from_parts (split_ws line) else Some 0%Z)
    ≫= λ success_count,
      Some (Some ("Completed: " ++ pretty success_count ++ "/"
                  ++ pretty total_files ++ " files"))
  else Some None.

(** Strings all of whose characters pass a test. *)
Fixpoint all_chars (P : ascii → bool) (s : string) : bool :=
  match s with
  | EmptyString => true
  | String c r => P c && all_chars P r
  end.

Definition is_digit (c : ascii) : bool :=
  match digit_val c with Some _ => true | None => false end.

(** ** More sample states and schedules *)

(** A job submitted with its output path, completed by the runner, with the
    output file in place. *)
Definition finished_job : state :=
  set_files {["out/job-1_compressed_a.mp4" := 10485760%N]}
    (update_job_status 40 "job-1" "completed"
       (completed_fields job1 100 10 (VFloat 10) (VFloat 90))
       (update_job_status 10 "job-1" "queued"
          (submit_fields "a.mp4" job1 []) empty_state)).

(** A job is submitted, runs to completion undisturbed, and its output is in
    place. *)
Definition submitted_and_run : list label :=
  ([ LFile "up/job-1_a.mp4" (Some 104857600%N);
     LSubmit 100 "job-1" "a.mp4" job1 [] ] ++ runner_to_end)%list.

Definition job2 : job_args :=
  JobArgs "up/job-2_b.mp4" "out/job-2_compressed_b.mp4".

(** A first job has completed; a second one, submitted later, has its
    encoder running. *)
Definition one_done_one_running : list label :=
  (submitted_and_run ++
   [ LFile "up/job-2_b.mp4" (Some 2097152%N);
     LSubmit 300 "job-2" "b.mp4" job2 [];
     LRunner "job-2" (quiet 301);      (* 119 *)
     LRunner "job-2" (quiet 302);      (* 122 *)
     LRunner "job-2" (quiet 303);      (* 125 *)
     LRunner "job-2" (quiet 304);      (* 161 *)
     LRunner "job-2" (quiet 305) ])%list.  (* 173 *)

(** Two jobs with registered encoders: the encoder of job-1 has returned
    and its runner is about to unregister the handle (line 179), a cancel
    request for job-1 is about to write (line 347), and the encoder of job-2
    is still running. *)
Definition both_running : list label :=
  [ LFile "up/job-1_a.mp4" (Some 104857600%N);
    LSubmit 100 "job-1" "a.mp4" job1 [];
    LFile "up/job-2_b.mp4" (Some 2097152%N);
    LSubmit 110 "job-2" "b.mp4" job2 [];
    LRunner "job-2" (quiet 111); LRunner "job-2" (quiet 112);
    LRunner "job-2" (quiet 113);
    LRunner "job-2" (Env 114 (Returns (None, None)) (Returns (Process 4343))
                         (Returns (0%Z, "")) false false);
    LRunner "job-2" (quiet 115);
    LRunner "job-1" (quiet 121); LRunner "job-1" (quiet 122);
    LRunner "job-1" (quiet 123); LRunner "job-1" (quiet 124);
    LRunner "job-1" (quiet 125); LRunner "job-1" (quiet 126);
    LCancelArrives 0 "job-1";
    LCancel 0 (quiet 130); LCancel 0 (quiet 130); LCancel 0 (quiet 130);
    LCancel 0 (quiet 130) ].

(** * Properties *)

Lemma Qltb_lt a b : Qltb a b = true ↔ (a < b)%Q.
Proof.
  unfold Qltb. rewrite negb_true_iff, <- not_true_iff_false, Qle_bool_iff.
  split; [apply Qnot_le_lt | apply Qlt_not_le].
Qed.

(** ** Registry updates *)

Section Registry.
Implicit Types (s : state) (kwargs : gmap string value).

Lemma update_job_status_record t job_id status kwargs s :
  job_record (update_job_status t job_id status kwargs s) job_id
  = status_fields t status kwargs ∪ job_record s job_id.
Proof.
  unfold update_job_status, job_record, get_job_status.
  destruct (active_jobs s !! job_id) as [l|] eqn:Hl; simpl.
  - rewrite Hl; simpl. rewrite Hl; simpl. by rewrite lookup_insert_eq.
  - rewrite !lookup_insert_eq; simpl. rewrite lookup_insert_eq; simpl.
    by rewrite lookup_insert_eq.
Qed.

Lemma update_job_status_known t job_id status kwargs s :
  is_Some (active_jobs (update_job_status t job_id status kwargs s) !! job_id).
Proof.
  unfold update_job_status.
  destruct (active_jobs s !! job_id) as [l|] eqn:Hl; simpl.
  - rewrite Hl; simpl. rewrite Hl. eauto.
  - rewrite lookup_insert_eq; simpl. rewrite lookup_insert_eq. eauto.
Qed.

Lemma update_job_status_processes t job_id status kwargs s :
  active_processes (update_job_status t job_id status kwargs s)
  = active_processes s.
Proof.
  unfold update_job_status.
  destruct (active_jobs s !! job_id) as [l|] eqn:Hl; simpl.
  - by rewrite Hl.
  - by rewrite lookup_insert_eq.
Qed.

Lemma update_job_status_files t job_id status kwargs s :
  files (update_job_status t job_id status kwargs s) = files s.
Proof.
  unfold update_job_status.
  destruct (active_jobs s !! job_id) as [l|] eqn:Hl; simpl.
  - by rewrite Hl.
  - by rewrite lookup_insert_eq.
Qed.

Lemma status_fields_status t status kwargs :
  kwargs !! "status" = None →
  status_fields t status kwargs !! "status" = Some (VStr status).
Proof.
  intros Hk. unfold status_fields.
  rewrite lookup_union_r by done. by rewrite lookup_insert_eq.
Qed.

Lemma update_job_status_status t job_id status kwargs s :
  kwargs !! "status" = None →
  job_status (update_job_status t job_id status kwargs s) job_id
  = Some (VStr status).
Proof.
  intros Hk. unfold job_status. rewrite update_job_status_record.
  apply lookup_union_Some_l. by apply status_fields_status.
Qed.

Lemma update_job_status_field t job_id status kwargs s k v :
  kwargs !! k = Some v →
  job_record (update_job_status t job_id status kwargs s) job_id !! k = Some v.
Proof.
  intros Hk. rewrite update_job_status_record.
  apply lookup_union_Some_l. unfold status_fields.
  by apply lookup_union_Some_l.
Qed.
End Registry.

(** C4, as the spec words it: an update of an unknown id leaves the id
    unknown.  It fails on the empty registry: the update creates the record. *)
Lemma update_unknown_id_inserts :
  active_jobs empty_state !! "job-1" = None ∧
  ¬ (active_jobs (update_job_status 0 "job-1" "processing" ∅ empty_state)
       !! "job-1" = None) ∧
  job_status (update_job_status 0 "job-1" "processing" ∅ empty_state) "job-1"
  = Some (VStr "processing").
Proof. split; [reflexivity | split; [by vm_compute | by vm_compute]]. Qed.

(** C4 (amended): for an id not present in the registry, [update_job_status]
    does not fail; it creates the record, which then holds exactly the given
    status, the time stamp and the given fields. *)
Theorem update_job_status_creates t job_id status kwargs s :
  active_jobs s !! job_id = None →
  is_Some (active_jobs (update_job_status t job_id status kwargs s) !! job_id) ∧
  job_record (update_job_status t job_id status kwargs s) job_id
  = status_fields t status kwargs.
Proof.
  intros Hnone. split; [apply update_job_status_known |].
  rewrite update_job_status_record. unfold job_record, get_job_status.
  rewrite Hnone; simpl. apply (right_id_L ∅ (∪)).
Qed.

Lemma update_job_status_creates_witness :
  is_Some (active_jobs (update_job_status 5 "job-1" "queued" ∅ empty_state)
             !! "job-1") ∧
  job_record (update_job_status 5 "job-1" "queued" ∅ empty_state) "job-1"
  = status_fields 5 "queued" ∅.
Proof. apply (update_job_status_creates 5 "job-1" "queued" ∅ empty_state). reflexivity. Defined.

(** ** Cancellation requests *)

Lemma record_nonempty_of_status s job_id v :
  job_status s job_id = Some v → job_record s job_id ≠ ∅.
Proof. unfold job_status. intros Hv He. by rewrite He in Hv. Qed.

Lemma cancel_job_found e job_id s :
  job_record s job_id ≠ ∅ →
  cancel_job e job_id s
  = cancel_steps 3 e job_id (K_check_status (get_job_status s job_id)) s.
Proof.
  intros Hne. unfold cancel_job. cbn [cancel_steps cancel_step].
  fold (job_record s job_id). by rewrite bool_decide_eq_false_2.
Qed.

(** C5: for a job whose status is [queued] or [processing], [cancel_job]
    answers success and has by then written status [cancelled] with the
    message 'Job cancelled by user' into the record; this holds for every
    answer of the oracle (the signal raised or not) and every content of the
    process registry (handle present or absent). *)
Theorem cancel_job_cancels e job_id s :
  job_status s job_id = Some (VStr "queued") ∨
  job_status s job_id = Some (VStr "processing") →
  ∃ s', cancel_job e job_id s = (K_return Ok, s') ∧
        job_status s' job_id = Some (VStr "cancelled") ∧
        job_record s' job_id !! "message" = Some (VStr "Job cancelled by user").
Proof.
  intros Hst.
  assert (Hin : str_in (job_status s job_id) cancellable_statuses = true)
    by (destruct Hst as [-> | ->]; reflexivity).
  assert (Hne : job_record s job_id ≠ ∅)
    by (destruct Hst as [H | H]; exact (record_nonempty_of_status _ _ _ H)).
  rewrite (cancel_job_found e job_id s Hne). cbn [cancel_steps cancel_step].
  fold (job_record s job_id). fold (job_status s job_id). rewrite Hin.
  eexists. split; [reflexivity |]. split.
  - by apply update_job_status_status.
  - by apply update_job_status_field.
Qed.

Lemma cancel_job_cancels_witness :
  ∃ s', cancel_job (quiet 11) "job-1" (one_job "processing") = (K_return Ok, s') ∧
        job_status s' "job-1" = Some (VStr "cancelled") ∧
        job_record s' "job-1" !! "message" = Some (VStr "Job cancelled by user").
Proof.
  apply (cancel_job_cancels (quiet 11) "job-1" (one_job "processing")).
  right. reflexivity.
Defined.

(** C6: [cancel_job] answers NotFound when the registry has no record for
    the id, and InvalidState when the record's status is neither [queued]
    nor [processing]; in both cases the whole shared state, the record
    included, is left as it was. *)
Theorem cancel_job_rejects e job_id s :
  (active_jobs s !! job_id = None →
   cancel_job e job_id s = (K_return NotFound, s)) ∧
  (∀ v, job_status s job_id = Some v →
        v ≠ VStr "queued" → v ≠ VStr "processing" →
        cancel_job e job_id s = (K_return (InvalidState (Some v)), s)).
Proof.
  split.
  - intros Hnone. unfold cancel_job. cbn [cancel_steps cancel_step].
    unfold get_job_status. rewrite Hnone. cbn [deref].
    by rewrite bool_decide_eq_true_2.
  - intros v Hv Hq Hp.
    rewrite (cancel_job_found e job_id s (record_nonempty_of_status _ _ _ Hv)).
    cbn [cancel_steps cancel_step].
    fold (job_record s job_id). fold (job_status s job_id). rewrite Hv.
    assert (Hin : str_in (Some v) cancellable_statuses = false).
    { destruct v as [x| | |]; try reflexivity. simpl.
      rewrite !bool_decide_eq_false_2; [done | congruence | congruence]. }
    rewrite Hin. cbn [cancel_step].
    fold (job_record s job_id). fold (job_status s job_id). by rewrite Hv.
Qed.

Lemma cancel_job_rejects_witness :
  cancel_job (quiet 11) "job-2" (one_job "completed") =
    (K_return NotFound, one_job "completed") ∧
  cancel_job (quiet 11) "job-1" (one_job "completed") =
    (K_return (InvalidState (Some (VStr "completed"))), one_job "completed").
Proof.
  destruct (cancel_job_rejects (quiet 11) "job-2" (one_job "completed")) as [H1 _].
  destruct (cancel_job_rejects (quiet 11) "job-1" (one_job "completed")) as [_ H2].
  split.
  - apply H1. reflexivity.
  - apply (H2 (VStr "completed")); [reflexivity | discriminate | discriminate].
Defined.

(** ** The runner after the encoder has returned *)

(** C2: when the record reads [cancelled] after the encoder has returned
    (line 182), the runner deletes the output file if there is one, swallows
    a failing deletion, and finishes.  The records, the registry and the
    process registry are exactly as before, so no status is written and the
    job still reads [cancelled]; of the files only the output artifact can
    be gone, and it is gone unless its deletion raised. *)
Theorem runner_honours_cancelled e1 e2 e3 e4 job_id a o rc err s :
  job_status s job_id = Some (VStr "cancelled") →
  ∃ s',
    runner_steps [e1; e2; e3; e4] job_id a (R_get_status o rc err) s
    = (R_done, s') ∧
    s' = after_cleanup (remove_raises e4) a s ∧
    heap s' = heap s ∧ next_loc s' = next_loc s ∧
    active_jobs s' = active_jobs s ∧
    active_processes s' = active_processes s ∧
    job_status s' job_id = Some (VStr "cancelled") ∧
    files s' !! output_path a
    = (if remove_raises e4 then files s !! output_path a else None) ∧
    ∀ path, path ≠ output_path a → files s' !! path = files s !! path.
Proof.
  intros Hc. exists (after_cleanup (remove_raises e4) a s).
  split.
  { cbn [runner_steps runner_step].
    fold (job_record s job_id). fold (job_status s job_id). rewrite Hc.
    cbn [str_eqb]. rewrite bool_decide_eq_true_2 by done.
    unfold after_cleanup. cbn [runner_step].
    destruct (files s !! output_path a); cbn [runner_step]; [|done].
    by destruct (remove_raises e4). }
  split; [done |]. unfold after_cleanup.
  destruct (files s !! output_path a) as [n|] eqn:Hf.
  - destruct (remove_raises e4).
    + by repeat split.
    + repeat split; try done.
      * cbn. apply lookup_delete_eq.
      * intros path Hp. cbn. by apply lookup_delete_ne.
  - repeat split; try done. by destruct (remove_raises e4).
Qed.

Lemma after_cleanup_registry r a s :
  heap (after_cleanup r a s) = heap s ∧
  active_jobs (after_cleanup r a s) = active_jobs s ∧
  active_processes (after_cleanup r a s) = active_processes s ∧
  (r = false → files (after_cleanup r a s) !! output_path a = None).
Proof.
  unfold after_cleanup.
  destruct (files s !! output_path a) eqn:Hf; [destruct r |]; simpl;
    repeat split; try done; intros _; by rewrite ?lookup_delete_eq.
Qed.

Lemma runner_honours_cancelled_witness :
  ∃ s',
    runner_steps [quiet 20; quiet 20; quiet 20; quiet 20] "job-1" job1
      (R_get_status 5 (-15) "") cancelled_with_output
    = (R_done, s') ∧
    s' = after_cleanup false job1 cancelled_with_output ∧
    heap s' = heap cancelled_with_output ∧
    next_loc s' = next_loc cancelled_with_output ∧
    active_jobs s' = active_jobs cancelled_with_output ∧
    active_processes s' = active_processes cancelled_with_output ∧
    job_status s' "job-1" = Some (VStr "cancelled") ∧
    files s' !! output_path job1
    = (if false then files cancelled_with_output !! output_path job1
       else None) ∧
    ∀ path, path ≠ output_path job1 →
            files s' !! path = files cancelled_with_output !! path.
Proof.
  apply (runner_honours_cancelled (quiet 20) (quiet 20) (quiet 20) (quiet 20)
           "job-1" job1 5 (-15) "" cancelled_with_output).
  reflexivity.
Defined.

(** ** Compression statistics *)

Section Statistics.
#[local] Open Scope Q_scope.

Lemma size_mb_pos n : (n ≠ 0)%N → 0 < size_mb_of_bytes n.
Proof.
  intros Hn. unfold size_mb_of_bytes, Qlt, Qdiv, Qmult, Qinv; simpl. lia.
Qed.

Lemma size_mb_lt n m : (n < m)%N → size_mb_of_bytes n < size_mb_of_bytes m.
Proof.
  intros Hn. unfold size_mb_of_bytes, Qlt, Qdiv, Qmult, Qinv; simpl. lia.
Qed.

Lemma truediv_pos a b : 0 < b → truediv a b = Some (a / b).
Proof.
  intros Hb. unfold truediv.
  destruct (Qeq_bool b 0) eqn:Heq; [|done].
  apply Qeq_bool_iff in Heq. rewrite Heq in Hb. by apply Qlt_irrefl in Hb.
Qed.

Lemma compression_ratio_pos o c :
  0 < c → compression_ratio o c = Some (VFloat (o / c)).
Proof.
  intros Hc. unfold compression_ratio.
  rewrite (proj2 (Qltb_lt 0 c) Hc). by rewrite truediv_pos.
Qed.

Lemma compression_percent_pos o c :
  0 < o → compression_percent o c = Some (VFloat ((o - c) / o * 100)).
Proof.
  intros Ho. unfold compression_percent.
  rewrite (proj2 (Qltb_lt 0 o) Ho). by rewrite truediv_pos.
Qed.

(** The statistics on sizes as [os.path.getsize] yields them: neither
    expression raises, whatever the two byte counts. *)
Lemma compression_ratio_bytes n m :
  compression_ratio (size_mb_of_bytes n) (size_mb_of_bytes m)
  = Some (if decide (m = 0%N) then VInt 0
          else VFloat (size_mb_of_bytes n / size_mb_of_bytes m)).
Proof.
  case_decide as Hm.
  - subst m. reflexivity.
  - by apply compression_ratio_pos, size_mb_pos.
Qed.

Lemma compression_percent_bytes n m :
  compression_percent (size_mb_of_bytes n) (size_mb_of_bytes m)
  = Some (if decide (n = 0%N) then VInt 0
          else VFloat ((size_mb_of_bytes n - size_mb_of_bytes m)
                       / size_mb_of_bytes n * 100)).
Proof.
  case_decide as Hn.
  - subst n. reflexivity.
  - by apply compression_percent_pos, size_mb_pos.
Qed.
End Statistics.

(** The original size a runner works with is the byte count of the input
    file at the time of the probe, in MB. *)
Lemma probe_input_size e job_id a s i s' :
  runner_step e job_id a R_probe_input s = (R_update_info i, s') →
  ∃ n, files s !! input_path a = Some n ∧ size_mb i = size_mb_of_bytes n ∧
       ∀ e', (runner_step e' job_id a (R_update_info i) s').1
             = R_popen (size_mb_of_bytes n).
Proof.
  cbn [runner_step]. unfold get_video_info.
  destruct (ffmpeg_probe e) as [[r c]|]; [|discriminate].
  destruct (files s !! input_path a) as [n|]; [|discriminate].
  intros [= <- <-]. exists n. by repeat split.
Qed.

Lemma completed_run e1 e2 job_id a o n r c s x p :
  ffmpeg_probe e1 = Returns (r, c) →
  files s !! output_path a = Some n →
  compression_ratio o (size_mb_of_bytes n) = Some x →
  compression_percent o (size_mb_of_bytes n) = Some p →
  runner_steps [e1; e2] job_id a (R_probe_output o) s
  = (R_done,
     update_job_status (now e2) job_id "completed"
       (completed_fields a o (size_mb_of_bytes n) x p) s).
Proof.
  intros He Hf Hx Hp. cbn [runner_steps runner_step]. unfold get_video_info.
  rewrite He, Hf. cbn [size_mb]. by rewrite Hx, Hp.
Qed.

(** C7: a job that completes records
    compression_ratio = original_size / compressed_size, or 0 when the
    compressed size is 0, and
    compression_percent = (original_size - compressed_size) / original_size
    * 100, or 0 when the original size is 0; the two steps from the probe of
    the output (line 197) end in [completed] and never in the handler, so no
    division by zero is raised. *)
Theorem completed_job_statistics e1 e2 job_id a n m r c s :
  ffmpeg_probe e1 = Returns (r, c) →
  files s !! output_path a = Some m →
  let o := size_mb_of_bytes n in
  let k := size_mb_of_bytes m in
  ∃ s', runner_steps [e1; e2] job_id a (R_probe_output o) s = (R_done, s') ∧
        job_status s' job_id = Some (VStr "completed") ∧
        job_record s' job_id !! "compression_ratio"
        = Some (if decide (m = 0%N) then VInt 0 else VFloat (o / k)%Q) ∧
        job_record s' job_id !! "compression_percent"
        = Some (if decide (n = 0%N) then VInt 0
                else VFloat ((o - k) / o * 100)%Q).
Proof.
  intros He Hf o k. eexists. split.
  - eapply completed_run; eauto using compression_ratio_bytes,
      compression_percent_bytes.
  - split; [by apply update_job_status_status |].
    split; by apply update_job_status_field.
Qed.

Lemma completed_job_statistics_witness :
  let o := size_mb_of_bytes 104857600 in
  let k := size_mb_of_bytes 10485760 in
  ∃ s', runner_steps [quiet 30; quiet 31] "job-1" job1 (R_probe_output o)
          (encoded 104857600 10485760) = (R_done, s') ∧
        job_status s' "job-1" = Some (VStr "completed") ∧
        job_record s' "job-1" !! "compression_ratio"
        = Some (if decide (10485760%N = 0%N) then VInt 0 else VFloat (o / k)%Q) ∧
        job_record s' "job-1" !! "compression_percent"
        = Some (if decide (104857600%N = 0%N) then VInt 0
                else VFloat ((o - k) / o * 100)%Q).
Proof.
  apply (completed_job_statistics (quiet 30) (quiet 31) "job-1" job1
           104857600 10485760 None None (encoded 104857600 10485760));
    reflexivity.
Defined.

(** ** Rounding to binary64 *)

Section Binary64.
#[local] Open Scope Q_scope.

Lemma pow2_pos k : 0 < pow2 k.
Proof. by apply Qpower_0_lt. Qed.

Lemma pow2_plus j k : pow2 (j + k) == pow2 j * pow2 k.
Proof. by apply Qpower_plus. Qed.

Lemma pow2_inject k : (0 <= k)%Z → pow2 k == inject_Z (2 ^ k).
Proof. intros Hk. unfold pow2. by rewrite Zpower_Qpower. Qed.

Lemma pow2_le j k : (j <= k)%Z → pow2 j <= pow2 k.
Proof. intros Hjk. by apply Qpower_le_compat_l. Qed.

Lemma pow2_lt_inv j k : pow2 j < pow2 k → (j < k)%Z.
Proof. intros Hjk. by apply (Qpower_lt_compat_l_inv 2). Qed.

Lemma div_le_make (A B a : Z) (b : positive) :
  (0 < B)%Z → (A * Z.pos b <= a * B)%Z → inject_Z A / inject_Z B <= a # b.
Proof.
  intros HB H. apply Qle_shift_div_r.
  - unfold Qlt, inject_Z. cbn [Qnum Qden]. lia.
  - unfold Qle, Qmult, inject_Z. cbn [Qnum Qden]. lia.
Qed.

Lemma make_lt_div (A B a : Z) (b : positive) :
  (0 < B)%Z → (a * B < A * Z.pos b)%Z → a # b < inject_Z A / inject_Z B.
Proof.
  intros HB H. apply Qlt_shift_div_l.
  - unfold Qlt, inject_Z. cbn [Qnum Qden]. lia.
  - unfold Qlt, Qmult, inject_Z. cbn [Qnum Qden]. lia.
Qed.

Lemma ilog2_spec q : 0 < q → pow2 (ilog2 q) <= q ∧ q < pow2 (ilog2 q + 1).
Proof.
  destruct q as [a b]. intros Hq.
  assert (Ha : (0 < a)%Z) by (unfold Qlt in Hq; cbn in Hq; lia).
  unfold ilog2. cbn [Qnum Qden].
  set (la := Z.log2 a). set (lb := Z.log2 (Z.pos b)).
  assert (Hla : (0 <= la)%Z) by apply Z.log2_nonneg.
  assert (Hlb : (0 <= lb)%Z) by apply Z.log2_nonneg.
  destruct (Z.log2_spec a Ha) as [Ha1 Ha2]. fold la in Ha1, Ha2.
  destruct (Z.log2_spec (Z.pos b) eq_refl) as [Hb1 Hb2]. fold lb in Hb1, Hb2.
  rewrite <- Z.add_1_r in Ha2, Hb2.
  assert (HA : (0 < 2 ^ la)%Z) by lia.
  assert (HB : (0 < 2 ^ lb)%Z) by lia.
  assert (Hlow : pow2 (la - lb - 1) <= a # b).
  { replace (la - lb - 1)%Z with (la - (lb + 1))%Z by lia.
    unfold pow2. rewrite Qpower_minus by done.
    fold (pow2 la). fold (pow2 (lb + 1)). rewrite !pow2_inject by lia.
    apply div_le_make; nia. }
  assert (Hup : a # b < pow2 (la - lb + 1)).
  { replace (la - lb + 1)%Z with (la + 1 - lb)%Z by lia.
    unfold pow2. rewrite Qpower_minus by done.
    fold (pow2 (la + 1)). fold (pow2 lb). rewrite !pow2_inject by lia.
    apply make_lt_div; nia. }
  destruct (Qle_bool (pow2 (la - lb)) (a # b)) eqn:Hle.
  - apply Qle_bool_iff in Hle. by split.
  - split; [done |]. replace (la - lb - 1 + 1)%Z with (la - lb)%Z by lia.
    apply Qnot_le_lt. intros H. apply Qle_bool_iff in H. congruence.
Qed.

Lemma ilog2_lt q k : 0 < q → q < pow2 k → (ilog2 q < k)%Z.
Proof.
  intros Hq Hk. apply pow2_lt_inv.
  eapply Qle_lt_trans; [apply (ilog2_spec q Hq) | done].
Qed.

Lemma ilog2_ge q k : 0 < q → pow2 k <= q → (k <= ilog2 q)%Z.
Proof.
  intros Hq Hk. apply Z.lt_succ_r, pow2_lt_inv. rewrite <- Z.add_1_r.
  eapply Qle_lt_trans; [done | apply (ilog2_spec q Hq)].
Qed.

Lemma round_half_even_le q k : q <= inject_Z k → (round_half_even q <= k)%Z.
Proof.
  intros Hq. unfold round_half_even.
  pose proof (Qfloor_resp_le _ _ Hq) as Hf. rewrite Qfloor_Z in Hf.
  destruct (Z.eq_dec (Qfloor q) k) as [Heq | Hne].
  - assert (Hz : q - inject_Z (Qfloor q) <= 0) by (rewrite Heq; lra).
    destruct (Qcompare_spec (q - inject_Z (Qfloor q)) (1 # 2)); [lra | lia | lra].
  - destruct (q - inject_Z (Qfloor q) ?= 1 # 2); [destruct (Z.even _) | |]; lia.
Qed.

Lemma round_half_even_ge q k : inject_Z k <= q → (k <= round_half_even q)%Z.
Proof.
  intros Hq. unfold round_half_even.
  pose proof (Qfloor_resp_le _ _ Hq) as Hf. rewrite Qfloor_Z in Hf.
  destruct (q - inject_Z (Qfloor q) ?= 1 # 2); [destruct (Z.even _) | |]; lia.
Qed.

Lemma Qabs_pos_neq q : ¬ q == 0 → 0 < Qabs q.
Proof.
  intros Hq. destruct (Qlt_le_dec 0 (Qabs q)) as [|H]; [done |].
  exfalso. apply Hq. apply Qabs_Qle_condition in H. lra.
Qed.

Lemma ulp_exponent_le q j :
  ¬ q == 0 → (-1074 <= j)%Z → Qabs q < pow2 (j + 53) → (ulp_exponent q <= j)%Z.
Proof.
  intros Hq Hj Hlt. pose proof (ilog2_lt _ _ (Qabs_pos_neq q Hq) Hlt).
  unfold ulp_exponent. lia.
Qed.

(** A multiple of [2 ^ j] is a multiple of every smaller power of two. *)
Lemma grid_refine K j ex :
  (ex <= j)%Z → inject_Z K * pow2 j == inject_Z (K * 2 ^ (j - ex)) * pow2 ex.
Proof.
  intros Hex. rewrite inject_Z_mult, <- pow2_inject by lia.
  replace j with (j - ex + ex)%Z at 1 by lia. rewrite pow2_plus. ring.
Qed.

(** Rounding is monotone against the doubles: a multiple [K * 2 ^ j] of a
    power of two that is coarse enough for [q] bounds the rounded [q] as it
    bounds [q]. *)
Lemma round53_le q K j :
  (-1074 <= j)%Z → Qabs q < pow2 (j + 53) →
  q <= inject_Z K * pow2 j → round53 q <= inject_Z K * pow2 j.
Proof.
  intros Hj Hlt Hle. unfold round53.
  destruct (Qeq_bool q 0) eqn:Hz.
  { apply Qeq_bool_iff in Hz. by rewrite <- Hz. }
  apply Qeq_bool_neq in Hz.
  pose proof (ulp_exponent_le q j Hz Hj Hlt) as Hex.
  set (ex := ulp_exponent q) in *. pose proof (pow2_pos ex) as Hp.
  rewrite (grid_refine K j ex Hex) in Hle |- *.
  apply Qmult_le_compat_r; [| lra].
  rewrite <- Zle_Qle. apply round_half_even_le.
  by apply Qle_shift_div_r.
Qed.

Lemma round53_ge q K j :
  (-1074 <= j)%Z → Qabs q < pow2 (j + 53) →
  inject_Z K * pow2 j <= q → inject_Z K * pow2 j <= round53 q.
Proof.
  intros Hj Hlt Hle. unfold round53.
  destruct (Qeq_bool q 0) eqn:Hz.
  { apply Qeq_bool_iff in Hz. by rewrite <- Hz. }
  apply Qeq_bool_neq in Hz.
  pose proof (ulp_exponent_le q j Hz Hj Hlt) as Hex.
  set (ex := ulp_exponent q) in *. pose proof (pow2_pos ex) as Hp.
  rewrite (grid_refine K j ex Hex) in Hle |- *.
  apply Qmult_le_compat_r; [| lra].
  rewrite <- Zle_Qle. apply round_half_even_ge.
  by apply Qle_shift_div_l.
Qed.


(** A double is rounded to itself. *)
Lemma round53_exact q z j :
  (-1074 <= j)%Z → (Z.abs z < 2 ^ 53)%Z → q == inject_Z z * pow2 j →
  round53 q == q.
Proof.
  intros Hj Hz Hq. pose proof (pow2_pos j) as Hp.
  assert (Hlt : Qabs q < pow2 (j + 53)).
  { rewrite Hq, Z.add_comm, pow2_plus, (pow2_inject 53) by lia.
    apply Qabs_Qlt_condition.
    assert (- inject_Z (2 ^ 53) < inject_Z z)
      by (rewrite <- inject_Z_opp, <- Zlt_Qlt; lia).
    assert (inject_Z z < inject_Z (2 ^ 53)) by (rewrite <- Zlt_Qlt; lia).
    split; nra. }
  apply Qle_antisym.
  - rewrite Hq at 2. apply round53_le; [done | done |].
    rewrite Hq. apply Qle_refl.
  - rewrite Hq at 1. apply round53_ge; [done | done |].
    rewrite Hq. apply Qle_refl.
Qed.

(** The power of two below a magnitude, on the grid of its doubles. *)
Lemma coarse_grid q k :
  (-1074 <= k)%Z → pow2 k <= Qabs q →
  ∃ K j, (-1074 <= j)%Z ∧ Qabs q < pow2 (j + 53) ∧
         pow2 k <= inject_Z K * pow2 j ∧ inject_Z K * pow2 j <= Qabs q.
Proof.
  intros Hk Hq. pose proof (pow2_pos k) as Hp.
  assert (Hpos : 0 < Qabs q) by lra.
  destruct (ilog2_spec _ Hpos) as [He1 He2].
  pose proof (ilog2_ge _ _ Hpos Hq) as Hke.
  set (e := ilog2 (Qabs q)) in *.
  exists (2 ^ (e - Z.max (e - 52) (-1074)))%Z, (Z.max (e - 52) (-1074)).
  assert (Hg : inject_Z (2 ^ (e - Z.max (e - 52) (-1074)))
               * pow2 (Z.max (e - 52) (-1074)) == pow2 e).
  { rewrite <- pow2_inject, <- pow2_plus by lia. f_equiv. lia. }
  split; [lia |]. split; [| split].
  - eapply Qlt_le_trans; [exact He2 |]. apply pow2_le. lia.
  - rewrite Hg. by apply pow2_le.
  - by rewrite Hg.
Qed.

Lemma round53_ge_pow2 q k :
  (-1074 <= k)%Z → pow2 k <= q → pow2 k <= round53 q.
Proof.
  intros Hk Hq. pose proof (pow2_pos k) as Hp.
  assert (Ha : Qabs q == q) by (apply Qabs_pos; lra).
  destruct (coarse_grid q k Hk) as (K & j & Hj & Hlt & H1 & H2).
  { by rewrite Ha. }
  eapply Qle_trans; [exact H1 |]. apply round53_ge; [done | done |].
  by rewrite <- Ha.
Qed.

Lemma round53_le_neg_pow2 q k :
  (-1074 <= k)%Z → q <= - pow2 k → round53 q <= - pow2 k.
Proof.
  intros Hk Hq. pose proof (pow2_pos k) as Hp.
  assert (Ha : Qabs q == - q) by (apply Qabs_neg; lra).
  destruct (coarse_grid q k Hk) as (K & j & Hj & Hlt & H1 & H2).
  { rewrite Ha. lra. }
  apply Qle_trans with (inject_Z (- K) * pow2 j).
  - apply round53_le; [done | done |]. rewrite inject_Z_opp.
    rewrite Ha in H2. lra.
  - rewrite inject_Z_opp. lra.
Qed.

Lemma round53_abs_le q k :
  (-1074 <= k)%Z → Qabs q <= pow2 k → Qabs (round53 q) <= pow2 k.
Proof.
  intros Hk Hq. pose proof (pow2_pos k) as Hp.
  assert (Hlt : Qabs q < pow2 (k + 53)).
  { eapply Qle_lt_trans; [exact Hq |]. apply Qpower_lt_compat_l; [lia | done]. }
  apply Qabs_Qle_condition in Hq as [Hq1 Hq2].
  apply Qabs_Qle_condition. split.
  - apply Qle_trans with (inject_Z (-1) * pow2 k).
    + change (inject_Z (-1)) with (-1 # 1). lra.
    + apply round53_ge; [done | done |].
      change (inject_Z (-1)) with (-1 # 1). lra.
  - apply Qle_trans with (inject_Z 1 * pow2 k).
    + apply round53_le; [done | done |]. change (inject_Z 1) with 1. lra.
    + change (inject_Z 1) with 1. lra.
Qed.

(** Below [2 ^ 1024] the rounded result is a finite double. *)
Lemma b64_Some q k :
  (-1074 <= k < 1024)%Z → Qabs q <= pow2 k → b64 q = Some (round53 q).
Proof.
  intros Hk Hq. unfold b64.
  destruct (Qle_bool (pow2 1024) (Qabs (round53 q))) eqn:Hle; [| done].
  apply Qle_bool_iff in Hle.
  pose proof (round53_abs_le q k (proj1 Hk) Hq) as Hr.
  assert (pow2 k < pow2 1024) by (apply Qpower_lt_compat_l; [lia | done]).
  lra.
Qed.


(** Below [2 ^ 53] bytes the size in MB is a double: line 52 rounds
    nothing away. *)
Lemma size_mb_scaled n :
  size_mb_of_bytes n == inject_Z (Z.of_N n) * (1 # 1048576).
Proof. reflexivity. Qed.

Lemma size_mb_b64_exact n :
  (n < 2 ^ 53)%N →
  size_mb_b64 n = Some (round53 (size_mb_of_bytes n)) ∧
  round53 (size_mb_of_bytes n) == size_mb_of_bytes n.
Proof.
  intros Hn. unfold size_mb_b64. fold (size_mb_of_bytes n).
  assert (Hz : (0 <= Z.of_N n < 2 ^ 53)%Z) by lia.
  assert (Hq : size_mb_of_bytes n == inject_Z (Z.of_N n) * pow2 (-20))
    by apply size_mb_scaled.
  split.
  - apply (b64_Some _ 33); [lia |].
    assert (0 <= inject_Z (Z.of_N n)) by (rewrite <- (Zle_Qle 0); lia).
    assert (inject_Z (Z.of_N n) <= inject_Z (2 ^ 53))
      by (rewrite <- Zle_Qle; lia).
    change (inject_Z (2 ^ 53)) with 9007199254740992 in *.
    rewrite Hq. change (pow2 (-20)) with (1 # 1048576).
    change (pow2 33) with 8589934592.
    apply Qabs_Qle_condition. split; lra.
  - apply (round53_exact _ (Z.of_N n) (-20)); [lia | lia | done].
Qed.

Section Sizes.
Variables (N M : Z) (o c : Q).
Hypothesis Ho : o == inject_Z N * (1 # 1048576).
Hypothesis Hc : c == inject_Z M * (1 # 1048576).
Hypothesis HN : (0 < N)%Z.
Hypothesis HNM : (N < M)%Z.
Hypothesis HM : (M < 2 ^ 53)%Z.

Lemma sizes_as_rationals :
  1 <= inject_Z N ∧ inject_Z N + 1 <= inject_Z M ∧
  inject_Z M <= 9007199254740992.
Proof.
  change 1 with (inject_Z 1). rewrite <- inject_Z_plus.
  change 9007199254740992 with (inject_Z (2 ^ 53)).
  rewrite <- !Zle_Qle. lia.
Qed.

(** Line 199 in binary64 on a larger output: the quotient is at most
    [1 - 2 ^ -53], which is a double, so it is not rounded up to 1. *)
Lemma compression_ratio_b64_larger :
  ∃ x, compression_ratio_b64 o c = Some (VFloat x) ∧ 0 < x ∧ x < 1.
Proof.
  destruct sizes_as_rationals as (H1 & H2 & H3).
  set (a := inject_Z N) in *. set (b := inject_Z M) in *.
  assert (Hcpos : 0 < c) by (rewrite Hc; lra).
  assert (Hlow : pow2 (-53) <= o / c).
  { apply Qle_shift_div_l; [done |]. rewrite Ho, Hc.
    change (pow2 (-53)) with (1 # 9007199254740992). lra. }
  assert (Hup : o / c <= inject_Z (2 ^ 53 - 1) * pow2 (-53)).
  { apply Qle_shift_div_r; [done |]. rewrite Ho, Hc.
    change (inject_Z (2 ^ 53 - 1) * pow2 (-53))
      with (9007199254740991 * (1 # 9007199254740992)). lra. }
  assert (Hcst : inject_Z (2 ^ 53 - 1) * pow2 (-53) < 1) by reflexivity.
  pose proof (pow2_pos (-53)) as Hp.
  exists (round53 (o / c)). split; [| split].
  - unfold compression_ratio_b64, truediv_b64.
    rewrite (proj2 (Qltb_lt 0 c) Hcpos).
    destruct (Qeq_bool c 0) eqn:Hz.
    { apply Qeq_bool_iff in Hz. lra. }
    rewrite (b64_Some _ 0); [done | lia |].
    change (pow2 0) with 1. apply Qabs_Qle_condition. split; lra.
  - assert (pow2 (-53) <= round53 (o / c))
      by (apply round53_ge_pow2; [lia | done]).
    lra.
  - eapply Qle_lt_trans; [| exact Hcst].
    apply round53_le; [lia | | done].
    change (pow2 (-53 + 53)) with 1. apply Qabs_Qlt_condition. split; lra.
Qed.

(** Line 200 in binary64 on a larger output: the difference of the two
    sizes is a double, so it is negative, and neither the quotient nor the
    product underflows to zero. *)
Lemma compression_percent_b64_larger :
  ∃ p, compression_percent_b64 o c = Some (VFloat p) ∧ p < 0.
Proof.
  destruct sizes_as_rationals as (H1 & H2 & H3).
  assert (Hd : o - c == inject_Z (N - M) * pow2 (-20)).
  { rewrite Ho, Hc. unfold Z.sub. rewrite inject_Z_plus, inject_Z_opp.
    change (pow2 (-20)) with (1 # 1048576). ring. }
  assert (Hex : round53 (o - c) == o - c).
  { apply (round53_exact _ (N - M) (-20)); [lia | lia | done]. }
  set (a := inject_Z N) in *. set (b := inject_Z M) in *.
  assert (Hopos : 0 < o) by (rewrite Ho; lra).
  set (d := round53 (o - c)) in *.
  assert (Hd' : d == (a - b) * (1 # 1048576)) by (rewrite Hex, Ho, Hc; ring).
  assert (Hq1 : d / o <= - pow2 (-53)).
  { apply Qle_shift_div_r; [done |]. rewrite Hd', Ho.
    change (pow2 (-53)) with (1 # 9007199254740992). lra. }
  assert (Hq2 : - pow2 53 <= d / o).
  { apply Qle_shift_div_l; [done |]. rewrite Hd', Ho.
    change (pow2 53) with 9007199254740992. lra. }
  pose proof (pow2_pos (-53)) as Hp.
  assert (Hqa : Qabs (d / o) <= pow2 53).
  { apply Qabs_Qle_condition. change (pow2 53) with 9007199254740992 in *.
    split; lra. }
  pose proof (round53_le_neg_pow2 (d / o) (-53)) as Ht1.
  pose proof (round53_abs_le (d / o) 53) as Ht2.
  set (t := round53 (d / o)) in *.
  assert (Ht3 : - pow2 53 <= t ∧ t <= pow2 53)
    by (apply Qabs_Qle_condition, Ht2; [lia | done]).
  assert (Ht4 : t <= - pow2 (-53)) by (apply Ht1; [lia | done]).
  exists (round53 (t * 100)). split.
  - unfold compression_percent_b64, truediv_b64.
    rewrite (proj2 (Qltb_lt 0 o) Hopos).
    rewrite (b64_Some (o - c) 33); [| lia |].
    2:{ rewrite Hd. change (pow2 (-20)) with (1 # 1048576).
        change (pow2 33) with 8589934592.
        assert (- inject_Z (2 ^ 53) <= inject_Z (N - M))
          by (rewrite <- inject_Z_opp, <- Zle_Qle; lia).
        assert (inject_Z (N - M) <= inject_Z (2 ^ 53))
          by (rewrite <- Zle_Qle; lia).
        change (inject_Z (2 ^ 53)) with 9007199254740992 in *.
        apply Qabs_Qle_condition. split; lra. }
    cbn [mbind option_bind]. fold d.
    destruct (Qeq_bool o 0) eqn:Hz.
    { apply Qeq_bool_iff in Hz. lra. }
    rewrite (b64_Some (d / o) 53); [| lia | done].
    cbn [mbind option_bind]. fold t.
    rewrite (b64_Some (t * 100) 60); [done | lia |].
    change (pow2 53) with 9007199254740992 in *.
    change (pow2 60) with 1152921504606846976.
    apply Qabs_Qle_condition. split; lra.
  - pose proof (round53_le_neg_pow2 (t * 100) (-53)) as H.
    assert (t * 100 <= - pow2 (-53)) by lra.
    assert (round53 (t * 100) <= - pow2 (-53)) by (apply H; [lia | done]).
    lra.
Qed.

End Sizes.

(** With an empty input the ratio is the double 0.0 and the guard of line
    200 yields the int 0. *)
Lemma statistics_b64_empty m :
  (0 < m)%N → (m < 2 ^ 53)%N →
  ∃ x p, statistics_b64 0 m = Some (x, p) ∧ x == 0 ∧ p == 0.
Proof.
  intros Hm1 Hm2. destruct (size_mb_b64_exact m Hm2) as [Hc Hcex].
  set (c := round53 (size_mb_of_bytes m)) in *.
  assert (Hcpos : 0 < c).
  { rewrite Hcex. apply size_mb_pos. lia. }
  exists 0, (inject_Z 0). split; [| by split].
  unfold statistics_b64. change (size_mb_b64 0) with (Some 0).
  rewrite Hc. cbn [mbind option_bind].
  unfold compression_ratio_b64, truediv_b64.
  rewrite (proj2 (Qltb_lt 0 c) Hcpos).
  destruct (Qeq_bool c 0) eqn:Hz.
  { apply Qeq_bool_iff in Hz. lra. }
  assert (Hq : Qeq_bool (0 / c) 0 = true).
  { apply Qeq_bool_iff. unfold Qdiv. ring. }
  unfold b64, round53. rewrite Hq. reflexivity.
Qed.

(** With a non-empty input and a larger output, both below [2 ^ 53] bytes,
    the doubles of lines 199-200 have the signs of the exact quotients. *)
Lemma statistics_b64_larger n m :
  (0 < n)%N → (n < m)%N → (m < 2 ^ 53)%N →
  ∃ x p, statistics_b64 n m = Some (x, p) ∧ 0 < x ∧ x < 1 ∧ p < 0.
Proof.
  intros Hn Hnm Hm.
  destruct (size_mb_b64_exact n) as [Ho Hoex]; [lia |].
  destruct (size_mb_b64_exact m Hm) as [Hc Hcex].
  set (o := round53 (size_mb_of_bytes n)) in *.
  set (c := round53 (size_mb_of_bytes m)) in *.
  rewrite size_mb_scaled in Hoex, Hcex.
  destruct (compression_ratio_b64_larger (Z.of_N n) (Z.of_N m) o c)
    as (x & Hx & Hx0 & Hx1); [done | done | lia | lia | lia |].
  destruct (compression_percent_b64_larger (Z.of_N n) (Z.of_N m) o c)
    as (p & Hp & Hp0); [done | done | lia | lia | lia |].
  exists x, p. split; [| done].
  unfold statistics_b64. rewrite Ho, Hc. cbn [mbind option_bind].
  rewrite Hx, Hp. reflexivity.
Qed.

End Binary64.

(** C10, as the spec words it, at an empty input file and a one-byte output:
    the job completes and the output is larger than the input, but the
    recorded percent reduction is 0, which is not strictly negative. *)
Lemma percent_not_negative_for_empty_input :
  empty_input_run.1 = R_done ∧
  job_status empty_input_run.2 "job-1" = Some (VStr "completed") ∧
  (size_mb_of_bytes 0 < size_mb_of_bytes 1)%Q ∧
  job_record empty_input_run.2 "job-1" !! "compression_percent"
  = Some (VInt 0) ∧
  ¬ (∃ q, recorded empty_input_run.2 "job-1" "compression_percent" = Some q ∧
          (q < 0)%Q).
Proof.
  split; [by vm_compute |]. split; [by vm_compute |].
  split; [reflexivity |]. split; [by vm_compute |].
  assert (Hz : recorded empty_input_run.2 "job-1" "compression_percent"
               = Some (inject_Z 0)) by by vm_compute.
  intros (q & Hq & Hneg). rewrite Hz in Hq. injection Hq as <-.
  by apply Qlt_irrefl in Hneg.
Qed.

(** At [2 ^ 53] bytes a single byte more is lost in the conversion to MB:
    the two sizes are the same double, and lines 199-200 yield 1.0 and
    0.0. *)
Lemma rounding_absorbs_one_byte :
  ∃ x p, statistics_b64 9007199254740992 9007199254740993 = Some (x, p) ∧
         (x == 1)%Q ∧ (p == 0)%Q.
Proof. eexists _, _. split; [vm_compute; reflexivity | by split]. Qed.

(** C10 (amended): when the encoder succeeds and the output is larger than
    the input, both below 2^53 bytes, the job completes.  For a non-empty
    input the recorded compression ratio is strictly between 0 and 1 and the
    recorded percent reduction is strictly negative, not clamped at 0; this
    holds of the exact quotients the runner of this model records and of the
    doubles that lines 197-200 compute.  For an empty input the ratio and the
    percent are both 0. *)
Theorem larger_output_statistics e1 e2 job_id a n m r c s :
  ffmpeg_probe e1 = Returns (r, c) →
  files s !! output_path a = Some m →
  (n < m)%N → (m < 2 ^ 53)%N →
  ∃ s' x p x64 p64,
    runner_steps [e1; e2] job_id a (R_probe_output (size_mb_of_bytes n)) s
    = (R_done, s') ∧
    job_status s' job_id = Some (VStr "completed") ∧
    recorded s' job_id "compression_ratio" = Some x ∧
    recorded s' job_id "compression_percent" = Some p ∧
    statistics_b64 n m = Some (x64, p64) ∧
    if decide (n = 0%N)
    then (x == 0 ∧ p == 0 ∧ x64 == 0 ∧ p64 == 0)%Q
    else (0 < x ∧ x < 1 ∧ p < 0 ∧ 0 < x64 ∧ x64 < 1 ∧ p64 < 0)%Q.
Proof.
  intros He Hf Hnm Hm.
  set (o := size_mb_of_bytes n). set (k := size_mb_of_bytes m).
  assert (Hk : (0 < k)%Q) by (apply size_mb_pos; lia).
  pose proof (compression_ratio_pos o k Hk) as Hx.
  pose proof (compression_percent_bytes n m) as Hp. fold o k in Hp.
  pose proof (completed_run e1 e2 job_id a o m r c s _ _ He Hf Hx Hp) as Hrun.
  fold k in Hrun.
  set (pv := if decide (n = 0%N) then VInt 0
             else VFloat ((o - k) / o * 100)) in *.
  set (s' := update_job_status (now e2) job_id "completed"
               (completed_fields a o k (VFloat (o / k)) pv) s) in *.
  assert (Hrx : recorded s' job_id "compression_ratio" = Some (o / k)%Q).
  { unfold recorded, s'.
    by rewrite (update_job_status_field _ _ _ _ _ "compression_ratio"
                  (VFloat (o / k))). }
  assert (Hrp : recorded s' job_id "compression_percent" = num_val pv).
  { unfold recorded, s'.
    by rewrite (update_job_status_field _ _ _ _ _ "compression_percent" pv). }
  assert (Hst : job_status s' job_id = Some (VStr "completed"))
    by by apply update_job_status_status.
  destruct (decide (n = 0%N)) as [Hn | Hn].
  - subst n. destruct (statistics_b64_empty m) as (x64 & p64 & H64 & Hx0 & Hp0);
      [lia | done |].
    exists s', (o / k)%Q, (inject_Z 0), x64, p64.
    repeat (split; [done |]). by repeat split.
  - destruct (statistics_b64_larger n m) as (x64 & p64 & H64 & Hx0 & Hx1 & Hp0);
      [lia | done | done |].
    assert (Ho : (0 < o)%Q) by (apply size_mb_pos; lia).
    assert (Hok : (o < k)%Q) by by apply size_mb_lt.
    exists s', (o / k)%Q, ((o - k) / o * 100)%Q, x64, p64.
    repeat (split; [done |]). repeat split; try done.
    + apply Qlt_shift_div_l; [done | lra].
    + apply Qlt_shift_div_r; [done | lra].
    + assert ((o - k) / o < 0)%Q by (apply Qlt_shift_div_r; [done | lra]).
      lra.
Qed.

Lemma larger_output_statistics_witness :
  (∃ s' x p x64 p64,
     runner_steps [quiet 30; quiet 31] "job-1" job1
       (R_probe_output (size_mb_of_bytes 1048576)) (encoded 1048576 2097152)
     = (R_done, s') ∧
     job_status s' "job-1" = Some (VStr "completed") ∧
     recorded s' "job-1" "compression_ratio" = Some x ∧
     recorded s' "job-1" "compression_percent" = Some p ∧
     statistics_b64 1048576 2097152 = Some (x64, p64) ∧
     (0 < x ∧ x < 1 ∧ p < 0 ∧ 0 < x64 ∧ x64 < 1 ∧ p64 < 0)%Q) ∧
  (∃ s' x p x64 p64,
     runner_steps [quiet 30; quiet 31] "job-1" job1
       (R_probe_output (size_mb_of_bytes 0)) (encoded 0 1)
     = (R_done, s') ∧
     job_status s' "job-1" = Some (VStr "completed") ∧
     recorded s' "job-1" "compression_ratio" = Some x ∧
     recorded s' "job-1" "compression_percent" = Some p ∧
     statistics_b64 0 1 = Some (x64, p64) ∧
     (x == 0 ∧ p == 0 ∧ x64 == 0 ∧ p64 == 0)%Q).
Proof.
  split.
  - apply (larger_output_statistics (quiet 30) (quiet 31) "job-1" job1
             1048576 2097152 None None (encoded 1048576 2097152));
      reflexivity.
  - apply (larger_output_statistics (quiet 30) (quiet 31) "job-1" job1
             0 1 None None (encoded 0 1)); reflexivity.
Defined.

(** ** The janitor *)

Lemma str_eqb_true v x : str_eqb v x = true ↔ v = Some (VStr x).
Proof.
  destruct v as [[y| | |]|]; cbn [str_eqb]; try (split; discriminate).
  rewrite bool_decide_eq_true. split; [by intros -> | by intros [= ->]].
Qed.

Lemma str_in_terminal job :
  str_in (job !! "status") terminal_statuses = true ↔ is_terminal job.
Proof.
  unfold is_terminal, str_in, terminal_statuses. cbn [existsb].
  rewrite !orb_true_iff, !str_eqb_true. intuition discriminate.
Qed.

Lemma expired_true_iff t job :
  expired t job = Some true ↔ is_terminal job ∧ past_retention t job.
Proof.
  unfold expired, past_retention. rewrite <- str_in_terminal.
  destruct (str_in (job !! "status") terminal_statuses).
  - destruct (num_val (default (VInt 0) (job !! "updated_at"))) as [u|]; simpl.
    + split.
      * intros [= H]. split; [done |]. exists u. split; [done |].
        by apply Qltb_lt.
      * intros [_ (u' & [= <-] & H)]. f_equal. by apply Qltb_lt.
    + split; [discriminate | by intros [_ (u' & ? & _)]].
  - split; [discriminate | by intros [? _]].
Qed.

Lemma expired_is_Some t job : stamp_ok job → is_Some (expired t job).
Proof.
  intros [u Hu]. unfold expired.
  destruct (str_in (job !! "status") terminal_statuses); [|eauto].
  rewrite Hu; simpl. eauto.
Qed.

Lemma clean_loop_cons t k ks s :
  clean_loop t (k :: ks) s = clean_one t s k ≫= clean_loop t ks.
Proof.
  unfold clean_loop; simpl.
  destruct (clean_one t s k) as [s1|]; simpl; [done |].
  induction ks as [|k' ks IH]; simpl; [done | apply IH].
Qed.

Lemma clean_loop_spec t ks : ∀ s,
  NoDup ks →
  (∀ k, k ∈ ks → is_Some (active_jobs s !! k)) →
  stamps_numeric s →
  ∃ s', clean_loop t ks s = Some s' ∧ same_but_jobs s s' ∧
        ∀ job_id, active_jobs s' !! job_id
                  = if decide (job_id ∈ ks) then sweep_one t s job_id
                    else active_jobs s !! job_id.
Proof.
  induction ks as [|k ks IH]; intros s Hnd Hin Hst.
  - exists s. split; [done |]. split; [done |].
    intros id. rewrite decide_False; [done | apply not_elem_of_nil].
  - apply NoDup_cons in Hnd as [Hk Hnd].
    destruct (Hin k) as [l Hl]; [left |].
    destruct (expired_is_Some t _ (Hst _ _ Hl)) as [b Hb].
    set (s1 := if b then set_jobs (delete k (active_jobs s)) s else s).
    assert (H1 : clean_one t s k = Some s1).
    { unfold clean_one. rewrite Hl. cbn [mbind option_bind].
      rewrite Hb. done. }
    assert (Hheap : heap s1 = heap s) by (unfold s1; by destruct b).
    assert (Hframe : same_but_jobs s s1) by (unfold s1; by destruct b).
    assert (Hother : ∀ id, id ≠ k → active_jobs s1 !! id = active_jobs s !! id).
    { intros id Hne. unfold s1. destruct b; simpl; [|done].
      by rewrite lookup_delete_ne. }
    assert (Hderef : ∀ r, deref s1 r = deref s r).
    { intros [r|]; simpl; [by rewrite Hheap | done]. }
    destruct (IH s1) as (s' & Hrun & (Hh & Hn & Hp & Hf) & Hlook); [done | | |].
    { intros k' Hk'. rewrite Hother; [apply Hin; by right |].
      intros ->. done. }
    { intros id l' Hid. rewrite Hderef. destruct (decide (id = k)) as [->|Hne].
      - unfold s1 in Hid. destruct b; simpl in Hid.
        + by rewrite lookup_delete_eq in Hid.
        + by apply (Hst k).
      - rewrite Hother in Hid by done. by apply (Hst id). }
    exists s'. rewrite clean_loop_cons, H1; simpl.
    split; [done |]. split.
    { destruct Hframe as (? & ? & ? & ?). unfold same_but_jobs.
      repeat split; congruence. }
    intros id. rewrite Hlook.
    destruct (decide (id = k)) as [->|Hne].
    + rewrite decide_False by done. rewrite decide_True by left.
      unfold sweep_one. rewrite Hl. cbn [mbind option_bind].
      rewrite Hb. unfold s1.
      destruct b.
      * rewrite bool_decide_eq_true_2 by done. apply lookup_delete_eq.
      * rewrite bool_decide_eq_false_2 by discriminate. done.
    + assert (Hsw : sweep_one t s1 id = sweep_one t s id).
      { unfold sweep_one. rewrite Hother by done.
        destruct (active_jobs s !! id); [|done].
        cbn [mbind option_bind]. by rewrite Hderef. }
      destruct (decide (id ∈ ks)) as [Hm|Hm].
      * rewrite decide_True by (by right). done.
      * rewrite decide_False; [by apply Hother |].
        intros [?|?]%elem_of_cons; done.
Qed.

Lemma clean_old_jobs_lookup t s :
  stamps_numeric s →
  ∃ s', clean_old_jobs t s = Some s' ∧ same_but_jobs s s' ∧
        ∀ job_id, active_jobs s' !! job_id = sweep_one t s job_id.
Proof.
  intros Hst. unfold clean_old_jobs.
  destruct (clean_loop_spec t (map_to_list (active_jobs s)).*1 s)
    as (s' & Hrun & Hframe & Hlook); [| | done |].
  - apply NoDup_fst_map_to_list.
  - intros k [[k' l] [-> Hkl]]%list_elem_of_fmap.
    apply elem_of_map_to_list in Hkl. eauto.
  - exists s'. split; [done |]. split; [done |].
    intros id. rewrite Hlook. case_decide as Hm; [done |].
    unfold sweep_one. destruct (active_jobs s !! id) as [l|] eqn:Hl; [|done].
    exfalso. apply Hm. apply list_elem_of_fmap. exists (id, l).
    split; [done |]. by apply elem_of_map_to_list.
Qed.

Lemma stamp_ok_empty : stamp_ok ∅.
Proof. unfold stamp_ok. rewrite lookup_empty. simpl. eauto. Qed.

Lemma heap_stamped_numeric s : heap_stamped s → stamps_numeric s.
Proof.
  intros Hh id l _. unfold deref.
  destruct (heap s !! l) as [d|] eqn:Hd; simpl;
    [by apply (Hh l) | apply stamp_ok_empty].
Qed.

Lemma heap_stamped_empty : heap_stamped empty_state.
Proof. intros l d Hd. simpl in Hd. by rewrite lookup_empty in Hd. Qed.

Lemma stamp_ok_fields t status kwargs d :
  kwargs !! "updated_at" = None → stamp_ok (status_fields t status kwargs ∪ d).
Proof.
  intros Hk.
  assert (H : status_fields t status kwargs !! "updated_at" = Some (VFloat t)).
  { unfold status_fields. rewrite lookup_union_r by done.
    rewrite lookup_insert_ne by done. apply lookup_insert_eq. }
  unfold stamp_ok. rewrite (lookup_union_Some_l _ _ _ _ H). simpl. eauto.
Qed.

Lemma heap_stamped_update t job_id status kwargs s :
  kwargs !! "updated_at" = None →
  heap_stamped s → heap_stamped (update_job_status t job_id status kwargs s).
Proof.
  intros Hk Hh l d. unfold update_job_status.
  destruct (active_jobs s !! job_id) as [l0|] eqn:Hl; cbn [active_jobs set_jobs].
  - rewrite Hl. cbn [heap set_heap]. intros Hd.
    destruct (decide (l = l0)) as [->|Hne].
    + rewrite lookup_insert_eq in Hd. injection Hd as <-.
      by apply stamp_ok_fields.
    + rewrite lookup_insert_ne in Hd by done. by apply (Hh l).
  - rewrite lookup_insert_eq. cbn [heap set_heap set_jobs]. intros Hd.
    destruct (decide (l = next_loc s)) as [->|Hne].
    + rewrite lookup_insert_eq in Hd. injection Hd as <-.
      by apply stamp_ok_fields.
    + rewrite !lookup_insert_ne in Hd by done. by apply (Hh l).
Qed.

Lemma expired_later t1 t2 job :
  (t1 <= t2)%Q → expired t1 job = Some true → expired t2 job = Some true.
Proof.
  intros Hle. rewrite !expired_true_iff.
  intros [Hterm (u & Hu & Hold)]. split; [done |].
  exists u. split; [done | lra].
Qed.

Lemma sweep_keeps_stamps t s s' :
  stamps_numeric s → same_but_jobs s s' →
  (∀ job_id, active_jobs s' !! job_id = sweep_one t s job_id) →
  stamps_numeric s'.
Proof.
  intros Hst (Hh & _) Hlook id l Hid.
  rewrite Hlook in Hid. unfold sweep_one in Hid.
  destruct (active_jobs s !! id) as [l'|] eqn:Hl; [|done].
  cbn [mbind option_bind] in Hid. case_bool_decide; [done |].
  injection Hid as ->. unfold deref. rewrite Hh. by apply (Hst id).
Qed.

(** A sweep followed by a sweep at the same or a later clock reading leaves
    what the later sweep alone would leave. *)
Lemma sweep_then_sweep t1 t2 s :
  stamps_numeric s → (t1 <= t2)%Q →
  ∃ s1 s2, clean_old_jobs t1 s = Some s1 ∧ clean_old_jobs t2 s1 = Some s2 ∧
           clean_old_jobs t2 s = Some s2.
Proof.
  intros Hst Hle.
  destruct (clean_old_jobs_lookup t1 s Hst) as (s1 & Hrun1 & Hf1 & Hl1).
  pose proof (sweep_keeps_stamps t1 s s1 Hst Hf1 Hl1) as Hst1.
  destruct (clean_old_jobs_lookup t2 s1 Hst1) as (s2 & Hrun2 & Hf2 & Hl2).
  destruct (clean_old_jobs_lookup t2 s Hst) as (s3 & Hrun3 & Hf3 & Hl3).
  exists s1, s2. split; [done |]. split; [done |].
  rewrite Hrun3. f_equal.
  assert (Hjobs : active_jobs s3 = active_jobs s2).
  { apply map_eq. intros id. rewrite Hl3, Hl2. unfold sweep_one at 2.
    rewrite Hl1. unfold sweep_one.
    destruct (active_jobs s !! id) as [l|]; [|done].
    cbn [mbind option_bind].
    destruct Hf1 as (Hh1 & _).
    destruct (decide (expired t1 (deref s (Some l)) = Some true)) as [He|He].
    - rewrite (bool_decide_eq_true_2 _ He). cbn [mbind option_bind].
      by rewrite (bool_decide_eq_true_2 _ (expired_later t1 t2 _ Hle He)).
    - rewrite (bool_decide_eq_false_2 _ He). cbn [mbind option_bind].
      unfold deref. by rewrite Hh1. }
  destruct s2, s3. destruct Hf1 as (? & ? & ? & ?), Hf2 as (? & ? & ? & ?),
    Hf3 as (? & ? & ? & ?). simpl in *. congruence.
Qed.

(** C8: on a registry whose time stamps are numbers, [clean_old_jobs]
    returns; it removes the records that are terminal (completed, failed or
    cancelled) and whose [updated_at] lies more than 3600 seconds before the
    clock reading, and no others: every other id keeps its record, and the
    records themselves, the process registry and the files are unchanged.
    A second sweep at the same clock reading changes nothing. *)
Theorem clean_old_jobs_sweeps t s :
  stamps_numeric s →
  ∃ s', clean_old_jobs t s = Some s' ∧ same_but_jobs s s' ∧
        (∀ job_id l, active_jobs s !! job_id = Some l →
           let job := deref s (Some l) in
           (is_terminal job ∧ past_retention t job →
            active_jobs s' !! job_id = None) ∧
           (¬ (is_terminal job ∧ past_retention t job) →
            active_jobs s' !! job_id = Some l)) ∧
        (∀ job_id, active_jobs s !! job_id = None →
                   active_jobs s' !! job_id = None) ∧
        clean_old_jobs t s' = Some s'.
Proof.
  intros Hst.
  destruct (sweep_then_sweep t t s Hst (Qle_refl t))
    as (s1 & s2 & Hrun1 & Hrun2 & Hrun3).
  assert (s2 = s1) as -> by congruence.
  destruct (clean_old_jobs_lookup t s Hst) as (s' & Hrun & Hf & Hl).
  assert (s' = s1) as -> by congruence.
  exists s1. split; [done |]. split; [done |]. split; [| split; [| done]].
  - intros id l Hid job. rewrite Hl. unfold sweep_one. rewrite Hid.
    cbn [mbind option_bind]. fold job. rewrite <- expired_true_iff. split.
    + intros He. by rewrite bool_decide_eq_true_2.
    + intros He. by rewrite bool_decide_eq_false_2.
  - intros id Hid. rewrite Hl. unfold sweep_one. by rewrite Hid.
Qed.

Lemma three_jobs_stamps : stamps_numeric three_jobs.
Proof.
  apply heap_stamped_numeric. unfold three_jobs.
  repeat (apply heap_stamped_update; [reflexivity |]).
  apply heap_stamped_empty.
Qed.

Lemma clean_old_jobs_sweeps_witness :
  ∃ s', clean_old_jobs 5000 three_jobs = Some s' ∧ same_but_jobs three_jobs s' ∧
        (∀ job_id l, active_jobs three_jobs !! job_id = Some l →
           let job := deref three_jobs (Some l) in
           (is_terminal job ∧ past_retention 5000 job →
            active_jobs s' !! job_id = None) ∧
           (¬ (is_terminal job ∧ past_retention 5000 job) →
            active_jobs s' !! job_id = Some l)) ∧
        (∀ job_id, active_jobs three_jobs !! job_id = None →
                   active_jobs s' !! job_id = None) ∧
        clean_old_jobs 5000 s' = Some s'.
Proof. apply (clean_old_jobs_sweeps 5000 three_jobs), three_jobs_stamps. Defined.

(** ** The process registry *)

Lemma run_snoc ls l y : run (ls ++ [l]) y = run ls y ≫= step l.
Proof. unfold run. by rewrite foldl_app. Qed.

Lemma reachable_ind (P : sys → Prop) :
  P init →
  (∀ l y y', reachable y → P y → step l y = Some y' → P y') →
  ∀ y, reachable y → P y.
Proof.
  intros Hinit Hstep y [ls Hrun]. revert y Hrun.
  induction ls as [|l ls IH] using rev_ind; intros y Hrun.
  - injection Hrun as <-. exact Hinit.
  - rewrite run_snoc in Hrun.
    destruct (run ls init) as [y0|] eqn:Hy0; [|discriminate].
    simpl in Hrun. apply (Hstep l y0 y); [by exists ls | by apply IH | done].
Qed.

Lemma runner_step_processes e job_id a pc s :
  active_processes (runner_step e job_id a pc s).2
  = match pc with
    | R_register _ p => <[job_id := p]> (active_processes s)
    | R_unregister _ _ _ | R_except_unregister =>
        delete job_id (active_processes s)
    | _ => active_processes s
    end.
Proof.
  destruct pc; cbn [runner_step snd];
    rewrite ?update_job_status_processes; try done.
  - by destruct (get_video_info e s (input_path a)).
  - by destruct (popen e).
  - by destruct (communicate e) as [[rc err]|].
  - destruct (str_eqb _ _); [done |]. by destruct (bool_decide _).
  - by destruct (files s !! output_path a).
  - by destruct (remove_raises e).
  - destruct (get_video_info e s (output_path a)) as [i|]; [|done].
    destruct (compression_ratio _ _); [|done].
    by destruct (compression_percent _ _).
Qed.

(** Where a step leaves the program counter relative to the invocation. *)
Lemma runner_step_pc e job_id a pc s :
  match pc with
  | R_register _ _ | R_communicate _ _ | R_except _ =>
      in_invocation (runner_step e job_id a pc s).1 = true
  | R_unregister _ _ _ | R_except_unregister => True
  | _ => True
  end.
Proof.
  destruct pc; cbn [runner_step fst in_invocation]; try done.
  by destruct (communicate e) as [[rc err]|].
Qed.

Lemma cancel_step_processes e job_id pc s :
  active_processes (cancel_step e job_id pc s).2 = active_processes s.
Proof.
  destruct pc; cbn [cancel_step snd];
    rewrite ?update_job_status_processes; try done.
  - by destruct (bool_decide _).
  - by destruct (str_in _ _).
Qed.

Lemma clean_loop_processes t ks : ∀ s s',
  clean_loop t ks s = Some s' → active_processes s' = active_processes s.
Proof.
  induction ks as [|k ks IH]; intros s s' Hrun.
  - by injection Hrun as <-.
  - rewrite clean_loop_cons in Hrun.
    destruct (clean_one t s k) as [s1|] eqn:H1; [|discriminate].
    cbn [mbind option_bind] in Hrun. rewrite (IH _ _ Hrun).
    unfold clean_one in H1.
    destruct (active_jobs s !! k) as [l|]; [|discriminate].
    cbn [mbind option_bind] in H1.
    destruct (expired t (deref s (Some l))) as [[]|]; [| |discriminate];
      by injection H1 as <-.
Qed.

Lemma handles_tracked_step l y y' :
  handles_tracked y → step l y = Some y' → handles_tracked y'.
Proof.
  intros Hinv Hstep. destruct l as [t id fn a opts|id e|rid id|rid e|t|path sz];
    cbn [step] in Hstep.
  - (* submit *)
    destruct (runners y !! id) as [?|] eqn:Hr; [discriminate |].
    injection Hstep as <-. intros j p. cbn [shared runners].
    rewrite update_job_status_processes. intros Hp.
    destruct (Hinv j p Hp) as (a' & pc & Hj & Hw).
    exists a', pc. split; [|done].
    rewrite lookup_insert_ne; [done | congruence].
  - (* a runner step *)
    destruct (runners y !! id) as [[a pc]|] eqn:Hr; [|discriminate].
    assert (Hstep' : Some (Sys (runner_step e id a pc (shared y)).2
                     (<[id := (a, (runner_step e id a pc (shared y)).1)]>
                        (runners y)) (requests y)) = Some y').
    { destruct pc; try done;
        by destruct (runner_step e id a _ (shared y)). }
    clear Hstep. injection Hstep' as <-. intros j p. cbn [shared runners].
    rewrite runner_step_processes. intros Hp.
    destruct (decide (j = id)) as [->|Hne].
    + rewrite lookup_insert_eq. exists a, (runner_step e id a pc (shared y)).1.
      split; [done |].
      pose proof (runner_step_pc e id a pc (shared y)) as Hpc.
      destruct pc; try done;
        try (rewrite lookup_delete_eq in Hp; discriminate);
        destruct (Hinv id p Hp) as (a' & pc' & Hj & Hw);
        rewrite Hr in Hj; injection Hj as <- <-; discriminate.
    + rewrite lookup_insert_ne by done.
      apply (Hinv j p).
      destruct pc; try done;
        by rewrite ?lookup_insert_ne, ?lookup_delete_ne in Hp.
  - (* a cancel request arrives *)
    destruct (requests y !! rid); [discriminate |].
    by injection Hstep as <-.
  - (* a cancel step *)
    destruct (requests y !! rid) as [[id pc]|]; [|discriminate].
    assert (Hstep' : Some (Sys (cancel_step e id pc (shared y)).2 (runners y)
                     (<[rid := (id, (cancel_step e id pc (shared y)).1)]>
                        (requests y))) = Some y').
    { destruct pc; try done; by destruct (cancel_step e id _ (shared y)). }
    clear Hstep. injection Hstep' as <-. intros j p. cbn [shared runners].
    rewrite cancel_step_processes. apply Hinv.
  - (* the janitor *)
    destruct (clean_old_jobs t (shared y)) as [s'|] eqn:Hc; [|discriminate].
    injection Hstep as <-. intros j p. cbn [shared runners].
    unfold clean_old_jobs in Hc. rewrite (clean_loop_processes _ _ _ _ Hc).
    apply Hinv.
  - (* a file changes *)
    injection Hstep as <-. apply Hinv.
Qed.

Lemma handles_tracked_reachable y : reachable y → handles_tracked y.
Proof.
  apply reachable_ind.
  - intros j p Hp. simpl in Hp. by rewrite lookup_empty in Hp.
  - intros l y0 y' _ Hinv Hstep. by apply (handles_tracked_step l y0).
Qed.

(** C9: in every state the server can reach, a process handle is registered
    for a job id only while that job's runner is between the registration of
    line 173 and the unregistration that follows the return of the encoder
    invocation; once the runner is past that point, on the normal, the
    failure and the cancellation path alike, and once it has finished on any
    path, the exception handler included, no handle is registered for its
    id. *)
Theorem handle_unregistered_after_invocation y job_id :
  reachable y →
  (∀ p, active_processes (shared y) !! job_id = Some p →
        ∃ a pc, runners y !! job_id = Some (a, pc) ∧ in_invocation pc = true) ∧
  (∀ a pc, runners y !! job_id = Some (a, pc) → past_invocation pc = true →
           active_processes (shared y) !! job_id = None).
Proof.
  intros Hy. pose proof (handles_tracked_reachable y Hy) as Hinv. split.
  - intros p. apply Hinv.
  - intros a pc Hr Hpast.
    destruct (active_processes (shared y) !! job_id) as [p|] eqn:Hp; [|done].
    destruct (Hinv job_id p Hp) as (a' & pc' & Hr' & Hw).
    rewrite Hr in Hr'. injection Hr' as <- <-.
    destruct pc; discriminate.
Qed.

Lemma handle_unregistered_after_invocation_witness :
  let y := after cancelled_then_run init in
  (∀ p, active_processes (shared y) !! "job-1" = Some p →
        ∃ a pc, runners y !! "job-1" = Some (a, pc) ∧ in_invocation pc = true) ∧
  (∀ a pc, runners y !! "job-1" = Some (a, pc) → past_invocation pc = true →
           active_processes (shared y) !! "job-1" = None).
Proof.
  apply (handle_unregistered_after_invocation
           (after cancelled_then_run init) "job-1").
  exists cancelled_then_run. by vm_compute.
Defined.

(** ** Cancellation against the runner *)

(** Closed conjunctions about concrete schedules are settled conjunct by
    conjunct, by evaluation. *)
Ltac all_by_evaluation :=
  repeat (apply conj; [vm_compute; reflexivity |]); vm_compute; reflexivity.

(** C1 fails on the code: a cancel request that finds the job [queued]
    answers success and leaves the record [cancelled]; the runner, which
    starts afterwards, overwrites the status at line 119, runs the encoder
    and ends with the job [completed]. *)
Theorem cancel_before_start_is_overwritten :
  let y1 := after cancel_while_queued init in
  let y2 := after runner_to_end y1 in
  run cancel_while_queued init = Some y1 ∧
  answer_of y1 0 = Some Ok ∧
  status_of y1 "job-1" = Some (VStr "cancelled") ∧
  run runner_to_end y1 = Some y2 ∧
  runners y2 !! "job-1" = Some (job1, R_done) ∧
  status_of y2 "job-1" = Some (VStr "completed").
Proof. intros y1 y2. all_by_evaluation. Qed.

(** The same loss at the other end: a cancel request that lands between the
    runner's status check (line 183) and its final update (line 202)
    answers success, and the job still ends [completed]. *)
Lemma cancel_at_completion_is_overwritten :
  let y1 := after runner_past_check init in
  let y2 := after cancel_then_finish y1 in
  run runner_past_check init = Some y1 ∧
  status_of y1 "job-1" = Some (VStr "processing") ∧
  run cancel_then_finish y1 = Some y2 ∧
  answer_of y2 0 = Some Ok ∧
  runners y2 !! "job-1" = Some (job1, R_done) ∧
  status_of y2 "job-1" = Some (VStr "completed").
Proof. intros y1 y2. all_by_evaluation. Qed.

(** C3 fails on the code: the record reads [cancelled], a terminal status,
    and the next operation on it, the runner's update of line 119, sets it
    to [processing]. *)
Theorem terminal_status_regresses :
  let y1 := after cancel_while_queued init in
  let y2 := after [LRunner "job-1" (quiet 102)] y1 in
  run cancel_while_queued init = Some y1 ∧
  status_of y1 "job-1" = Some (VStr "cancelled") ∧
  step (LRunner "job-1" (quiet 102)) y1 = Some y2 ∧
  status_of y2 "job-1" = Some (VStr "processing").
Proof. intros y1 y2. all_by_evaluation. Qed.

(** ** Time stamps in reachable states *)

Lemma heap_stamped_same s s' : heap s' = heap s → heap_stamped s → heap_stamped s'.
Proof. intros Hh Hs l d. rewrite Hh. apply Hs. Qed.

Lemma heap_stamped_runner_step e job_id a pc s :
  heap_stamped s → heap_stamped (runner_step e job_id a pc s).2.
Proof.
  intros Hs. destruct pc; cbn [runner_step snd]; try done;
    try (apply heap_stamped_update; [by vm_compute | done]).
  - by destruct (get_video_info e s (input_path a)).
  - by destruct (popen e).
  - by destruct (communicate e) as [[rc err]|].
  - destruct (str_eqb _ _); [done |]. by destruct (bool_decide _).
  - by destruct (files s !! output_path a).
  - by destruct (remove_raises e).
  - destruct (get_video_info e s (output_path a)) as [i|]; [|done].
    destruct (compression_ratio _ _); [|done].
    by destruct (compression_percent _ _).
Qed.

Lemma heap_stamped_cancel_step e job_id pc s :
  heap_stamped s → heap_stamped (cancel_step e job_id pc s).2.
Proof.
  intros Hs. destruct pc; cbn [cancel_step snd]; try done.
  - by destruct (bool_decide _).
  - by destruct (str_in _ _).
  - apply heap_stamped_update; [by vm_compute | done].
Qed.

Lemma clean_loop_heap t ks : ∀ s s',
  clean_loop t ks s = Some s' → heap s' = heap s.
Proof.
  induction ks as [|k ks IH]; intros s s' Hrun.
  - by injection Hrun as <-.
  - rewrite clean_loop_cons in Hrun.
    destruct (clean_one t s k) as [s1|] eqn:H1; [|discriminate].
    cbn [mbind option_bind] in Hrun. rewrite (IH _ _ Hrun).
    unfold clean_one in H1.
    destruct (active_jobs s !! k) as [l|]; [|discriminate].
    cbn [mbind option_bind] in H1.
    destruct (expired t (deref s (Some l))) as [[]|]; [| |discriminate];
      by injection H1 as <-.
Qed.

Lemma heap_stamped_step l y y' :
  heap_stamped (shared y) → step l y = Some y' → heap_stamped (shared y').
Proof.
  intros Hs Hstep.
  destruct l as [t id fn a opts|id e|rid id|rid e|t|path sz];
    cbn [step] in Hstep.
  - destruct (runners y !! id); [discriminate |]. injection Hstep as <-.
    apply heap_stamped_update; [by vm_compute | done].
  - destruct (runners y !! id) as [[a pc]|]; [|discriminate].
    pose proof (heap_stamped_runner_step e id a pc (shared y) Hs) as H.
    destruct (runner_step e id a pc (shared y)) as [pc' s'].
    destruct pc; try discriminate; by injection Hstep as <-.
  - destruct (requests y !! rid); [discriminate |]. by injection Hstep as <-.
  - destruct (requests y !! rid) as [[id pc]|]; [|discriminate].
    pose proof (heap_stamped_cancel_step e id pc (shared y) Hs) as H.
    destruct (cancel_step e id pc (shared y)) as [pc' s'].
    destruct pc; try discriminate; by injection Hstep as <-.
  - destruct (clean_old_jobs t (shared y)) as [s'|] eqn:Hc; [|discriminate].
    injection Hstep as <-. cbn [shared].
    by apply (heap_stamped_same (shared y)), Hs; apply (clean_loop_heap _ _ _ _ Hc).
  - injection Hstep as <-. exact Hs.
Qed.

(** The janitor's precondition holds in every state the server reaches, so
    the sweep never raises there. *)
Lemma reachable_stamps_numeric y : reachable y → stamps_numeric (shared y).
Proof.
  intros Hy. apply heap_stamped_numeric. revert y Hy. apply reachable_ind.
  - apply heap_stamped_empty.
  - intros l y0 y' _ Hs Hstep. by apply (heap_stamped_step l y0).
Qed.

Lemma janitor_can_always_run t y :
  reachable y → is_Some (step (LJanitor t) y).
Proof.
  intros Hy.
  destruct (clean_old_jobs_lookup t (shared y) (reachable_stamps_numeric y Hy))
    as (s' & Hrun & _).
  cbn [step]. rewrite Hrun. simpl. eauto.
Qed.

(** * Properties of the rest of the code *)

(** ** File name filters *)

Lemma contains_app c s1 s2 :
  contains c (s1 ++ s2) = contains c s1 || contains c s2.
Proof.
  induction s1 as [|c' s1 IH]; simpl; [done |].
  by rewrite IH, orb_assoc.
Qed.

Lemma rsplit1_aux_None sep s :
  rsplit1_aux sep s = None ↔ contains sep s = false.
Proof.
  induction s as [|c r IH]; simpl; [done |].
  destruct (rsplit1_aux sep r) as [[b a]|].
  - split; [done |]. intros [_ H]%orb_false_iff.
    by apply IH in H.
  - destruct (Ascii.eqb c sep); simpl; [done |].
    split; [intros _; by apply IH | done].
Qed.

(** The split is at the last separator: the tail has none. *)
Lemma rsplit1_aux_Some sep s b a :
  rsplit1_aux sep s = Some (b, a) ↔
  s = b ++ String sep a ∧ contains sep a = false.
Proof.
  revert b. induction s as [|c r IH]; intros b; simpl.
  - split; [done |]. intros [H _]. by destruct b.
  - destruct (rsplit1_aux sep r) as [[b' a']|] eqn:Hr.
    + split.
      * intros [= <- <-]. destruct (proj1 (IH b') eq_refl) as [-> Ha].
        by split.
      * intros [Hs Ha]. destruct b as [|c0 b0]; simpl in Hs.
        -- injection Hs as -> ->. apply rsplit1_aux_None in Ha. congruence.
        -- injection Hs as -> Hs.
           assert (H : Some (b', a') = Some (b0, a)) by (by apply IH).
           by injection H as -> ->.
    + apply rsplit1_aux_None in Hr.
      destruct (Ascii.eqb c sep) eqn:Hc.
      * apply Ascii.eqb_eq in Hc as ->. split.
        -- intros [= <- <-]. by split.
        -- intros [Hs Ha]. destruct b as [|c0 b0]; simpl in Hs.
           ++ by injection Hs as ->.
           ++ injection Hs as -> ->. rewrite contains_app in Hr. simpl in Hr.
              rewrite Ascii.eqb_refl in Hr. by rewrite orb_true_r in Hr.
      * split; [done |]. intros [Hs Ha].
        destruct b as [|c0 b0]; simpl in Hs.
        -- injection Hs as -> ->. by rewrite Ascii.eqb_refl in Hc.
        -- injection Hs as -> ->. rewrite contains_app in Hr. simpl in Hr.
           rewrite Ascii.eqb_refl in Hr. by rewrite orb_true_r in Hr.
Qed.

Lemma rsplit1_aux_split sep b a :
  contains sep a = false → rsplit1_aux sep (b ++ String sep a) = Some (b, a).
Proof. intros Ha. by apply rsplit1_aux_Some. Qed.

Lemma lower_app s1 s2 : lower (s1 ++ s2) = lower s1 ++ lower s2.
Proof. induction s1 as [|c s1 IH]; simpl; [done | by rewrite IH]. Qed.

Lemma lower_char_dot c : Ascii.eqb (lower_char c) "." = Ascii.eqb c ".".
Proof. by destruct c as [[] [] [] [] [] [] [] []]. Qed.

Lemma contains_dot_lower s : contains "." (lower s) = contains "." s.
Proof.
  induction s as [|c r IH]; simpl; [done |].
  by rewrite lower_char_dot, IH.
Qed.

Lemma ends_with_spec s suf : ends_with s suf = true ↔ ∃ x, s = x ++ suf.
Proof.
  induction s as [|c r IH]; simpl.
  - rewrite orb_false_r, bool_decide_eq_true. split.
    + intros <-. by exists "".
    + intros [x Hx]. destruct x; [done | discriminate].
  - rewrite orb_true_iff, bool_decide_eq_true, IH. split.
    + intros [<- | [x ->]]; [by exists "" | by exists (String c x)].
    + intros [[|c' x] Hx]; simpl in Hx; [by left |].
      injection Hx as -> ->. right. by exists x.
Qed.

Lemma video_extensions_allowed suf :
  suf ∈ video_extensions ↔ ∃ e, suf = String "." e ∧ e ∈ allowed_extensions.
Proof.
  unfold video_extensions, allowed_extensions.
  rewrite !elem_of_cons, elem_of_nil. split.
  - intros [->|[->|[->|[->|[->|[->|[]]]]]]]; eexists; split; try reflexivity;
      rewrite !elem_of_cons; tauto.
  - intros (e & -> & He). rewrite !elem_of_cons, elem_of_nil in He.
    destruct He as [->|[->|[->|[->|[->|[->|[]]]]]]]; tauto.
Qed.

Lemma allowed_extensions_no_dot e :
  e ∈ allowed_extensions → contains "." e = false.
Proof.
  unfold allowed_extensions. rewrite !elem_of_cons, elem_of_nil.
  intros [->|[->|[->|[->|[->|[->|[]]]]]]]; reflexivity.
Qed.

Lemma allowed_file_no_dot f : contains "." f = false → allowed_file f = false.
Proof. unfold allowed_file. by intros ->. Qed.

Lemma allowed_file_split b ext :
  contains "." ext = false →
  allowed_file (b ++ String "." ext) = bool_decide (lower ext ∈ allowed_extensions).
Proof.
  intros Hext. unfold allowed_file, rsplit1.
  rewrite (rsplit1_aux_split "." b ext Hext), contains_app. simpl.
  by rewrite orb_true_r.
Qed.

Lemma allowed_file_iff f :
  allowed_file f = true ↔
  ∃ b ext, f = b ++ String "." ext ∧ contains "." ext = false ∧
           lower ext ∈ allowed_extensions.
Proof.
  split.
  - intros Hf. destruct (rsplit1_aux "." f) as [[b ext]|] eqn:Hs.
    + apply rsplit1_aux_Some in Hs as [-> Hext].
      rewrite (allowed_file_split b ext Hext) in Hf.
      apply bool_decide_eq_true in Hf. by exists b, ext.
    + apply rsplit1_aux_None in Hs. by rewrite allowed_file_no_dot in Hf.
  - intros (b & ext & -> & Hext & Hin).
    rewrite (allowed_file_split b ext Hext). by apply bool_decide_eq_true.
Qed.

(** X1: on an ASCII file name, [allowed_file] accepts exactly the names
    that have a dot and whose part after the last dot is, ignoring case, one
    of mp4, mov, avi, mkv, wmv, flv.  Only the last extension counts, and a
    name without a dot or with nothing after its last dot is refused. *)
Theorem allowed_file_spec f :
  ascii_only f = true →
  allowed_file f = true ↔
  ∃ b ext, f = b ++ String "." ext ∧ contains "." ext = false ∧
           lower ext ∈ allowed_extensions.
Proof. intros _. apply allowed_file_iff. Qed.

Lemma allowed_file_spec_witness :
  allowed_file "Holiday.Clip.MP4" = true ↔
  ∃ b ext, "Holiday.Clip.MP4" = b ++ String "." ext ∧ contains "." ext = false ∧
           lower ext ∈ allowed_extensions.
Proof. apply (allowed_file_spec "Holiday.Clip.MP4"). reflexivity. Defined.

Lemma is_video_name_spec f :
  is_video_name f = true ↔
  ∃ x e, lower f = x ++ String "." e ∧ e ∈ allowed_extensions.
Proof.
  unfold is_video_name. rewrite existsb_exists. split.
  - intros (suf & Hin & Hends). apply list_elem_of_In in Hin.
    apply video_extensions_allowed in Hin as (e & -> & He).
    apply ends_with_spec in Hends as [x Hx]. by exists x, e.
  - intros (x & e & Hx & He). exists (String "." e). split.
    + apply list_elem_of_In, video_extensions_allowed. by exists e.
    + apply ends_with_spec. by exists x.
Qed.

(** X2: the upload filter of the server and the directory filter of the
    command line tool and of the GUI accept the same ASCII file names. *)
Theorem allowed_file_is_video_name f :
  ascii_only f = true → allowed_file f = is_video_name f.
Proof.
  intros _. apply eq_true_iff_eq.
  rewrite allowed_file_iff, is_video_name_spec. split.
  - intros (b & ext & -> & Hext & Hin). exists (lower b), (lower ext).
    split; [| done]. by rewrite lower_app.
  - intros (x & e & Hx & He).
    pose proof (allowed_extensions_no_dot e He) as Hdot.
    destruct (rsplit1_aux "." f) as [[b ext]|] eqn:Hs.
    + apply rsplit1_aux_Some in Hs as [-> Hext].
      exists b, ext. split; [done |]. split; [done |].
      rewrite lower_app in Hx. simpl in Hx.
      assert (H1 : rsplit1_aux "." (lower b ++ String "." (lower ext))
                   = Some (lower b, lower ext)).
      { apply rsplit1_aux_split. by rewrite contains_dot_lower. }
      assert (H2 : rsplit1_aux "." (x ++ String "." e) = Some (x, e))
        by by apply rsplit1_aux_split.
      change (lower_char ".") with "."%char in Hx.
      rewrite Hx, H2 in H1. by injection H1 as _ <-.
    + apply rsplit1_aux_None in Hs. rewrite <- contains_dot_lower, Hx in Hs.
      rewrite contains_app in Hs. simpl in Hs. by rewrite orb_true_r in Hs.
Qed.

Lemma allowed_file_is_video_name_witness :
  allowed_file "clip.final.MkV" = is_video_name "clip.final.MkV".
Proof. apply (allowed_file_is_video_name "clip.final.MkV"). reflexivity. Defined.

(** ** The ffmpeg command line *)

(** X3: when the options dict has all its keys, the server runs the very
    command the command line tool runs for the same settings. *)
Theorem server_command_is_cli_command input output size codec crf preset audio
    width :
  server_command input output
    (CompressionOptions size (Some codec) (Some crf) (Some preset) (Some audio)
       width)
  = cli_command input output codec crf preset audio width.
Proof.
  unfold server_command, cli_command. cbn [opt_max_width opt_codec opt_crf
    opt_preset opt_audio_bitrate default].
  destruct (decide (codec = "libx265")) as [->|Hne].
  - by rewrite !bool_decide_eq_true_2.
  - rewrite !bool_decide_eq_false_2; [done | done | congruence].
Qed.

(** X4: when the options dict has no codec, the server encodes with the
    default libx265 but leaves out the x265 log-level parameters that the
    command line tool adds for that codec. *)
Theorem server_command_without_codec input output o :
  opt_codec o = None →
  ∃ front,
    cli_command input output "libx265" (default 28%Z (opt_crf o))
      (default "medium" (opt_preset o)) (default "128k" (opt_audio_bitrate o))
      (opt_max_width o)
    = (front ++ ["-x265-params"; "log-level=error"] ++ ["-y"; output])%list ∧
    server_command input output o = (front ++ ["-y"; output])%list.
Proof.
  intros Hc. unfold server_command, cli_command. rewrite Hc.
  cbn [default]. rewrite bool_decide_eq_true_2 by done.
  rewrite bool_decide_eq_false_2 by done.
  exists (["ffmpeg"; "-i"; input] ++ scale_args (opt_max_width o)
          ++ ["-c:v"; "libx265"; "-crf"; pretty (default 28%Z (opt_crf o));
              "-preset"; default "medium" (opt_preset o)]
          ++ ["-c:a"; "aac"; "-b:a"; default "128k" (opt_audio_bitrate o)])%list.
  split; rewrite <- ?app_assoc; reflexivity.
Qed.

Lemma server_command_without_codec_witness :
  ∃ front,
    cli_command "in.mp4" "out.mp4" "libx265" 28 "medium" "128k" (Some 1280%Z)
    = (front ++ ["-x265-params"; "log-level=error"] ++ ["-y"; "out.mp4"])%list ∧
    server_command "in.mp4" "out.mp4"
      (CompressionOptions None None None None None (Some 1280%Z))
    = (front ++ ["-y"; "out.mp4"])%list.
Proof.
  apply (server_command_without_codec "in.mp4" "out.mp4"
           (CompressionOptions None None None None None (Some 1280%Z))).
  reflexivity.
Defined.

(** ** The file list of the batch GUI *)

Lemma add_entry_ok path label g : gui_ok g → gui_ok (add_entry path label g).
Proof.
  intros [Hnd Hlen]. unfold add_entry. case_bool_decide as Hin; [done |].
  split; simpl.
  - apply NoDup_app. split; [done |]. split; [| apply NoDup_singleton].
    intros x Hx ->%list_elem_of_singleton. done.
  - rewrite !length_app. simpl. lia.
Qed.

Lemma add_entry_elem path label g x :
  x ∈ input_files (add_entry path label g) ↔ x ∈ input_files g ∨ x = path.
Proof.
  unfold add_entry. case_bool_decide as Hin; simpl.
  - split; [by left | by intros [?| ->]].
  - rewrite elem_of_app, list_elem_of_singleton. done.
Qed.

Lemma add_entry_prefix path label g :
  input_files g `prefix_of` input_files (add_entry path label g).
Proof.
  unfold add_entry. case_bool_decide; simpl; [done | by apply prefix_app_r].
Qed.

(** X5: [add_files] keeps the list free of duplicates and the list box in
    step with it, keeps the paths already listed where they were, and
    afterwards lists exactly the old paths and the selected ones. *)
Theorem add_files_keeps_list files : ∀ g,
  gui_ok g →
  gui_ok (add_files files g) ∧
  input_files g `prefix_of` input_files (add_files files g) ∧
  ∀ x, x ∈ input_files (add_files files g) ↔ x ∈ input_files g ∨ x ∈ files.
Proof.
  induction files as [|f files IH]; intros g Hok; simpl.
  - split; [done |]. split; [done |]. intros x. rewrite elem_of_nil. tauto.
  - destruct (IH (add_entry f (basename f) g)) as (Hok' & Hpre & Hin);
      [by apply add_entry_ok |].
    split; [done |]. split.
    + etrans; [apply add_entry_prefix | done].
    + intros x. rewrite Hin, add_entry_elem, elem_of_cons. tauto.
Qed.

Lemma gui_ok_empty : gui_ok (Gui [] []).
Proof. split; [apply NoDup_nil_2 | done]. Qed.

Lemma add_files_keeps_list_witness :
  gui_ok (add_files ["a/x.mp4"; "b/y.mov"; "a/x.mp4"] (Gui [] [])) ∧
  input_files (Gui [] [])
    `prefix_of` input_files (add_files ["a/x.mp4"; "b/y.mov"; "a/x.mp4"] (Gui [] [])) ∧
  ∀ x, x ∈ input_files (add_files ["a/x.mp4"; "b/y.mov"; "a/x.mp4"] (Gui [] []))
       ↔ x ∈ input_files (Gui [] []) ∨ x ∈ ["a/x.mp4"; "b/y.mov"; "a/x.mp4"].
Proof.
  apply (add_files_keeps_list ["a/x.mp4"; "b/y.mov"; "a/x.mp4"] (Gui [] [])).
  apply gui_ok_empty.
Defined.

Lemma add_files_listed files : ∀ g,
  (∀ f, f ∈ files → f ∈ input_files g) → add_files files g = g.
Proof.
  induction files as [|f files IH]; intros g Hall; simpl; [done |].
  unfold add_entry at 1. rewrite bool_decide_eq_true_2 by (apply Hall; left).
  apply IH. intros f' Hf'. apply Hall. by right.
Qed.

(** X6: selecting files that are all listed already changes nothing; in
    particular adding the same selection twice is the same as adding it
    once. *)
Theorem add_files_twice files g :
  add_files files (add_files files g) = add_files files g.
Proof.
  apply add_files_listed. intros f Hf.
  assert (H : ∀ fs g0, f ∈ input_files g0 ∨ f ∈ fs →
                       f ∈ input_files (add_files fs g0)).
  { clear. induction fs as [|f0 fs IH]; intros g0; simpl.
    - intros [H | H]; [done | by apply elem_of_nil in H].
    - intros H. apply IH. rewrite add_entry_elem.
      destruct H as [H | H]; [by left; left |].
      apply elem_of_cons in H as [-> | H]; [left; by right | by right]. }
  apply H. by right.
Qed.

Lemma add_folder_files_spec root files : ∀ g,
  gui_ok g →
  gui_ok (add_folder_files root files g) ∧
  ∀ x, x ∈ input_files (add_folder_files root files g) ↔
       x ∈ input_files g ∨
       ∃ file, file ∈ files ∧ is_video_name file = true ∧
               x = path_join root file.
Proof.
  induction files as [|f files IH]; intros g Hok; simpl.
  - split; [done |]. intros x. split; [by left |].
    intros [H | (file & H & _)]; [done | by apply elem_of_nil in H].
  - destruct (is_video_name f) eqn:Hv.
    + destruct (IH (add_entry (path_join root f) f g)) as [Hok' Hin];
        [by apply add_entry_ok |].
      split; [done |]. intros x. rewrite Hin, add_entry_elem. split.
      * intros [[H | ->] | (file & Hf & Hvf & ->)]; [by left | |].
        -- right. exists f. split; [left | done].
        -- right. exists file. split; [by right | done].
      * intros [H | (file & Hf & Hvf & ->)]; [by left; left |].
        apply elem_of_cons in Hf as [-> | Hf]; [left; by right |].
        right. by exists file.
    + destruct (IH g Hok) as [Hok' Hin]. split; [done |].
      intros x. rewrite Hin. split.
      * intros [H | (file & Hf & Hvf & ->)]; [by left |].
        right. exists file. split; [by right | done].
      * intros [H | (file & Hf & Hvf & ->)]; [by left |].
        apply elem_of_cons in Hf as [-> | Hf]; [congruence |].
        right. by exists file.
Qed.

(** X7: [add_folder] keeps the list free of duplicates and the list box in
    step with it, and afterwards lists exactly the old paths and, for every
    file of the walk whose name passes the video filter, the join of its
    directory and its name. *)
Theorem add_folder_keeps_list walk : ∀ g,
  gui_ok g →
  gui_ok (add_folder walk g) ∧
  ∀ x, x ∈ input_files (add_folder walk g) ↔
       x ∈ input_files g ∨
       ∃ root files file, (root, files) ∈ walk ∧ file ∈ files ∧
                          is_video_name file = true ∧ x = path_join root file.
Proof.
  induction walk as [|[root files] walk IH]; intros g Hok; simpl.
  - split; [done |]. intros x. split; [by left |].
    intros [H | (r & fs & f & H & _)]; [done | by apply elem_of_nil in H].
  - destruct (add_folder_files_spec root files g Hok) as [Hok1 Hin1].
    destruct (IH _ Hok1) as [Hok2 Hin2]. split; [done |].
    intros x. rewrite Hin2, Hin1. split.
    + intros [[H | (file & Hf & Hv & ->)] | (r & fs & f & Hw & Hf & Hv & ->)].
      * by left.
      * right. exists root, files, file. split; [left | done].
      * right. exists r, fs, f. split; [by right | done].
    + intros [H | (r & fs & f & Hw & Hf & Hv & ->)]; [by left; left |].
      apply elem_of_cons in Hw as [[= -> ->] | Hw].
      * left. right. by exists f.
      * right. by exists r, fs, f.
Qed.

Lemma add_folder_keeps_list_witness :
  gui_ok (add_folder [("clips", ["a.MP4"; "notes.txt"])] (Gui [] [])) ∧
  ∀ x, x ∈ input_files (add_folder [("clips", ["a.MP4"; "notes.txt"])] (Gui [] []))
       ↔ x ∈ input_files (Gui [] []) ∨
         ∃ root files file, (root, files) ∈ [("clips", ["a.MP4"; "notes.txt"])] ∧
                            file ∈ files ∧ is_video_name file = true ∧
                            x = path_join root file.
Proof.
  apply (add_folder_keeps_list [("clips", ["a.MP4"; "notes.txt"])] (Gui [] [])).
  apply gui_ok_empty.
Defined.

(** *** Removing the selected rows *)

Lemma unselected_app {A} sel i (l1 l2 : list A) :
  unselected sel i (l1 ++ l2)%list
  = (unselected sel i l1 ++ unselected sel (i + length l1) l2)%list.
Proof.
  revert i. induction l1 as [|x l1 IH]; intros i; simpl.
  - by rewrite Nat.add_0_r.
  - rewrite IH. replace (S i + length l1)%nat with (i + S (length l1))%nat by lia.
    by case_bool_decide.
Qed.

Lemma unselected_all_below {A} sel i (l : list A) :
  (∀ j, j ∈ sel → (j < i)%nat) → unselected sel i l = l.
Proof.
  revert i. induction l as [|x l IH]; intros i Hlt; simpl; [done |].
  rewrite bool_decide_eq_false_2.
  - f_equal. apply IH. intros j Hj. specialize (Hlt j Hj). lia.
  - intros Hi. specialize (Hlt i Hi). lia.
Qed.

Lemma unselected_cons_above {A} d sel i (l : list A) :
  (i + length l ≤ d)%nat → unselected (d :: sel) i l = unselected sel i l.
Proof.
  revert i. induction l as [|x l IH]; intros i Hle; simpl in *; [done |].
  rewrite (IH (S i)) by lia.
  destruct (decide (i ∈ sel)) as [Hi | Hi].
  - rewrite !bool_decide_eq_true_2; [done | done | by right].
  - rewrite !bool_decide_eq_false_2; [done | done |].
    intros [-> | H]%elem_of_cons; [lia | done].
Qed.

Lemma unselected_ext {A} sel1 sel2 i (l : list A) :
  (∀ j, j ∈ sel1 ↔ j ∈ sel2) → unselected sel1 i l = unselected sel2 i l.
Proof.
  intros Heq. revert i. induction l as [|x l IH]; intros i; simpl; [done |].
  rewrite IH. by rewrite (bool_decide_ext _ _ (Heq i)).
Qed.

Lemma unselected_delete {A} d sel (l : list A) :
  (d < length l)%nat → (∀ j, j ∈ sel → (j < d)%nat) →
  unselected sel 0 (delete d l) = unselected (d :: sel) 0 l.
Proof.
  intros Hd Hsel.
  destruct (lookup_lt_is_Some_2 l d Hd) as [x Hx].
  rewrite delete_take_drop. rewrite <- (take_drop_middle l d x Hx) at 3.
  rewrite !unselected_app. cbn [unselected].
  assert (Hlen : length (take d l) = d) by (rewrite length_take; lia).
  rewrite Hlen. cbn [Nat.add].
  rewrite bool_decide_eq_true_2 by left.
  rewrite (unselected_cons_above d sel 0 (take d l)) by lia.
  f_equal.
  rewrite (unselected_all_below sel d) by done.
  rewrite (unselected_all_below (d :: sel) (S d)); [done |].
  intros j [-> | Hj]%elem_of_cons; [lia |]. specialize (Hsel j Hj). lia.
Qed.

Lemma unselected_length {A B} sel i (l1 : list A) (l2 : list B) :
  length l1 = length l2 →
  length (unselected sel i l1) = length (unselected sel i l2).
Proof.
  revert i l2. induction l1 as [|x l1 IH]; intros i [|y l2] Hlen;
    simpl in *; try done.
  case_bool_decide; simpl; rewrite (IH (S i) l2); congruence.
Qed.

Lemma unselected_sublist {A} sel i (l : list A) :
  unselected sel i l `sublist_of` l.
Proof.
  revert i. induction l as [|x l IH]; intros i; simpl; [done |].
  case_bool_decide; [by apply sublist_cons | by apply sublist_skip].
Qed.

(** The kept entries are those at the positions outside the selection. *)
Lemma elem_of_unselected {A} sel i (l : list A) x :
  x ∈ unselected sel i l ↔ ∃ k, l !! k = Some x ∧ (i + k)%nat ∉ sel.
Proof.
  revert i. induction l as [|y l IH]; intros i; simpl.
  - rewrite elem_of_nil. split; [done | by intros (k & ? & _)].
  - case_bool_decide as Hi.
    + rewrite IH. split.
      * intros (k & Hk & Hn). exists (S k). split; [done |].
        by replace (i + S k)%nat with (S i + k)%nat by lia.
      * intros ([|k] & Hk & Hn); simpl in Hk.
        -- rewrite Nat.add_0_r in Hn. done.
        -- exists k. split; [done |].
           by replace (S i + k)%nat with (i + S k)%nat by lia.
    + rewrite elem_of_cons, IH. split.
      * intros [-> | (k & Hk & Hn)].
        -- exists 0%nat. split; [done | by rewrite Nat.add_0_r].
        -- exists (S k). split; [done |].
           by replace (i + S k)%nat with (S i + k)%nat by lia.
      * intros ([|k] & Hk & Hn); simpl in Hk.
        -- left. congruence.
        -- right. exists k. split; [done |].
           by replace (S i + k)%nat with (i + S k)%nat by lia.
Qed.

Lemma remove_loop_descending ds : ∀ g,
  StronglySorted (λ a b, (b < a)%nat) ds →
  length (files_listbox g) = length (input_files g) →
  (∀ j, j ∈ ds → (j < length (input_files g))%nat) →
  foldl (λ (acc : option gui) index, acc ≫= remove_at index) (Some g) ds
  = Some (Gui (unselected ds 0 (input_files g))
              (unselected ds 0 (files_listbox g))).
Proof.
  induction ds as [|d ds IH]; intros g Hsort Hlen Hlt.
  - simpl. rewrite !unselected_all_below; [by destruct g | |];
      intros j Hj; by apply elem_of_nil in Hj.
  - apply StronglySorted_inv in Hsort as [Hsort Hd].
    rewrite Forall_forall in Hd.
    assert (Hdl : (d < length (input_files g))%nat) by (apply Hlt; left).
    assert (Hdb : (d < length (files_listbox g))%nat) by lia.
    cbn [foldl]. cbn [mbind option_bind]. unfold remove_at at 2.
    rewrite decide_True by done.
    rewrite IH; [| done | |]; cbn [input_files files_listbox].
    + f_equal.
      by rewrite (unselected_delete d ds (input_files g)),
        (unselected_delete d ds (files_listbox g)) by auto.
    + rewrite !length_delete by (by apply lookup_lt_is_Some_2). lia.
    + intros j Hj. rewrite length_delete by (by apply lookup_lt_is_Some_2).
      specialize (Hd j Hj). lia.
Qed.

Lemma sorted_reverse_strict selected :
  NoDup selected →
  StronglySorted (λ a b, (b < a)%nat) (sorted_reverse selected) ∧
  ∀ j, j ∈ sorted_reverse selected ↔ j ∈ selected.
Proof.
  intros Hnd. unfold sorted_reverse.
  set (R := λ a b : nat, (b ≤ a)%nat).
  assert (Htrans : Transitive R) by (intros a b c; unfold R; lia).
  assert (Htotal : Total R) by (intros a b; unfold R; lia).
  set (D := λ a b : nat, decide (b ≤ a)%nat).
  pose proof (@StronglySorted_merge_sort nat R D _ _ selected) as Hs.
  pose proof (@merge_sort_Permutation nat R D selected) as Hp.
  change (@merge_sort nat (λ a b, (b ≤ a)%nat) (λ a b, decide (b ≤ a)%nat)
            selected) with (@merge_sort nat R D selected).
  split; [| intros j; by rewrite Hp].
  assert (Hnd' : NoDup (@merge_sort nat R D selected)) by by rewrite Hp.
  revert Hs Hnd'. generalize (@merge_sort nat R D selected). intros l.
  induction 1 as [|a l Hl IH Ha]; intros Hnd'; [constructor |].
  apply NoDup_cons in Hnd' as [Hal Hnd']. constructor; [by apply IH |].
  rewrite Forall_forall in Ha |- *. intros b Hb.
  specialize (Ha b Hb). unfold R in Ha.
  assert (b ≠ a) by (intros ->; done). lia.
Qed.

(** X8: for a selection of distinct rows of the list, [remove_files]
    returns, and it removes from the path list and from the list box exactly
    the entries at the selected positions: deleting from the highest index
    down shifts no index that is still to be deleted.  The list stays free
    of duplicates and in step with the list box. *)
Theorem remove_files_removes_selected selected g :
  gui_ok g →
  NoDup selected →
  (∀ j, j ∈ selected → (j < length (input_files g))%nat) →
  ∃ g', remove_files selected g = Some g' ∧
        input_files g' = unselected selected 0 (input_files g) ∧
        files_listbox g' = unselected selected 0 (files_listbox g) ∧
        (∀ x, x ∈ input_files g' ↔
              ∃ k, input_files g !! k = Some x ∧ k ∉ selected) ∧
        gui_ok g'.
Proof.
  intros [Hnd Hlen] Hsel Hlt.
  destruct (sorted_reverse_strict selected Hsel) as [Hsort Hmem].
  eexists. split.
  - unfold remove_files. apply remove_loop_descending; [done | done |].
    intros j Hj. by apply Hlt, Hmem.
  - cbn [input_files files_listbox].
    rewrite !(unselected_ext (sorted_reverse selected) selected) by done.
    split; [done |]. split; [done |]. split.
    + intros x. by rewrite elem_of_unselected.
    + split; cbn [input_files files_listbox].
      * eapply sublist_NoDup; [done | apply unselected_sublist].
      * by apply unselected_length.
Qed.

Lemma remove_files_removes_selected_witness :
  ∃ g', remove_files [0; 2]%nat (Gui ["a"; "b"; "c"; "d"] ["a"; "b"; "c"; "d"])
        = Some g' ∧
        input_files g' = unselected [0; 2]%nat 0 ["a"; "b"; "c"; "d"] ∧
        files_listbox g' = unselected [0; 2]%nat 0 ["a"; "b"; "c"; "d"] ∧
        (∀ x, x ∈ input_files g' ↔
              ∃ k, ["a"; "b"; "c"; "d"] !! k = Some x ∧ k ∉ [0; 2]%nat) ∧
        gui_ok g'.
Proof.
  apply (remove_files_removes_selected [0; 2]%nat
           (Gui ["a"; "b"; "c"; "d"] ["a"; "b"; "c"; "d"])).
  - split; [compute_done | reflexivity].
  - compute_done.
  - intros j Hj. simpl.
    apply elem_of_cons in Hj as [-> | Hj]; [lia |].
    apply list_elem_of_singleton in Hj as ->. lia.
Defined.

(** ** Paths and downloads *)

Lemma basename_aux_rsplit acc p :
  basename_aux acc p
  = match rsplit1_aux "/" p with Some (_, a) => a | None => acc end.
Proof.
  revert acc. induction p as [|c r IH]; intros acc; simpl; [done |].
  destruct (Ascii.eqb c "/") eqn:Hc.
  - rewrite IH. by destruct (rsplit1_aux "/" r) as [[b a]|].
  - rewrite IH. by destruct (rsplit1_aux "/" r) as [[b a]|].
Qed.

(** [basename] is the part after the last slash, or the whole path. *)
Lemma basename_rsplit p :
  basename p = match rsplit1_aux "/" p with Some (_, a) => a | None => p end.
Proof. apply basename_aux_rsplit. Qed.

Lemma basename_no_slash p : contains "/" (basename p) = false.
Proof.
  rewrite basename_rsplit.
  destruct (rsplit1_aux "/" p) as [[b a]|] eqn:Hs.
  - by apply rsplit1_aux_Some in Hs as [_ Ha].
  - by apply rsplit1_aux_None.
Qed.

Lemma basename_suffix p :
  ∃ d, p = d ++ basename p ∧ (d = "" ∨ ends_with d "/" = true).
Proof.
  rewrite basename_rsplit.
  destruct (rsplit1_aux "/" p) as [[b a]|] eqn:Hs.
  - apply rsplit1_aux_Some in Hs as [Hp Ha]. exists (b ++ "/").
    split.
    + rewrite Hp. clear. induction b as [|c b IH]; [done |].
      change (String c (b ++ String "/" a) = String c ((b ++ "/") ++ a)).
      by f_equal.
    + right. apply ends_with_spec. by exists b.
  - exists "". by split; [| left].
Qed.

(** X9: the [output_filename] that the runner records when a job completes
    is the last component of the output path: it has no slash, and the
    output path is a directory prefix followed by it. *)
Theorem completed_output_filename e job_id a o c r p s :
  ∃ name d,
    job_record (runner_step e job_id a (R_update_completed o c r p) s).2 job_id
      !! "output_filename" = Some (VStr name) ∧
    contains "/" name = false ∧
    output_path a = d ++ name ∧ (d = "" ∨ ends_with d "/" = true).
Proof.
  destruct (basename_suffix (output_path a)) as (d & Hd & Hslash).
  exists (basename (output_path a)), d. split; [| split; [| done]].
  - cbn [runner_step snd]. by apply update_job_status_field.
  - apply basename_no_slash.
Qed.

Lemma download_file_sends s job_id d f n :
  download_file s job_id = Some (DL_send d f n) →
  job_status s job_id = Some (VStr "completed") ∧
  ∃ p, job_record s job_id !! "output_path" = Some (VStr p) ∧
       is_Some (files s !! p) ∧ d = dirname p ∧ f = basename p.
Proof.
  unfold download_file, job_status, job_record.
  set (job := deref s (get_job_status s job_id)).
  destruct (bool_decide (job = ∅)); [discriminate |]. cbn [orb].
  destruct (str_eqb (job !! "status") "completed") eqn:Hst; [|discriminate].
  cbn [negb]. apply str_eqb_true in Hst.
  destruct (job !! "output_path") as [[p| | |]|]; try discriminate.
  case_bool_decide; [discriminate |].
  destruct (files s !! p) as [sz|] eqn:Hf; [|discriminate].
  intros [= <- <- <-]. split; [done |]. exists p. repeat split; eauto.
Qed.

(** X10: [download_file] sends a file only for a job whose record reads
    [completed] and whose recorded output path names an existing file; the
    file name it sends is the last component of that path and has no
    slash. *)
Theorem download_only_completed s job_id d f n :
  download_file s job_id = Some (DL_send d f n) →
  job_status s job_id = Some (VStr "completed") ∧
  ∃ p, job_record s job_id !! "output_path" = Some (VStr p) ∧
       is_Some (files s !! p) ∧ d = dirname p ∧ f = basename p ∧
       contains "/" f = false.
Proof.
  intros Hd. destruct (download_file_sends s job_id d f n Hd)
    as (Hst & p & Hp & Hf & -> & ->).
  split; [done |]. exists p. repeat split; auto using basename_no_slash.
Qed.

Lemma download_only_completed_witness :
  job_status finished_job "job-1" = Some (VStr "completed") ∧
  ∃ p, job_record finished_job "job-1" !! "output_path" = Some (VStr p) ∧
       is_Some (files finished_job !! p) ∧ "out" = dirname p ∧
       "job-1_compressed_a.mp4" = basename p ∧
       contains "/" "job-1_compressed_a.mp4" = false.
Proof.
  apply (download_only_completed finished_job "job-1" "out"
           "job-1_compressed_a.mp4" (VStr "job-1_compressed_a.mp4")).
  by vm_compute.
Defined.

(** X11: once the runner has recorded [completed] for a job that was
    submitted with its output path, and while the output file exists, a
    download sends that file, from its directory, under the recorded
    [output_filename]. *)
Theorem completed_job_downloads e job_id a o c r p s sz :
  job_record s job_id !! "output_path" = Some (VStr (output_path a)) →
  output_path a ≠ "" →
  files s !! output_path a = Some sz →
  download_file (runner_step e job_id a (R_update_completed o c r p) s).2 job_id
  = Some (DL_send (dirname (output_path a)) (basename (output_path a))
            (VStr (basename (output_path a)))).
Proof.
  intros Hp Hne Hf. cbn [runner_step snd].
  set (s' := update_job_status _ _ _ _ s).
  assert (Hrec : job_record s' job_id
                 = status_fields (now e) "completed" (completed_fields a o c r p)
                   ∪ job_record s job_id) by apply update_job_status_record.
  assert (Hst : job_record s' job_id !! "status" = Some (VStr "completed"))
    by by apply update_job_status_status.
  assert (Hname : job_record s' job_id !! "output_filename"
                  = Some (VStr (basename (output_path a))))
    by by apply update_job_status_field.
  assert (Hpath : job_record s' job_id !! "output_path"
                  = Some (VStr (output_path a))).
  { rewrite Hrec. rewrite lookup_union_r; [done |].
    unfold status_fields. rewrite lookup_union_None. split; by vm_compute. }
  unfold download_file. fold (job_record s' job_id).
  rewrite bool_decide_eq_false_2 by (intros He; by rewrite He in Hst).
  rewrite Hst, Hpath, Hname. cbn [orb negb str_eqb].
  rewrite bool_decide_eq_true_2 by done. cbn [negb].
  rewrite bool_decide_eq_false_2 by done.
  unfold s'. by rewrite update_job_status_files, Hf.
Qed.

Lemma completed_job_downloads_witness :
  download_file
    (runner_step (quiet 40) "job-1" job1
       (R_update_completed 100 10 (VFloat 10) (VFloat 90))
       (set_files {["out/job-1_compressed_a.mp4" := 10485760%N]}
          (update_job_status 10 "job-1" "queued"
             (submit_fields "a.mp4" job1 []) empty_state))).2 "job-1"
  = Some (DL_send (dirname (output_path job1)) (basename (output_path job1))
            (VStr (basename (output_path job1)))).
Proof.
  apply (completed_job_downloads (quiet 40) "job-1" job1 100 10 (VFloat 10)
           (VFloat 90) _ 10485760%N); [by vm_compute | discriminate | by vm_compute].
Defined.

(** ** The job list *)

Lemma clean_old_jobs_entries t s s' :
  clean_old_jobs t s = Some s' →
  heap s' = heap s ∧ next_loc s' = next_loc s ∧
  ∀ job_id, active_jobs s' !! job_id = None ∨
            active_jobs s' !! job_id = active_jobs s !! job_id.
Proof.
  unfold clean_old_jobs. generalize (map_to_list (active_jobs s)).*1.
  intros ks. revert s. induction ks as [|k ks IH]; intros s Hrun.
  - injection Hrun as <-. repeat split. by right.
  - rewrite clean_loop_cons in Hrun.
    destruct (clean_one t s k) as [s1|] eqn:H1; [|discriminate].
    cbn [mbind option_bind] in Hrun.
    destruct (IH s1 Hrun) as (Hh & Hn & Hl).
    unfold clean_one in H1.
    destruct (active_jobs s !! k) as [l|] eqn:Hk; [|discriminate].
    cbn [mbind option_bind] in H1.
    destruct (expired t (deref s (Some l))) as [[]|]; [| |discriminate];
      injection H1 as <-; cbn [heap next_loc active_jobs set_jobs] in *.
    + repeat split; [done | done |]. intros id.
      destruct (Hl id) as [H | H]; [by left |]. rewrite H.
      destruct (decide (id = k)) as [->|Hne].
      * left. apply lookup_delete_eq.
      * right. by apply lookup_delete_ne.
    + by repeat split.
Qed.

(** X12: in every state the server reaches, [list_jobs] returns; the map it
    returns holds, with their records as they are, exactly the jobs that are
    not both terminal and past the retention window.  A job that is queued or
    processing is always listed. *)
Theorem list_jobs_lists t y :
  reachable y →
  ∃ listing s', list_jobs t (shared y) = Some (listing, s') ∧
    (∀ job_id l, active_jobs (shared y) !! job_id = Some l →
       let job := deref (shared y) (Some l) in
       (is_terminal job ∧ past_retention t job → listing !! job_id = None) ∧
       (¬ (is_terminal job ∧ past_retention t job) →
        listing !! job_id = Some job)) ∧
    (∀ job_id, active_jobs (shared y) !! job_id = None →
       listing !! job_id = None).
Proof.
  intros Hy. set (s := shared y).
  destruct (clean_old_jobs_lookup t s (reachable_stamps_numeric y Hy))
    as (s' & Hrun & (Hh & _) & Hl).
  exists ((λ l, deref s' (Some l)) <$> active_jobs s'), s'.
  unfold list_jobs. rewrite Hrun. split; [done |].
  assert (Hd : ∀ l, deref s' (Some l) = deref s (Some l)).
  { intros l. unfold deref. by rewrite Hh. }
  split.
  - intros id l Hid. rewrite lookup_fmap, Hl. unfold sweep_one.
    rewrite Hid. cbn [mbind option_bind].
    rewrite <- expired_true_iff. split; intros He.
    + by rewrite bool_decide_eq_true_2.
    + rewrite bool_decide_eq_false_2 by done. cbn [fmap option_fmap option_map].
      by rewrite Hd.
  - intros id Hid. rewrite lookup_fmap, Hl. unfold sweep_one. by rewrite Hid.
Qed.

Lemma list_jobs_lists_witness :
  let y := after one_done_one_running init in
  status_of y "job-1" = Some (VStr "completed") ∧
  status_of y "job-2" = Some (VStr "processing") ∧
  ∃ listing s', list_jobs 5000 (shared y) = Some (listing, s') ∧
    (∀ job_id l, active_jobs (shared y) !! job_id = Some l →
       let job := deref (shared y) (Some l) in
       (is_terminal job ∧ past_retention 5000 job → listing !! job_id = None) ∧
       (¬ (is_terminal job ∧ past_retention 5000 job) →
        listing !! job_id = Some job)) ∧
    (∀ job_id, active_jobs (shared y) !! job_id = None →
       listing !! job_id = None) ∧
    listing !! "job-1" = None ∧
    listing !! "job-2" = Some (job_record (shared y) "job-2") ∧
    listing !! "job-3" = None.
Proof.
  intros y.
  split; [vm_compute; reflexivity |]. split; [vm_compute; reflexivity |].
  destruct (list_jobs_lists 5000 y) as (listing & s' & Hrun & Hin & Hout).
  { exists one_done_one_running. vm_compute; reflexivity. }
  exists listing, s'.
  split; [exact Hrun |]. split; [exact Hin |]. split; [exact Hout |].
  split; [| split].
  - assert (H0 : active_jobs (shared y) !! "job-1" = Some 0%nat)
      by (vm_compute; reflexivity).
    destruct (Hin "job-1" 0%nat H0) as [H1 _].
    apply H1. split.
    + left. vm_compute; reflexivity.
    + exists 205%Q. split; vm_compute; reflexivity.
  - assert (H0 : active_jobs (shared y) !! "job-2" = Some 1%nat)
      by (vm_compute; reflexivity).
    destruct (Hin "job-2" 1%nat H0) as [_ H1].
    assert (Hs : deref (shared y) (Some 1%nat) !! "status"
                 = Some (VStr "processing")) by (vm_compute; reflexivity).
    assert (Hj : job_record (shared y) "job-2" = deref (shared y) (Some 1%nat)).
    { unfold job_record, get_job_status. rewrite H0. reflexivity. }
    rewrite Hj. apply H1.
    intros [[H | [H | H]] _]; rewrite Hs in H; discriminate.
  - apply Hout. vm_compute; reflexivity.
Defined.

(** ** Well-formed registries *)

Lemma registry_wf_empty : registry_wf empty_state.
Proof.
  split.
  - intros id l H. simpl in H. by rewrite lookup_empty in H.
  - intros id1 id2 l H. simpl in H. by rewrite lookup_empty in H.
Qed.

Lemma registry_wf_update t job_id status kwargs s :
  registry_wf s → registry_wf (update_job_status t job_id status kwargs s).
Proof.
  intros [Hb Hinj]. unfold update_job_status.
  destruct (active_jobs s !! job_id) as [l0|] eqn:Hl.
  - rewrite Hl. split; cbn [active_jobs next_loc heap set_heap]; [|done].
    intros id l Hid. destruct (Hb id l Hid) as [Hlt Hsome]. split; [done |].
    destruct (decide (l = l0)) as [->|Hne].
    + rewrite lookup_insert_eq. eauto.
    + by rewrite lookup_insert_ne.
  - cbn [active_jobs set_jobs]. rewrite lookup_insert_eq.
    split; cbn [active_jobs next_loc heap set_heap set_jobs].
    + intros id l Hid. destruct (decide (id = job_id)) as [->|Hne].
      * rewrite lookup_insert_eq in Hid. injection Hid as <-.
        split; [lia |]. rewrite lookup_insert_eq. eauto.
      * rewrite lookup_insert_ne in Hid by done.
        destruct (Hb id l Hid) as [Hlt Hsome]. split; [lia |].
        rewrite !lookup_insert_ne by lia. done.
    + intros id1 id2 l H1 H2.
      destruct (decide (id1 = job_id)) as [->|Hne1];
        destruct (decide (id2 = job_id)) as [->|Hne2]; [done | | |].
      * rewrite lookup_insert_eq in H1. injection H1 as <-.
        rewrite lookup_insert_ne in H2 by done.
        destruct (Hb id2 _ H2) as [Hlt _]. lia.
      * rewrite lookup_insert_eq in H2. injection H2 as <-.
        rewrite lookup_insert_ne in H1 by done.
        destruct (Hb id1 _ H1) as [Hlt _]. lia.
      * rewrite lookup_insert_ne in H1, H2 by done. by apply (Hinj id1 id2 l).
Qed.

(** An update of one job leaves the registry entry and the record of every
    other job as they were. *)
Lemma update_job_status_frame t job_id status kwargs s other :
  registry_wf s → other ≠ job_id →
  active_jobs (update_job_status t job_id status kwargs s) !! other
  = active_jobs s !! other ∧
  job_record (update_job_status t job_id status kwargs s) other
  = job_record s other.
Proof.
  intros [Hb Hinj] Hne. unfold update_job_status, job_record, get_job_status.
  destruct (active_jobs s !! job_id) as [l0|] eqn:Hl.
  - rewrite Hl. cbn [active_jobs heap set_heap]. split; [done |].
    destruct (active_jobs s !! other) as [l|] eqn:Ho; [|done].
    cbn [deref heap set_heap]. rewrite lookup_insert_ne; [done |].
    intros ->. apply Hne. by apply (Hinj other job_id l).
  - cbn [active_jobs set_jobs]. rewrite lookup_insert_eq.
    cbn [active_jobs heap set_heap set_jobs].
    rewrite lookup_insert_ne by done. split; [done |].
    destruct (active_jobs s !! other) as [l|] eqn:Ho; [|done].
    cbn [deref heap set_heap]. destruct (Hb other l Ho) as [Hlt _].
    by rewrite !lookup_insert_ne by lia.
Qed.

Lemma registry_wf_same s s' :
  heap s' = heap s → next_loc s' = next_loc s →
  (∀ job_id, active_jobs s' !! job_id = None ∨
             active_jobs s' !! job_id = active_jobs s !! job_id) →
  registry_wf s → registry_wf s'.
Proof.
  intros Hh Hn Hl [Hb Hinj]. split.
  - intros id l Hid. rewrite Hh, Hn. apply (Hb id).
    destruct (Hl id) as [H | H]; congruence.
  - intros id1 id2 l H1 H2. apply (Hinj id1 id2 l).
    + destruct (Hl id1) as [H | H]; congruence.
    + destruct (Hl id2) as [H | H]; congruence.
Qed.

Lemma registry_wf_runner_step e job_id a pc s :
  registry_wf s → registry_wf (runner_step e job_id a pc s).2.
Proof.
  intros Hs. destruct pc; cbn [runner_step snd]; try done;
    try (by apply registry_wf_update).
  - by destruct (get_video_info e s (input_path a)).
  - by destruct (popen e).
  - by destruct (communicate e) as [[rc err]|].
  - destruct (str_eqb _ _); [done |]. by destruct (bool_decide _).
  - by destruct (files s !! output_path a).
  - by destruct (remove_raises e).
  - destruct (get_video_info e s (output_path a)) as [i|]; [|done].
    destruct (compression_ratio _ _); [|done].
    by destruct (compression_percent _ _).
Qed.

Lemma registry_wf_cancel_step e job_id pc s :
  registry_wf s → registry_wf (cancel_step e job_id pc s).2.
Proof.
  intros Hs. destruct pc; cbn [cancel_step snd]; try done.
  - by destruct (bool_decide _).
  - by destruct (str_in _ _).
  - by apply registry_wf_update.
Qed.

(** The two kinds of thread steps, read off [step]. *)
Lemma step_runner_inv job_id e y y' :
  step (LRunner job_id e) y = Some y' →
  ∃ a pc, runners y !! job_id = Some (a, pc) ∧ pc ≠ R_done ∧
    y' = Sys (runner_step e job_id a pc (shared y)).2
             (<[job_id := (a, (runner_step e job_id a pc (shared y)).1)]>
                (runners y))
             (requests y).
Proof.
  cbn [step]. destruct (runners y !! job_id) as [[a pc]|]; [|discriminate].
  intros Hstep. exists a, pc. split; [done |].
  destruct (runner_step e job_id a pc (shared y)) as [pc' s'] eqn:Hrs.
  destruct pc; try discriminate; by injection Hstep as <-.
Qed.

Lemma step_cancel_inv rid e y y' :
  step (LCancel rid e) y = Some y' →
  ∃ job_id pc, requests y !! rid = Some (job_id, pc) ∧
    y' = Sys (cancel_step e job_id pc (shared y)).2 (runners y)
             (<[rid := (job_id, (cancel_step e job_id pc (shared y)).1)]>
                (requests y)).
Proof.
  cbn [step]. destruct (requests y !! rid) as [[id pc]|]; [|discriminate].
  intros Hstep. exists id, pc. split; [done |].
  destruct (cancel_step e id pc (shared y)) as [pc' s'] eqn:Hcs.
  destruct pc; try discriminate; by injection Hstep as <-.
Qed.

Lemma registry_wf_step l y y' :
  registry_wf (shared y) → step l y = Some y' → registry_wf (shared y').
Proof.
  intros Hs Hstep.
  destruct l as [t id fn a opts|id e|rid id|rid e|t|path sz].
  - cbn [step] in Hstep. destruct (runners y !! id); [discriminate |].
    injection Hstep as <-. by apply registry_wf_update.
  - apply step_runner_inv in Hstep as (a & pc & _ & _ & ->).
    by apply registry_wf_runner_step.
  - cbn [step] in Hstep. destruct (requests y !! rid); [discriminate |].
    by injection Hstep as <-.
  - apply step_cancel_inv in Hstep as (id & pc & _ & ->).
    by apply registry_wf_cancel_step.
  - cbn [step] in Hstep.
    destruct (clean_old_jobs t (shared y)) as [s'|] eqn:Hc; [|discriminate].
    injection Hstep as <-. cbn [shared].
    destruct (clean_old_jobs_entries t _ _ Hc) as (Hh & Hn & Hl).
    by apply (registry_wf_same (shared y)).
  - cbn [step] in Hstep. injection Hstep as <-. exact Hs.
Qed.

Lemma reachable_registry_wf y : reachable y → registry_wf (shared y).
Proof.
  revert y. apply (reachable_ind (λ y, registry_wf (shared y))).
  - apply registry_wf_empty.
  - intros l y0 y' _ Hs Hstep. by apply (registry_wf_step l y0).
Qed.

(** ** Jobs do not disturb one another *)

Lemma runner_step_frame e job_id a pc s other :
  registry_wf s → other ≠ job_id →
  active_jobs (runner_step e job_id a pc s).2 !! other = active_jobs s !! other ∧
  job_record (runner_step e job_id a pc s).2 other = job_record s other ∧
  active_processes (runner_step e job_id a pc s).2 !! other
  = active_processes s !! other.
Proof.
  intros Hs Hne. rewrite runner_step_processes.
  assert (Hp : match pc with
               | R_register _ p => <[job_id := p]> (active_processes s)
               | R_unregister _ _ _ | R_except_unregister =>
                   delete job_id (active_processes s)
               | _ => active_processes s
               end !! other = active_processes s !! other).
  { destruct pc; try done;
      by rewrite ?lookup_insert_ne, ?lookup_delete_ne by done. }
  rewrite Hp. clear Hp.
  assert (Hu : ∀ t st kw,
             active_jobs (update_job_status t job_id st kw s) !! other
             = active_jobs s !! other ∧
             job_record (update_job_status t job_id st kw s) other
             = job_record s other ∧
             active_processes s !! other = active_processes s !! other).
  { intros t st kw.
    destruct (update_job_status_frame t job_id st kw s other Hs Hne).
    by repeat split. }
  destruct pc; cbn [runner_step snd]; try done; try apply Hu.
  - by destruct (get_video_info e s (input_path a)).
  - by destruct (popen e).
  - by destruct (communicate e) as [[rc err]|].
  - destruct (str_eqb _ _); [done |]. by destruct (bool_decide _).
  - by destruct (files s !! output_path a).
  - by destruct (remove_raises e).
  - destruct (get_video_info e s (output_path a)) as [i|]; [|done].
    destruct (compression_ratio _ _); [|done].
    by destruct (compression_percent _ _).
Qed.

Lemma cancel_step_frame e job_id pc s other :
  registry_wf s → other ≠ job_id →
  active_jobs (cancel_step e job_id pc s).2 !! other = active_jobs s !! other ∧
  job_record (cancel_step e job_id pc s).2 other = job_record s other ∧
  active_processes (cancel_step e job_id pc s).2 !! other
  = active_processes s !! other.
Proof.
  intros Hs Hne. rewrite cancel_step_processes.
  destruct pc; cbn [cancel_step snd]; try done.
  - by destruct (bool_decide _).
  - by destruct (str_in _ _).
  - destruct (update_job_status_frame (now e) job_id "cancelled"
                {["message" := VStr "Job cancelled by user"]} s other Hs Hne).
    by repeat split.
Qed.

(** X13: in every state the server reaches, a step of the runner of one job,
    and a step of a cancel request for one job, leave the record and the
    process handle of every other job exactly as they were: a failure or a
    cancellation of one job never shows in another. *)
Theorem other_jobs_untouched y y' job_id other :
  reachable y → other ≠ job_id →
  (∃ e, step (LRunner job_id e) y = Some y') ∨
  (∃ rid e pc, requests y !! rid = Some (job_id, pc) ∧
               step (LCancel rid e) y = Some y') →
  job_record (shared y') other = job_record (shared y) other ∧
  active_processes (shared y') !! other = active_processes (shared y) !! other.
Proof.
  intros Hy Hne Hstep. pose proof (reachable_registry_wf y Hy) as Hwf.
  destruct Hstep as [[e Hstep] | (rid & e & pc & Hreq & Hstep)].
  - apply step_runner_inv in Hstep as (a & pc & _ & _ & ->). cbn [shared].
    by destruct (runner_step_frame e job_id a pc (shared y) other Hwf Hne)
      as (_ & ? & ?).
  - apply step_cancel_inv in Hstep as (id & pc' & Hreq' & ->). cbn [shared].
    rewrite Hreq in Hreq'. injection Hreq' as <- <-.
    by destruct (cancel_step_frame e job_id pc (shared y) other Hwf Hne)
      as (_ & ? & ?).
Qed.

Lemma other_jobs_untouched_witness :
  let y := after both_running init in
  let y1 := after [LRunner "job-1" (quiet 127)] y in
  let y2 := after [LCancel 0 (quiet 131)] y in
  (status_of y "job-2" = Some (VStr "processing") ∧
   snd <$> runners y !! "job-2"
   = Some (R_communicate (size_mb_of_bytes 2097152) (Process 4343)) ∧
   active_processes (shared y) !! "job-2" = Some (Process 4343) ∧
   active_processes (shared y) !! "job-1" = Some (Process 4242) ∧
   active_processes (shared y1) !! "job-1" = None ∧
   status_of y2 "job-1" = Some (VStr "cancelled")) ∧
  (job_record (shared y1) "job-2" = job_record (shared y) "job-2" ∧
   active_processes (shared y1) !! "job-2"
   = active_processes (shared y) !! "job-2") ∧
  (job_record (shared y2) "job-2" = job_record (shared y) "job-2" ∧
   active_processes (shared y2) !! "job-2"
   = active_processes (shared y) !! "job-2").
Proof.
  intros y y1 y2.
  assert (Hy : reachable y).
  { exists both_running. vm_compute; reflexivity. }
  split; [| split].
  - repeat (apply conj; [vm_compute; reflexivity |]). vm_compute; reflexivity.
  - apply (other_jobs_untouched y y1 "job-1" "job-2");
      [exact Hy | discriminate |].
    left. exists (quiet 127). vm_compute; reflexivity.
  - apply (other_jobs_untouched y y2 "job-1" "job-2");
      [exact Hy | discriminate |].
    right. exists 0%nat, (quiet 131), (K_update true).
    split; vm_compute; reflexivity.
Defined.

(** ** The statuses a record can show *)

Lemma heap_statuses_update t job_id status kwargs s :
  status ∈ statuses → kwargs !! "status" = None →
  heap_statuses s → heap_statuses (update_job_status t job_id status kwargs s).
Proof.
  intros Hst Hk Hh l d. unfold update_job_status.
  assert (Hnew : ∀ old, ∃ st,
            (status_fields t status kwargs ∪ old) !! "status" = Some (VStr st) ∧
            st ∈ statuses).
  { intros old. exists status. split; [| done].
    apply lookup_union_Some_l. by apply status_fields_status. }
  destruct (active_jobs s !! job_id) as [l0|] eqn:Hl; cbn [active_jobs set_jobs].
  - rewrite Hl. cbn [heap set_heap]. intros Hd.
    destruct (decide (l = l0)) as [->|Hne].
    + rewrite lookup_insert_eq in Hd. injection Hd as <-. apply Hnew.
    + rewrite lookup_insert_ne in Hd by done. by apply (Hh l).
  - rewrite lookup_insert_eq. cbn [heap set_heap set_jobs]. intros Hd.
    destruct (decide (l = next_loc s)) as [->|Hne].
    + rewrite lookup_insert_eq in Hd. injection Hd as <-. apply Hnew.
    + rewrite !lookup_insert_ne in Hd by done. by apply (Hh l).
Qed.

Lemma heap_statuses_runner_step e job_id a pc s :
  heap_statuses s → heap_statuses (runner_step e job_id a pc s).2.
Proof.
  intros Hs. destruct pc; cbn [runner_step snd]; try done;
    try (apply heap_statuses_update; [compute_done | by vm_compute | done]).
  - by destruct (get_video_info e s (input_path a)).
  - by destruct (popen e).
  - by destruct (communicate e) as [[rc err]|].
  - destruct (str_eqb _ _); [done |]. by destruct (bool_decide _).
  - by destruct (files s !! output_path a).
  - by destruct (remove_raises e).
  - destruct (get_video_info e s (output_path a)) as [i|]; [|done].
    destruct (compression_ratio _ _); [|done].
    by destruct (compression_percent _ _).
Qed.

Lemma heap_statuses_cancel_step e job_id pc s :
  heap_statuses s → heap_statuses (cancel_step e job_id pc s).2.
Proof.
  intros Hs. destruct pc; cbn [cancel_step snd]; try done.
  - by destruct (bool_decide _).
  - by destruct (str_in _ _).
  - apply heap_statuses_update; [compute_done | by vm_compute | done].
Qed.

Lemma heap_statuses_step l y y' :
  heap_statuses (shared y) → step l y = Some y' → heap_statuses (shared y').
Proof.
  intros Hs Hstep.
  destruct l as [t id fn a opts|id e|rid id|rid e|t|path sz].
  - cbn [step] in Hstep. destruct (runners y !! id); [discriminate |].
    injection Hstep as <-.
    apply heap_statuses_update; [compute_done | by vm_compute | done].
  - apply step_runner_inv in Hstep as (a & pc & _ & _ & ->).
    by apply heap_statuses_runner_step.
  - cbn [step] in Hstep. destruct (requests y !! rid); [discriminate |].
    by injection Hstep as <-.
  - apply step_cancel_inv in Hstep as (id & pc & _ & ->).
    by apply heap_statuses_cancel_step.
  - cbn [step] in Hstep.
    destruct (clean_old_jobs t (shared y)) as [s'|] eqn:Hc; [|discriminate].
    injection Hstep as <-. cbn [shared].
    destruct (clean_old_jobs_entries t _ _ Hc) as (Hh & _).
    intros l d. rewrite Hh. apply Hs.
  - cbn [step] in Hstep. injection Hstep as <-. exact Hs.
Qed.

(** X14: in every state the server reaches, every job in the registry has
    a record whose status is one of queued, processing, completed, failed
    and cancelled; no record is ever without a status. *)
Theorem registered_job_has_status y job_id l :
  reachable y → active_jobs (shared y) !! job_id = Some l →
  ∃ st, job_status (shared y) job_id = Some (VStr st) ∧ st ∈ statuses.
Proof.
  intros Hy Hid.
  assert (Hh : heap_statuses (shared y)).
  { clear Hid. revert y Hy.
    apply (reachable_ind (λ y, heap_statuses (shared y))).
    - intros l0 d Hd. simpl in Hd. by rewrite lookup_empty in Hd.
    - intros lb y0 y' _ Hs Hstep. by apply (heap_statuses_step lb y0). }
  destruct (reachable_registry_wf y Hy) as [Hb _].
  destruct (Hb job_id l Hid) as [_ [d Hd]].
  unfold job_status, job_record, get_job_status. rewrite Hid.
  cbn [deref]. rewrite Hd. cbn [default]. by apply (Hh l).
Qed.

Lemma registered_job_has_status_witness :
  ∃ st, job_status (shared (after cancelled_then_run init)) "job-1"
        = Some (VStr st) ∧ st ∈ statuses.
Proof.
  apply (registered_job_has_status (after cancelled_then_run init) "job-1" 0%nat).
  - exists cancelled_then_run. by vm_compute.
  - by vm_compute.
Defined.

(** ** A finished runner leaves a terminal job *)

Lemma settled_same s s' job_id :
  active_jobs s' !! job_id = active_jobs s !! job_id →
  job_record s' job_id = job_record s job_id →
  settled s job_id → settled s' job_id.
Proof. unfold settled. intros -> ->. done. Qed.

Lemma runner_inv_same s s' job_id pc :
  active_jobs s' !! job_id = active_jobs s !! job_id →
  job_record s' job_id = job_record s job_id →
  runner_inv s job_id pc → runner_inv s' job_id pc.
Proof.
  intros Hj Hr. destruct pc; cbn [runner_inv]; try done;
    try (by apply settled_same).
  intros [H | H]; [left; congruence | right; by apply (settled_same s)].
Qed.

Lemma runner_inv_gone s job_id pc :
  active_jobs s !! job_id = None → runner_inv s job_id pc.
Proof.
  intros Hn. destruct pc; cbn [runner_inv]; try done; try (by left).
  right. by left.
Qed.

Lemma settled_update t job_id status kwargs s :
  status ∈ terminal_statuses → kwargs !! "status" = None →
  settled (update_job_status t job_id status kwargs s) job_id.
Proof.
  intros Hst Hk. right. apply str_in_terminal.
  fold (job_status (update_job_status t job_id status kwargs s) job_id).
  rewrite update_job_status_status by done.
  unfold str_in. apply existsb_exists. exists status.
  split; [by apply list_elem_of_In | by apply str_eqb_true].
Qed.

Lemma runner_inv_update t job_id status kwargs s pc :
  status ∈ terminal_statuses → kwargs !! "status" = None →
  runner_inv s job_id pc →
  runner_inv (update_job_status t job_id status kwargs s) job_id pc.
Proof.
  intros Hst Hk _. destruct pc; cbn [runner_inv]; try done;
    try (by apply settled_update).
  right. by apply settled_update.
Qed.

(** The runner's own step keeps what its program point says. *)
Lemma runner_inv_own_step e job_id a pc s :
  runner_inv s job_id pc →
  runner_inv (runner_step e job_id a pc s).2 job_id
             (runner_step e job_id a pc s).1.
Proof.
  intros Hinv. destruct pc; cbn [runner_step]; cbn [fst snd runner_inv];
    try done;
    try (apply settled_update; [compute_done | by vm_compute]).
  - by destruct (get_video_info e s (input_path a)).
  - by destruct (popen e).
  - by destruct (communicate e) as [[rc err]|].
  - by left.
  - destruct (str_eqb _ "cancelled") eqn:Hc.
    + cbn [fst snd runner_inv]. destruct Hinv as [Href | Hs]; [| done].
      right. apply str_in_terminal. unfold job_record, get_job_status.
      rewrite Href. apply str_eqb_true in Hc. by rewrite Hc.
    + by destruct (bool_decide _).
  - by destruct (files s !! output_path a).
  - by destruct (remove_raises e).
  - destruct (get_video_info e s (output_path a)) as [i|]; [|done].
    destruct (compression_ratio _ _); [|done].
    by destruct (compression_percent _ _).
Qed.

Lemma runner_inv_cancel_step e job_id kpc s pc :
  runner_inv s job_id pc →
  runner_inv (cancel_step e job_id kpc s).2 job_id pc.
Proof.
  intros Hinv. destruct kpc; cbn [cancel_step snd]; try done.
  - by destruct (bool_decide _).
  - by destruct (str_in _ _).
  - apply runner_inv_update; [compute_done | by vm_compute | done].
Qed.

Lemma runners_inv_step l y y' :
  registry_wf (shared y) → runners_inv y → step l y = Some y' →
  runners_inv y'.
Proof.
  intros Hwf Hinv Hstep.
  destruct l as [t id fn a opts|id e|rid id|rid e|t|path sz].
  - cbn [step] in Hstep.
    destruct (runners y !! id) as [?|] eqn:Hr; [discriminate |].
    injection Hstep as <-. intros j b pc. cbn [shared runners].
    destruct (decide (j = id)) as [->|Hne].
    + rewrite lookup_insert_eq. by intros [= <- <-].
    + rewrite lookup_insert_ne by done. intros Hj.
      destruct (update_job_status_frame t id "queued"
                  (submit_fields fn a opts) (shared y) j Hwf Hne) as [H1 H2].
      apply (runner_inv_same (shared y)); [done | done | by apply (Hinv j b)].
  - apply step_runner_inv in Hstep as (a & pc & Hr & _ & ->).
    intros j b pc'. cbn [shared runners].
    destruct (decide (j = id)) as [->|Hne].
    + rewrite lookup_insert_eq. intros [= <- <-].
      apply runner_inv_own_step. by apply (Hinv id a).
    + rewrite lookup_insert_ne by done. intros Hj.
      destruct (runner_step_frame e id a pc (shared y) j Hwf Hne)
        as (H1 & H2 & _).
      apply (runner_inv_same (shared y)); [done | done | by apply (Hinv j b)].
  - cbn [step] in Hstep. destruct (requests y !! rid); [discriminate |].
    by injection Hstep as <-.
  - apply step_cancel_inv in Hstep as (id & kpc & _ & ->).
    intros j b pc Hj. cbn [shared runners] in *.
    destruct (decide (j = id)) as [->|Hne].
    + apply runner_inv_cancel_step. by apply (Hinv id b).
    + destruct (cancel_step_frame e id kpc (shared y) j Hwf Hne)
        as (H1 & H2 & _).
      apply (runner_inv_same (shared y)); [done | done | by apply (Hinv j b)].
  - cbn [step] in Hstep.
    destruct (clean_old_jobs t (shared y)) as [s'|] eqn:Hc; [|discriminate].
    injection Hstep as <-. intros j b pc Hj. cbn [shared runners] in *.
    destruct (clean_old_jobs_entries t _ _ Hc) as (Hh & _ & Hl).
    destruct (Hl j) as [Hgone | Hsame]; [by apply runner_inv_gone |].
    apply (runner_inv_same (shared y)); [done | | by apply (Hinv j b)].
    unfold job_record, get_job_status. rewrite Hsame.
    destruct (active_jobs (shared y) !! j); [| done]. cbn [deref].
    by rewrite Hh.
  - cbn [step] in Hstep. injection Hstep as <-.
    intros j b pc Hj. by apply (Hinv j b).
Qed.

Lemma reachable_runners_inv y : reachable y → runners_inv y.
Proof.
  revert y. apply (reachable_ind runners_inv).
  - intros j b pc Hj. simpl in Hj. by rewrite lookup_empty in Hj.
  - intros l y0 y' Hy0 Hinv Hstep.
    apply (runners_inv_step l y0); [by apply reachable_registry_wf | done | done].
Qed.

(** X15: in every state the server reaches, a job whose runner has finished
    is either gone from the registry or reads completed, failed or
    cancelled; whatever requests ran beside it, it is never left queued or
    processing. *)
Theorem finished_runner_terminal y job_id a :
  reachable y → runners y !! job_id = Some (a, R_done) →
  active_jobs (shared y) !! job_id = None ∨
  is_terminal (job_record (shared y) job_id).
Proof.
  intros Hy Hr. exact (reachable_runners_inv y Hy job_id a R_done Hr).
Qed.

Lemma finished_runner_terminal_witness :
  active_jobs (shared (after cancelled_then_run init)) !! "job-1" = None ∨
  is_terminal (job_record (shared (after cancelled_then_run init)) "job-1").
Proof.
  apply (finished_runner_terminal (after cancelled_then_run init) "job-1" job1).
  - exists cancelled_then_run. by vm_compute.
  - by vm_compute.
Defined.

(** ** The runner ends *)

(** X16: every step of a runner that has not finished lowers [steps_left],
    whatever the shared state and the oracle are; a runner therefore ends
    after at most 12 steps of its own, however the other threads are
    scheduled between them. *)
Theorem runner_step_decreases e job_id a pc s :
  pc ≠ R_done →
  (steps_left (runner_step e job_id a pc s).1 < steps_left pc)%nat.
Proof.
  intros Hpc. destruct pc; cbn [runner_step]; cbn [fst steps_left];
    try lia; try done.
  - destruct (get_video_info e s (input_path a)); cbn [fst steps_left]; lia.
  - destruct (popen e); cbn [fst steps_left]; lia.
  - destruct (communicate e) as [[rc err]|]; cbn [fst steps_left]; lia.
  - destruct (str_eqb _ _); [cbn [fst steps_left]; lia |].
    destruct (bool_decide _); cbn [fst steps_left]; lia.
  - destruct (files s !! output_path a); cbn [fst steps_left]; lia.
  - destruct (remove_raises e); cbn [fst steps_left]; lia.
  - destruct (get_video_info e s (output_path a)) as [i|];
      [| cbn [fst steps_left]; lia].
    destruct (compression_ratio _ _); [| cbn [fst steps_left]; lia].
    destruct (compression_percent _ _); cbn [fst steps_left]; lia.
Qed.

Lemma runner_step_decreases_witness :
  (steps_left (runner_step (quiet 1) "job-1" job1 R_start empty_state).1
   < steps_left R_start)%nat.
Proof.
  apply (runner_step_decreases (quiet 1) "job-1" job1 R_start empty_state).
  discriminate.
Defined.

(** ** What an update keeps *)

(** X17: [update_job_status] merges: afterwards the record holds the new
    status, the clock reading under [updated_at], every given field, and
    every other field with the value it had before. *)
Theorem update_job_status_merges t job_id status kwargs s k :
  kwargs !! "status" = None → kwargs !! "updated_at" = None →
  job_record (update_job_status t job_id status kwargs s) job_id !! k
  = if decide (k = "status") then Some (VStr status)
    else if decide (k = "updated_at") then Some (VFloat t)
    else match kwargs !! k with
         | Some v => Some v
         | None => job_record s job_id !! k
         end.
Proof.
  intros Hs Hu. rewrite update_job_status_record.
  destruct (decide (k = "status")) as [->|Hks].
  { apply lookup_union_Some_l. by apply status_fields_status. }
  destruct (decide (k = "updated_at")) as [->|Hku].
  { apply lookup_union_Some_l. unfold status_fields.
    rewrite lookup_union_r by done.
    rewrite lookup_insert_ne by done. apply lookup_insert_eq. }
  destruct (kwargs !! k) as [v|] eqn:Hk.
  - apply lookup_union_Some_l. unfold status_fields.
    by apply lookup_union_Some_l.
  - rewrite lookup_union_r; [done |]. unfold status_fields.
    rewrite lookup_union_None. split; [done |].
    by rewrite !lookup_insert_ne, lookup_empty by done.
Qed.

Lemma update_job_status_merges_witness :
  let s := update_job_status 5 "job-1" "processing" {["progress" := VInt 10]}
             empty_state in
  let s' := update_job_status 7 "job-1" "failed" {["message" := VStr "boom"]} s in
  (job_record s "job-1" !! "status" = Some (VStr "processing") ∧
   job_record s "job-1" !! "updated_at" = Some (VFloat 5) ∧
   job_record s "job-1" !! "message" = None ∧
   job_record s "job-1" !! "progress" = Some (VInt 10)) ∧
  job_record s' "job-1" !! "status" = Some (VStr "failed") ∧
  job_record s' "job-1" !! "updated_at" = Some (VFloat 7) ∧
  job_record s' "job-1" !! "message" = Some (VStr "boom") ∧
  job_record s' "job-1" !! "progress" = Some (VInt 10).
Proof.
  intros s s'.
  split; [repeat (apply conj; [vm_compute; reflexivity |]);
          vm_compute; reflexivity |].
  unfold s'. repeat apply conj.
  - rewrite (update_job_status_merges 7 "job-1" "failed"
               {["message" := VStr "boom"]} s "status") by reflexivity.
    vm_compute; reflexivity.
  - rewrite (update_job_status_merges 7 "job-1" "failed"
               {["message" := VStr "boom"]} s "updated_at") by reflexivity.
    vm_compute; reflexivity.
  - rewrite (update_job_status_merges 7 "job-1" "failed"
               {["message" := VStr "boom"]} s "message") by reflexivity.
    vm_compute; reflexivity.
  - rewrite (update_job_status_merges 7 "job-1" "failed"
               {["message" := VStr "boom"]} s "progress") by reflexivity.
    vm_compute; reflexivity.
Defined.

(** ** Downloads in the running server *)

Lemma update_job_status_other_key t job_id status kwargs s k :
  kwargs !! k = None → k ≠ "status" → k ≠ "updated_at" →
  job_record (update_job_status t job_id status kwargs s) job_id !! k
  = job_record s job_id !! k.
Proof.
  intros Hk Hs Hu. rewrite update_job_status_record.
  rewrite lookup_union_r; [done |]. unfold status_fields.
  rewrite lookup_union_None. split; [done |].
  by rewrite !lookup_insert_ne, lookup_empty by done.
Qed.

Lemma job_fields_inv_same s s' job_id a pc :
  job_record s' job_id = job_record s job_id →
  job_fields_inv s job_id a pc → job_fields_inv s' job_id a pc.
Proof. unfold job_fields_inv, job_status. by intros ->. Qed.

Lemma job_fields_inv_gone s job_id a pc :
  active_jobs s !! job_id = None → job_fields_inv s job_id a pc.
Proof.
  intros Hn. unfold job_fields_inv, job_status, job_record, get_job_status.
  rewrite Hn. cbn [deref]. rewrite !lookup_empty. split; [by left | done].
Qed.

Lemma job_fields_inv_update t job_id status kwargs s a pc pc' :
  kwargs !! "status" = None → kwargs !! "output_path" = None →
  (status = "completed" → pc' = R_done) →
  job_fields_inv s job_id a pc →
  job_fields_inv (update_job_status t job_id status kwargs s) job_id a pc'.
Proof.
  intros Hs Ho Hdone [Hp _]. split.
  - by rewrite update_job_status_other_key.
  - rewrite update_job_status_status by done. intros [= ->]. by apply Hdone.
Qed.

Lemma job_fields_inv_pc s job_id a pc pc' :
  (pc = R_done → pc' = R_done) →
  job_fields_inv s job_id a pc → job_fields_inv s job_id a pc'.
Proof. intros Hpc [Hp Hst]. split; [done |]. intros H. by apply Hpc, Hst. Qed.

Lemma job_fields_inv_own_step e job_id a pc s :
  job_fields_inv s job_id a pc →
  job_fields_inv (runner_step e job_id a pc s).2 job_id a
                 (runner_step e job_id a pc s).1.
Proof.
  intros Hinv.
  assert (Hkeep : ∀ pc', (pc = R_done → pc' = R_done) →
                         job_fields_inv s job_id a pc')
    by (intros pc' Hpc; by apply (job_fields_inv_pc s job_id a pc)).
  assert (Hwrite : ∀ t st kw pc',
            kw !! "status" = None → kw !! "output_path" = None →
            (st = "completed" → pc' = R_done) →
            job_fields_inv (update_job_status t job_id st kw s) job_id a pc')
    by (intros; by apply (job_fields_inv_update _ _ _ _ _ a pc)).
  destruct pc; cbn [runner_step]; cbn [fst snd].
  - by apply Hwrite.
  - destruct (get_video_info e s (input_path a)); by apply Hkeep.
  - by apply Hwrite.
  - destruct (popen e); by apply Hkeep.
  - apply (job_fields_inv_same s); [done | by apply Hkeep].
  - destruct (communicate e) as [[rc err]|]; by apply Hkeep.
  - apply (job_fields_inv_same s); [done | by apply Hkeep].
  - by apply Hkeep.
  - destruct (str_eqb _ _); [| destruct (bool_decide _)]; by apply Hkeep.
  - destruct (files s !! output_path a); by apply Hkeep.
  - destruct (remove_raises e); [by apply Hkeep |].
    apply (job_fields_inv_same s); [done | by apply Hkeep].
  - by apply Hwrite.
  - destruct (get_video_info e s (output_path a)) as [i|]; [| by apply Hkeep].
    destruct (compression_ratio _ _); [| by apply Hkeep].
    destruct (compression_percent _ _); by apply Hkeep.
  - by apply Hwrite.
  - by apply Hwrite.
  - apply (job_fields_inv_same s); [done | by apply Hkeep].
  - done.
Qed.

Lemma job_fields_inv_cancel_step e job_id kpc s a pc :
  job_fields_inv s job_id a pc →
  job_fields_inv (cancel_step e job_id kpc s).2 job_id a pc.
Proof.
  intros Hinv. destruct kpc; cbn [cancel_step snd]; try done.
  - by destruct (bool_decide _).
  - by destruct (str_in _ _).
  - by apply (job_fields_inv_update _ _ _ _ _ a pc).
Qed.

(** A cancel request gets past its checks only for a record it has seen. *)
Lemma cancel_step_has_seen e job_id kpc s :
  request_has_seen (cancel_step e job_id kpc s).1 = true →
  request_has_seen kpc = true ∨
  (kpc = K_get ∧ is_Some (active_jobs s !! job_id)).
Proof.
  destruct kpc as [|job|job|job| | |r]; cbn [cancel_step fst].
  - unfold get_job_status. destruct (active_jobs s !! job_id) eqn:Hj;
      cbn [request_has_seen]; [| done]. right. eauto.
  - destruct (bool_decide _); [done |]. destruct job; [by left | done].
  - destruct job as [l|]; [by left |].
    cbn [deref]. rewrite lookup_empty. done.
  - done.
  - by left.
  - done.
  - done.
Qed.

(** Only the last step of a cancel request writes, and it has seen the
    record. *)
Lemma cancel_step_writes e job_id kpc s :
  request_has_seen kpc = false →
  heap (cancel_step e job_id kpc s).2 = heap s ∧
  active_jobs (cancel_step e job_id kpc s).2 = active_jobs s.
Proof.
  destruct kpc as [|job|job|job| | |r]; cbn [cancel_step snd]; try done.
  - by destruct (bool_decide _).
  - by destruct (str_in _ _).
Qed.

Lemma served_inv_step l y y' :
  registry_wf (shared y) → served_inv y → step l y = Some y' → served_inv y'.
Proof.
  intros Hwf (Hreg & Hjob & Hreq) Hstep.
  destruct l as [t id fn a opts|id e|rid id|rid e|t|path sz].
  - (* submit *)
    cbn [step] in Hstep.
    destruct (runners y !! id) as [?|] eqn:Hr; [discriminate |].
    injection Hstep as <-. split; [| split]; cbn [shared runners requests].
    + intros j l Hj. destruct (decide (j = id)) as [->|Hne].
      * rewrite lookup_insert_eq. eauto.
      * rewrite lookup_insert_ne by done. apply (Hreg j l).
        destruct (update_job_status_frame t id "queued"
                    (submit_fields fn a opts) (shared y) j Hwf Hne) as [H1 _].
        by rewrite <- H1.
    + intros j b pc. destruct (decide (j = id)) as [->|Hne].
      * rewrite lookup_insert_eq. intros [= <- <-]. split.
        -- right. by apply update_job_status_field.
        -- by rewrite update_job_status_status.
      * rewrite lookup_insert_ne by done. intros Hj.
        destruct (update_job_status_frame t id "queued"
                    (submit_fields fn a opts) (shared y) j Hwf Hne) as [_ H2].
        apply (job_fields_inv_same (shared y)); [done | by apply Hjob].
    + intros r j kpc Hr' Hseen. destruct (Hreq r j kpc Hr' Hseen) as [x Hx].
      destruct (decide (j = id)) as [->|Hne].
      * rewrite lookup_insert_eq. eauto.
      * rewrite lookup_insert_ne by done. eauto.
  - (* a runner step *)
    apply step_runner_inv in Hstep as (a & pc & Hr & _ & ->).
    split; [| split]; cbn [shared runners requests].
    + intros j l Hj. destruct (decide (j = id)) as [->|Hne].
      * rewrite lookup_insert_eq. eauto.
      * rewrite lookup_insert_ne by done. apply (Hreg j l).
        destruct (runner_step_frame e id a pc (shared y) j Hwf Hne) as (H1 & _).
        by rewrite <- H1.
    + intros j b pc'. destruct (decide (j = id)) as [->|Hne].
      * rewrite lookup_insert_eq. intros [= <- <-].
        apply job_fields_inv_own_step. by apply Hjob.
      * rewrite lookup_insert_ne by done. intros Hj.
        destruct (runner_step_frame e id a pc (shared y) j Hwf Hne)
          as (_ & H2 & _).
        apply (job_fields_inv_same (shared y)); [done | by apply Hjob].
    + intros r j kpc Hr' Hseen. destruct (Hreq r j kpc Hr' Hseen) as [x Hx].
      destruct (decide (j = id)) as [->|Hne].
      * rewrite lookup_insert_eq. eauto.
      * rewrite lookup_insert_ne by done. eauto.
  - (* a cancel request arrives *)
    cbn [step] in Hstep.
    destruct (requests y !! rid) eqn:Hrid; [discriminate |].
    injection Hstep as <-. split; [done |]. split; [done |].
    cbn [shared runners requests]. intros r j kpc.
    destruct (decide (r = rid)) as [->|Hne].
    + rewrite lookup_insert_eq. by intros [= <- <-].
    + rewrite lookup_insert_ne by done. apply Hreq.
  - (* a cancel step *)
    apply step_cancel_inv in Hstep as (id & kpc & Hrid & ->).
    assert (Hown : request_has_seen kpc = true → is_Some (runners y !! id))
      by (by apply (Hreq rid)).
    assert (Hsame : request_has_seen kpc = false → ∀ j,
              active_jobs (cancel_step e id kpc (shared y)).2 !! j
              = active_jobs (shared y) !! j).
    { intros Hf j. by destruct (cancel_step_writes e id kpc (shared y) Hf)
        as [_ ->]. }
    split; [| split]; cbn [shared runners requests].
    + intros j l Hj. destruct (decide (j = id)) as [->|Hne].
      * destruct (request_has_seen kpc) eqn:Hseen; [by apply Hown |].
        rewrite Hsame in Hj by done. by apply (Hreg id l).
      * destruct (cancel_step_frame e id kpc (shared y) j Hwf Hne) as (H1 & _).
        rewrite H1 in Hj. by apply (Hreg j l).
    + intros j b pc Hj. destruct (decide (j = id)) as [->|Hne].
      * apply job_fields_inv_cancel_step. by apply Hjob.
      * destruct (cancel_step_frame e id kpc (shared y) j Hwf Hne)
          as (_ & H2 & _).
        apply (job_fields_inv_same (shared y)); [done | by apply Hjob].
    + intros r j kpc'. destruct (decide (r = rid)) as [->|Hne].
      * rewrite lookup_insert_eq. intros [= <- <-] Hseen.
        destruct (cancel_step_has_seen e id kpc (shared y) Hseen)
          as [H | [_ [l Hl]]]; [by apply Hown | by apply (Hreg id l)].
      * rewrite lookup_insert_ne by done. apply Hreq.
  - (* the janitor *)
    cbn [step] in Hstep.
    destruct (clean_old_jobs t (shared y)) as [s'|] eqn:Hc; [|discriminate].
    injection Hstep as <-.
    destruct (clean_old_jobs_entries t _ _ Hc) as (Hh & _ & Hl).
    split; [| split]; cbn [shared runners requests]; [| | done].
    + intros j l Hj. destruct (Hl j) as [H | H]; [congruence |].
      rewrite H in Hj. by apply (Hreg j l).
    + intros j b pc Hj.
      destruct (Hl j) as [H | H]; [by apply job_fields_inv_gone |].
      apply (job_fields_inv_same (shared y)); [| by apply Hjob].
      unfold job_record, get_job_status. rewrite H.
      destruct (active_jobs (shared y) !! j); [| done]. cbn [deref].
      by rewrite Hh.
  - (* a file changes *)
    cbn [step] in Hstep. by injection Hstep as <-.
Qed.

Lemma reachable_served_inv y : reachable y → served_inv y.
Proof.
  revert y. apply (reachable_ind served_inv).
  - split; [| split].
    + intros j l H. simpl in H. by rewrite lookup_empty in H.
    + intros j a pc H. simpl in H. by rewrite lookup_empty in H.
    + intros r j kpc H. simpl in H. by rewrite lookup_empty in H.
  - intros l y0 y' Hy0 Hinv Hstep.
    apply (served_inv_step l y0); [by apply reachable_registry_wf | done | done].
Qed.

(** X18: in every state the server reaches, a download is sent only for a
    job whose runner has finished and recorded [completed], and the file it
    sends is the output file that very job was submitted with. *)
Theorem download_serves_own_output y job_id d f n :
  reachable y →
  download_file (shared y) job_id = Some (DL_send d f n) →
  ∃ a, runners y !! job_id = Some (a, R_done) ∧
       job_status (shared y) job_id = Some (VStr "completed") ∧
       is_Some (files (shared y) !! output_path a) ∧
       d = dirname (output_path a) ∧ f = basename (output_path a).
Proof.
  intros Hy Hd.
  destruct (download_file_sends _ _ _ _ _ Hd) as (Hst & p & Hp & Hf & -> & ->).
  destruct (reachable_served_inv y Hy) as (Hreg & Hjob & _).
  destruct (active_jobs (shared y) !! job_id) as [l|] eqn:Hl.
  - destruct (Hreg job_id l Hl) as [[a pc] Hr].
    destruct (Hjob job_id a pc Hr) as [Hpath Hdone].
    rewrite (Hdone Hst) in Hr. exists a. split; [done |]. split; [done |].
    destruct Hpath as [Hnone | Hsome]; [congruence |].
    rewrite Hsome in Hp. injection Hp as <-. by repeat split.
  - unfold job_status, job_record, get_job_status in Hst. rewrite Hl in Hst.
    cbn [deref] in Hst. by rewrite lookup_empty in Hst.
Qed.

Lemma download_serves_own_output_witness :
  ∃ a, runners (after submitted_and_run init) !! "job-1" = Some (a, R_done) ∧
       job_status (shared (after submitted_and_run init)) "job-1"
       = Some (VStr "completed") ∧
       is_Some (files (shared (after submitted_and_run init)) !! output_path a) ∧
       "out" = dirname (output_path a) ∧
       "job-1_compressed_a.mp4" = basename (output_path a).
Proof.
  apply (download_serves_own_output (after submitted_and_run init) "job-1"
           "out" "job-1_compressed_a.mp4" (VStr "job-1_compressed_a.mp4")).
  - exists submitted_and_run. by vm_compute.
  - by vm_compute.
Defined.

(** ** Where a cancellation can be lost *)

Lemma runner_step_no_write e job_id a pc s :
  writes_status pc = false →
  heap (runner_step e job_id a pc s).2 = heap s ∧
  active_jobs (runner_step e job_id a pc s).2 = active_jobs s.
Proof.
  intros Hw. destruct pc; try discriminate Hw; cbn [runner_step snd];
    try done.
  - by destruct (get_video_info e s (input_path a)).
  - by destruct (popen e).
  - by destruct (communicate e) as [[rc err]|].
  - destruct (str_eqb _ _); [done |]. by destruct (bool_decide _).
  - by destruct (files s !! output_path a).
  - by destruct (remove_raises e).
  - destruct (get_video_info e s (output_path a)) as [i|]; [|done].
    destruct (compression_ratio _ _); [|done].
    by destruct (compression_percent _ _).
Qed.

Lemma job_status_same s s' job_id :
  heap s' = heap s → active_jobs s' = active_jobs s →
  job_status s' job_id = job_status s job_id.
Proof.
  intros Hh Hj. unfold job_status, job_record, get_job_status, deref.
  by rewrite Hh, Hj.
Qed.

Lemma cancel_step_keeps_cancelled e job_id kpc s :
  job_status s job_id = Some (VStr "cancelled") →
  job_status (cancel_step e job_id kpc s).2 job_id = Some (VStr "cancelled").
Proof.
  intros Hc. destruct kpc; cbn [cancel_step snd]; try done.
  - by destruct (bool_decide _).
  - by destruct (str_in _ _).
  - by apply update_job_status_status.
Qed.

(** X20: in every state the server reaches, a record that reads
    [cancelled] keeps reading [cancelled] through every step of every
    thread, or is removed by the janitor, with one exception: a step of
    the job's own runner from one of the five program points that write a
    status without looking (lines 119, 125, 193, 202, 216). *)
Theorem cancelled_is_kept_except_by_runner_writes y y' l job_id :
  reachable y →
  job_status (shared y) job_id = Some (VStr "cancelled") →
  step l y = Some y' →
  job_status (shared y') job_id = Some (VStr "cancelled") ∨
  active_jobs (shared y') !! job_id = None ∨
  ∃ e a pc, l = LRunner job_id e ∧ runners y !! job_id = Some (a, pc) ∧
            writes_status pc = true.
Proof.
  intros Hy Hc Hstep. pose proof (reachable_registry_wf y Hy) as Hwf.
  destruct (reachable_served_inv y Hy) as (Hreg & _ & _).
  assert (Hrun : is_Some (runners y !! job_id)).
  { destruct (active_jobs (shared y) !! job_id) as [l0|] eqn:Hl;
      [by apply (Hreg job_id l0) |].
    unfold job_status, job_record, get_job_status in Hc. rewrite Hl in Hc.
    cbn [deref] in Hc. by rewrite lookup_empty in Hc. }
  assert (Hother : ∀ s', job_record s' job_id = job_record (shared y) job_id →
                         job_status s' job_id = Some (VStr "cancelled")).
  { intros s' Hr. unfold job_status. by rewrite Hr. }
  destruct l as [t id fn a opts|id e|rid id|rid e|t|path sz].
  - cbn [step] in Hstep.
    destruct (runners y !! id) as [?|] eqn:Hr; [discriminate |].
    injection Hstep as <-. left. cbn [shared]. apply Hother.
    assert (Hne : job_id ≠ id).
    { intros ->. rewrite Hr in Hrun. by destruct Hrun. }
    by destruct (update_job_status_frame t id "queued"
                   (submit_fields fn a opts) (shared y) job_id Hwf Hne).
  - apply step_runner_inv in Hstep as (a & pc & Hr & _ & ->). cbn [shared].
    destruct (decide (job_id = id)) as [->|Hne].
    + destruct (writes_status pc) eqn:Hw.
      * right. right. by exists e, a, pc.
      * left. rewrite <- Hc.
        destruct (runner_step_no_write e id a pc (shared y) Hw) as [Hh Hj].
        by apply job_status_same.
    + left. apply Hother.
      by destruct (runner_step_frame e id a pc (shared y) job_id Hwf Hne)
        as (_ & ? & _).
  - cbn [step] in Hstep. destruct (requests y !! rid); [discriminate |].
    injection Hstep as <-. by left.
  - apply step_cancel_inv in Hstep as (id & kpc & _ & ->). cbn [shared].
    left. destruct (decide (job_id = id)) as [->|Hne].
    + by apply cancel_step_keeps_cancelled.
    + apply Hother.
      by destruct (cancel_step_frame e id kpc (shared y) job_id Hwf Hne)
        as (_ & ? & _).
  - cbn [step] in Hstep.
    destruct (clean_old_jobs t (shared y)) as [s'|] eqn:Hcl; [|discriminate].
    injection Hstep as <-. cbn [shared].
    destruct (clean_old_jobs_entries t _ _ Hcl) as (Hh & _ & Hl).
    destruct (Hl job_id) as [Hgone | Hsame]; [right; by left |].
    left. apply Hother. unfold job_record, get_job_status. rewrite Hsame.
    destruct (active_jobs (shared y) !! job_id); [| done]. cbn [deref].
    by rewrite Hh.
  - cbn [step] in Hstep. injection Hstep as <-. by left.
Qed.

Lemma cancelled_is_kept_except_by_runner_writes_witness :
  let y := after cancel_while_queued init in
  let y' := after [LRunner "job-1" (quiet 102)] y in
  job_status (shared y') "job-1" = Some (VStr "cancelled") ∨
  active_jobs (shared y') !! "job-1" = None ∨
  ∃ e a pc, LRunner "job-1" (quiet 102) = LRunner "job-1" e ∧
            runners y !! "job-1" = Some (a, pc) ∧ writes_status pc = true.
Proof.
  apply (cancelled_is_kept_except_by_runner_writes
           (after cancel_while_queued init)
           (after [LRunner "job-1" (quiet 102)] (after cancel_while_queued init))
           (LRunner "job-1" (quiet 102)) "job-1").
  - exists cancel_while_queued. by vm_compute.
  - by vm_compute.
  - by vm_compute.
Defined.

(** ** The batch summary line and its reader *)

Lemma append_cons c s1 s2 : String c s1 ++ s2 = String c (s1 ++ s2).
Proof. reflexivity. Qed.

Lemma append_nil_r s : s ++ "" = s.
Proof. induction s as [|c s IH]; [done |]. by rewrite append_cons, IH. Qed.

Lemma append_assoc s1 s2 s3 : (s1 ++ s2) ++ s3 = s1 ++ s2 ++ s3.
Proof.
  induction s1 as [|c s1 IH]; [done |]. by rewrite !append_cons, IH.
Qed.

Lemma all_chars_app P s1 s2 :
  all_chars P (s1 ++ s2) = all_chars P s1 && all_chars P s2.
Proof.
  induction s1 as [|c s1 IH]; [done |].
  rewrite append_cons. cbn [all_chars]. by rewrite IH, andb_assoc.
Qed.

Lemma all_chars_impl (P Q : ascii → bool) s :
  (∀ c, P c = true → Q c = true) → all_chars P s = true → all_chars Q s = true.
Proof.
  intros HPQ. induction s as [|c s IH]; [done |]. cbn [all_chars].
  rewrite !andb_true_iff. intros [? ?]. auto.
Qed.

Lemma is_digit_facts c :
  is_digit c = true →
  is_space c = false ∧ Ascii.eqb c "/" = false ∧ c ≠ "-"%char ∧ c ≠ "+"%char.
Proof.
  destruct c as [[] [] [] [] [] [] [] []]; vm_compute; intros H;
    try discriminate H; repeat split; discriminate.
Qed.

Lemma digit_val_pretty_char d :
  (d < 10)%N → digit_val (pretty_N_char d) = Some d.
Proof.
  intros Hd.
  assert (d = 0 ∨ d = 1 ∨ d = 2 ∨ d = 3 ∨ d = 4 ∨ d = 5 ∨ d = 6 ∨ d = 7
          ∨ d = 8 ∨ d = 9)%N as H by lia.
  destruct H as [->|[->|[->|[->|[->|[->|[->|[->|[->| ->]]]]]]]]]; reflexivity.
Qed.

Lemma pretty_N_go_digits x : ∀ s,
  all_chars is_digit s = true → all_chars is_digit (pretty_N_go x s) = true.
Proof.
  induction (N.lt_wf_0 x) as [x _ IH]; intros s Hs.
  destruct (decide (x = 0%N)) as [->|Hx]; [by rewrite pretty_N_go_0 |].
  rewrite pretty_N_go_step by lia. apply IH.
  - apply N.div_lt; lia.
  - cbn [all_chars]. rewrite Hs, andb_true_r. unfold is_digit.
    rewrite digit_val_pretty_char; [done |]. by apply N.mod_lt.
Qed.

Lemma pretty_N_go_parse x : ∀ b s,
  parse_digits 0 b (pretty_N_go x s) = parse_digits x (b || (0 <? x)%N) s.
Proof.
  induction (N.lt_wf_0 x) as [x _ IH]; intros b s.
  destruct (decide (x = 0%N)) as [->|Hx].
  - rewrite pretty_N_go_0. by rewrite orb_false_r.
  - rewrite pretty_N_go_step by lia. rewrite IH by (apply N.div_lt; lia).
    cbn [parse_digits]. rewrite digit_val_pretty_char by (by apply N.mod_lt).
    replace (x `div` 10 * 10 + x `mod` 10)%N with x
      by (rewrite (N.div_mod x 10) at 1 by done; lia).
    replace (0 <? x)%N with true by (symmetry; apply N.ltb_lt; lia).
    by rewrite orb_true_r.
Qed.

Lemma pretty_N_go_nonempty x : x ≠ 0%N → pretty_N_go x "" ≠ "".
Proof.
  intros Hx He.
  pose proof (pretty_N_go_parse x false "") as Hp. rewrite He in Hp.
  cbn [parse_digits] in Hp.
  replace (0 <? x)%N with true in Hp by (symmetry; apply N.ltb_lt; lia).
  discriminate.
Qed.

(** [str] of a count: digits only, at least one, and [int] reads it back. *)
Lemma pretty_nat_digits (n : nat) :
  all_chars is_digit (pretty n) = true ∧ pretty n ≠ "" ∧
  parse_digits 0 false (pretty n) = Some (N.of_nat n).
Proof.
  unfold pretty, pretty_nat, pretty, pretty_N.
  case_decide as Hn.
  - rewrite Hn. by repeat split.
  - split; [by apply pretty_N_go_digits |].
    split; [by apply pretty_N_go_nonempty |].
    rewrite pretty_N_go_parse. cbn [parse_digits orb].
    by replace (0 <? N.of_nat n)%N with true by (symmetry; apply N.ltb_lt; lia).
Qed.

Lemma lstrip_space_digits s :
  all_chars is_digit s = true → lstrip_space s = s.
Proof.
  destruct s as [|c r]; [done |]. cbn [all_chars lstrip_space].
  intros [Hc _]%andb_true_iff.
  by destruct (is_digit_facts c Hc) as (-> & _).
Qed.

Lemma rstrip_space_digits s :
  all_chars is_digit s = true → rstrip_space s = s.
Proof.
  induction s as [|c r IH]; [done |]. cbn [all_chars rstrip_space].
  intros [Hc Hr]%andb_true_iff. rewrite (IH Hr).
  destruct (is_digit_facts c Hc) as (-> & _). by destruct r.
Qed.

Lemma py_int_pretty (n : nat) : py_int (pretty n) = Some (Z.of_nat n).
Proof.
  destruct (pretty_nat_digits n) as (Hd & Hne & Hp).
  unfold py_int. rewrite lstrip_space_digits, rstrip_space_digits by done.
  destruct (pretty n) as [|c r] eqn:Hs; [done |].
  cbn [all_chars] in Hd. apply andb_true_iff in Hd as [Hc _].
  destruct (is_digit_facts c Hc) as (_ & _ & Hminus & Hplus).
  assert (Hgoal : Z.of_N <$> parse_digits 0 false (String c r)
                  = Some (Z.of_nat n)).
  { rewrite Hp. cbn. f_equal. lia. }
  destruct c as [[] [] [] [] [] [] [] []]; try exact Hgoal; done.
Qed.

Lemma pretty_Z_of_nat (n : nat) : pretty (Z.of_nat n) = pretty n.
Proof.
  destruct n as [|m]; [done |].
  unfold pretty at 2, pretty_nat. rewrite Nat2N.inj_succ.
  cbn [Z.of_nat]. unfold pretty at 1, pretty_Z, pretty, pretty_positive.
  f_equal. lia.
Qed.

Lemma split_go_word w : ∀ cur r,
  all_chars (λ c, negb (is_space c)) w = true →
  split_go cur (w ++ r) = split_go (cur ++ w) r.
Proof.
  induction w as [|c w IH]; intros cur r Hw.
  - by rewrite append_nil_r.
  - cbn [all_chars] in Hw. apply andb_true_iff in Hw as [Hc Hw].
    rewrite append_cons. cbn [split_go].
    rewrite (negb_true_iff _) in Hc. rewrite Hc, IH by done.
    by rewrite append_assoc.
Qed.

Lemma split_go_space cur c r :
  is_space c = true → cur ≠ "" →
  split_go cur (String c r) = cur :: split_go "" r.
Proof.
  intros Hc Hcur. cbn [split_go]. rewrite Hc.
  by rewrite bool_decide_eq_false_2.
Qed.

(** A word followed by a white space character comes out as one part. *)
Lemma split_go_word_space w c r :
  all_chars (λ c, negb (is_space c)) w = true → w ≠ "" → is_space c = true →
  split_go "" (w ++ String c r) = w :: split_go "" r.
Proof.
  intros Hw Hne Hc. rewrite split_go_word by done.
  by apply split_go_space.
Qed.

Lemma is_substring_app pat a b :
  is_substring pat b = true → is_substring pat (a ++ b) = true.
Proof.
  intros Hb. induction a as [|c a IH]; [done |].
  rewrite append_cons. cbn [is_substring]. rewrite IH. apply orb_true_r.
Qed.

Lemma before_slash_app w r :
  all_chars (λ c, negb (Ascii.eqb c "/")) w = true →
  before_slash (w ++ String "/" r) = w.
Proof.
  induction w as [|c w IH]; [done |]. cbn [all_chars].
  intros [Hc Hw]%andb_true_iff. rewrite append_cons. cbn [before_slash].
  rewrite (negb_true_iff _) in Hc. by rewrite Hc, IH.
Qed.

Lemma digits_no_space s :
  all_chars is_digit s = true → all_chars (λ c, negb (is_space c)) s = true.
Proof.
  apply all_chars_impl. intros c Hc.
  by destruct (is_digit_facts c Hc) as (-> & _).
Qed.

Lemma digits_no_slash s :
  all_chars is_digit s = true →
  all_chars (λ c, negb (Ascii.eqb c "/")) s = true.
Proof.
  apply all_chars_impl. intros c Hc.
  by destruct (is_digit_facts c Hc) as (_ & -> & _).
Qed.

(** The parts of the summary line. *)
Lemma split_summary k n :
  all_chars is_digit k = true → all_chars is_digit n = true → k ≠ "" →
  split_ws ("Batch processing complete. " ++ k ++ "/" ++ n
            ++ " files processed successfully." ++ String "010" "")
  = ["Batch"; "processing"; "complete."; k ++ "/" ++ n; "files"; "processed";
     "successfully."].
Proof.
  intros Hk Hn Hne. unfold split_ws.
  change ("Batch processing complete. " ++ k ++ "/" ++ n
          ++ " files processed successfully." ++ String "010" "")
    with ("Batch" ++ String " " ("processing" ++ String " " ("complete."
          ++ String " " (k ++ "/" ++ n
          ++ String " " ("files" ++ String " " ("processed" ++ String " "
          ("successfully." ++ String "010" ""))))))).
  rewrite !(split_go_word_space _ " ") by done.
  rewrite <- !append_assoc.
  rewrite (split_go_word_space ((k ++ "/") ++ n) " ").
  - rewrite !(split_go_word_space _ " ") by done.
    by rewrite (split_go_word_space _ "010") by done.
  - rewrite !all_chars_app.
    rewrite (digits_no_space k), (digits_no_space n) by done. reflexivity.
  - destruct k; [done | discriminate].
  - done.
Qed.

(** X19: the GUI reads the count of successes back out of the summary line
    that [batch_process] prints: for every list of results it sets the
    status to Completed: k/total files, where k is the number of files that
    [batch_process] counted as compressed and total is the length of the
    GUI's own list. *)
Theorem summary_line_read_back results total_files :
  status_for_line (batch_summary_line results) total_files
  = Some (Some ("Completed: "
                ++ pretty (length (filter (λ r, r = true) results)) ++ "/"
                ++ pretty total_files ++ " files")).
Proof.
  unfold status_for_line, batch_summary_line.
  set (k := length (filter (λ r, r = true) results)).
  destruct (pretty_nat_digits k) as (Hk & Hkne & _).
  destruct (pretty_nat_digits (length results)) as (Hn & _ & _).
  pose proof (py_int_pretty k) as Hint. pose proof (pretty_Z_of_nat k) as HZ.
  revert Hk Hkne Hn Hint HZ.
  generalize (pretty k), (pretty (length results)). intros sk sn Hk Hkne Hn Hint HZ.
  assert (H1 : is_substring "Batch processing complete"
                 ("Batch processing complete. " ++ sk ++ "/" ++ sn
                  ++ " files processed successfully." ++ String "010" "")
               = true) by reflexivity.
  assert (H2 : is_substring "files processed successfully"
                 ("Batch processing complete. " ++ sk ++ "/" ++ sn
                  ++ " files processed successfully." ++ String "010" "")
               = true).
  { do 4 apply is_substring_app. reflexivity. }
  rewrite H1, H2, split_summary by done.
  unfold count_from_parts. cbn [foldl].
  change (contains "/" "Batch") with false.
  change (contains "/" "processing") with false.
  change (contains "/" "complete.") with false.
  change (contains "/" "files") with false.
  change (contains "/" "processed") with false.
  change (contains "/" "successfully.") with false.
  cbn [mbind option_bind].
  change ("/" ++ sn) with (String "/" sn).
  rewrite contains_app. cbn [contains]. rewrite Ascii.eqb_refl.
  cbn [orb]. rewrite orb_true_r, before_slash_app by by apply digits_no_slash.
  rewrite Hint. cbn [mbind option_bind]. by rewrite HZ.
Qed.
